(** * pg-query-builder: a shallow embedding of [src/pg-query-builder.js]

    The chainable [QueryBuilder] class is embedded as a record of its
    fields with one state transformer per method; the [async] execution
    methods live in a small state-and-exception monad whose state is the
    builder itself (because [_execUpdate] pushes onto [this._params]) plus
    the list of statements handed to [pool.query].

    JavaScript strings are modelled as [string] (one [ascii] per code
    unit, so code units 0..255); JavaScript objects as association lists
    kept in property-enumeration order. *)

From Stdlib Require Import Bool Arith ZArith List Lia.
From Stdlib Require Import Strings.Ascii Strings.String Numbers.DecimalString.
Import ListNotations.

Open Scope list_scope.
Open Scope string_scope.

(* ================================================================== *)
(** ** JavaScript strings *)
(* ================================================================== *)

Module JsString.

(** The double-quote character, used by every identifier-quoting template. *)
Definition dq : string := String (ascii_of_nat 34) EmptyString.

(** [`"${s}"`] *)
Definition quote (s : string) : string := dq ++ s ++ dq.

(** [\s] of a regular expression and the characters removed by
    [String.prototype.trim], restricted to code units below 256:
    TAB, LF, VT, FF, CR, SPACE and NBSP. *)
Definition is_space (c : ascii) : bool :=
  let n := nat_of_ascii c in
  (((9 <=? n) && (n <=? 13)) || (n =? 32) || (n =? 160))%nat.

(** [\w] of a regular expression: [A-Za-z0-9_]. *)
Definition is_word (c : ascii) : bool :=
  let n := nat_of_ascii c in
  (((48 <=? n) && (n <=? 57)) || ((65 <=? n) && (n <=? 90))
   || (n =? 95) || ((97 <=? n) && (n <=? 122)))%nat.

Definition is_empty (s : string) : bool :=
  match s with EmptyString => true | _ => false end.

Fixpoint all_chars (p : ascii -> bool) (s : string) : bool :=
  match s with
  | EmptyString => true
  | String c s' => p c && all_chars p s'
  end.

(** The longest prefix whose characters satisfy [p], and the rest: what a
    greedy [p+] or [p*] consumes. *)
Fixpoint span (p : ascii -> bool) (s : string) : string * string :=
  match s with
  | EmptyString => (EmptyString, EmptyString)
  | String c s' =>
      if p c then let (a, b) := span p s' in (String c a, b)
      else (EmptyString, s)
  end.

Fixpoint trimStart (s : string) : string :=
  match s with
  | EmptyString => EmptyString
  | String c s' => if is_space c then trimStart s' else s
  end.

Fixpoint trimEnd (s : string) : string :=
  match s with
  | EmptyString => EmptyString
  | String c s' =>
      let r := trimEnd s' in
      if is_space c && is_empty r then EmptyString else String c r
  end.

(** [s.trim()] *)
Definition trim (s : string) : string := trimEnd (trimStart s).

(** [s.split(',')]: never empty, one more piece than there are commas. *)
Fixpoint split_comma_from (cur s : string) : list string :=
  match s with
  | EmptyString => [cur]
  | String c s' =>
      if Ascii.eqb c ","%char then cur :: split_comma_from EmptyString s'
      else split_comma_from (cur ++ String c EmptyString) s'
  end.

Definition split_comma (s : string) : list string :=
  split_comma_from EmptyString s.

(** [s.split('->')]: scanning left to right, every occurrence of the two
    characters [->] closes the current piece. *)
Fixpoint split_arrow_from (cur s : string) : list string :=
  match s with
  | EmptyString => [cur]
  | String c s' =>
      match s' with
      | String d s'' =>
          if Ascii.eqb c "-"%char && Ascii.eqb d ">"%char
          then cur :: split_arrow_from EmptyString s''
          else split_arrow_from (cur ++ String c EmptyString) s'
      | EmptyString => [cur ++ String c EmptyString]
      end
  end.

Definition split_arrow (s : string) : list string :=
  split_arrow_from EmptyString s.

(** [s.includes('->')] *)
Fixpoint includes_arrow (s : string) : bool :=
  match s with
  | EmptyString => false
  | String c s' =>
      match s' with
      | String d _ =>
          (Ascii.eqb c "-"%char && Ascii.eqb d ">"%char) || includes_arrow s'
      | EmptyString => false
      end
  end.

(** [l.join(sep)] *)
Definition join (sep : string) (l : list string) : string :=
  String.concat sep l.

(** [l.includes(k)] on an array of strings. *)
Definition includes (l : list string) (k : string) : bool :=
  existsb (String.eqb k) l.

(** [`${n}`] for an array length. *)
Definition of_nat (n : nat) : string :=
  NilZero.string_of_uint (Nat.to_uint n).

(** [`${z}`] for an integer-valued number that is a safe integer (of
    magnitude below 2^53): there the runtime prints every digit.  Larger
    numbers, which it rounds or prints with an exponent, are outside this
    model: what is stated about the text of a [LIMIT] with an arbitrary
    number assumes the bound. *)
Definition of_Z (z : Z) : string :=
  NilZero.string_of_int (Z.to_int z).

(** [Number.isSafeInteger(z)] *)
Definition is_safe_integer (z : Z) : bool := (Z.abs z <? 2 ^ 53)%Z.

(** [s.replace(/s$/, '')]: one trailing [s] is dropped. *)
Fixpoint drop_final_s (s : string) : string :=
  match s with
  | EmptyString => EmptyString
  | String c s' =>
      if Ascii.eqb c "s"%char && is_empty s' then EmptyString
      else String c (drop_final_s s')
  end.

(** [s.replace(/,\s*$/, '')]: the leftmost comma that is followed by white
    space only, up to the end of the string, is removed with what follows. *)
Fixpoint drop_final_comma (s : string) : string :=
  match s with
  | EmptyString => EmptyString
  | String c s' =>
      if Ascii.eqb c ","%char && all_chars is_space s' then EmptyString
      else String c (drop_final_comma s')
  end.

(** Number of occurrences of a character. *)
Fixpoint count_char (c : ascii) (s : string) : nat :=
  match s with
  | EmptyString => 0
  | String d s' => (if Ascii.eqb d c then 1 else 0) + count_char c s'
  end.

End JsString.
Import JsString.

(* ================================================================== *)
(** ** JavaScript values and objects *)
(* ================================================================== *)

(** The values that flow through the builder: filter operands, column
    values of rows, and the fields of the result envelope.  [JError] is an
    instance of [Error] carrying its message; [JObj] is a plain object
    (its prototype is [Object.prototype]), given by its own enumerable
    properties in [Object.keys] order.  [JNum] is an integer-valued
    number.  [JBuiltin name] is the built-in function that
    [Object.prototype] holds under [name], and [JObjectPrototype] is
    [Object.prototype] itself: the two values a property read can bring
    in from the prototype chain of a plain object. *)
#[local] Unset Elimination Schemes.
Inductive jsval : Type :=
| JUndefined
| JNull
| JBool (b : bool)
| JNum (n : Z)
| JNaN
| JStr (s : string)
| JArr (elems : list jsval)
| JObj (props : list (string * jsval))
| JError (message : string)
| JBuiltin (name : string)
| JObjectPrototype.
#[local] Set Elimination Schemes.

(** A plain object; rows are objects keyed by column name. *)
Definition jsobj : Type := list (string * jsval).

Module Js.

(** [typeof v === 'object'] *)
Definition typeof_object (v : jsval) : bool :=
  match v with
  | JNull | JArr _ | JObj _ | JError _ | JObjectPrototype => true
  | _ => false
  end.

(** [v === null] *)
Definition is_null (v : jsval) : bool :=
  match v with JNull => true | _ => false end.

(** [v === undefined] *)
Definition is_undefined (v : jsval) : bool :=
  match v with JUndefined => true | _ => false end.

(** [ToBoolean(v)] *)
Definition truthy (v : jsval) : bool :=
  match v with
  | JUndefined | JNull | JNaN => false
  | JBool b => b
  | JNum n => negb (Z.eqb n 0)
  | JStr s => negb (is_empty s)
  | JArr _ | JObj _ | JError _ | JBuiltin _ | JObjectPrototype => true
  end.

(** [a || b] *)
Definition or (a b : jsval) : jsval := if truthy a then a else b.

(** [Object.keys(o)] *)
Definition keys (o : jsobj) : list string := map fst o.

(** The names under which [Object.prototype] holds a function. *)
Definition prototype_functions : list string :=
  ["constructor"; "__defineGetter__"; "__defineSetter__"; "hasOwnProperty";
   "__lookupGetter__"; "__lookupSetter__"; "isPrototypeOf";
   "propertyIsEnumerable"; "toString"; "valueOf"; "toLocaleString"].

(** What a plain object answers for a key it does not own: the member of
    [Object.prototype] of that name, [undefined] when there is none. *)
Definition inherited (k : string) : jsval :=
  if String.eqb k "__proto__" then JObjectPrototype
  else if existsb (String.eqb k) prototype_functions then JBuiltin k
  else JUndefined.

(** [o[k]]: the object's own property, else what it inherits. *)
Fixpoint get (k : string) (o : jsobj) : jsval :=
  match o with
  | [] => inherited k
  | (k', v) :: o' => if String.eqb k k' then v else get k o'
  end.

(** [Object.hasOwn(o, k)] *)
Definition has (k : string) (o : jsobj) : bool :=
  existsb (fun kv => String.eqb k (fst kv)) o.

Definition digit_value (c : ascii) : option N :=
  let n := nat_of_ascii c in
  if ((48 <=? n) && (n <=? 57))%nat then Some (N.of_nat (n - 48)) else None.

Fixpoint digits_value (acc : N) (s : string) : option N :=
  match s with
  | EmptyString => Some acc
  | String c s' =>
      match digit_value c with
      | Some d => digits_value (10 * acc + d) s'
      | None => None
      end
  end.

(** The array index a key denotes: a canonical decimal numeral no larger
    than 2^32 - 2.  Such keys enumerate first, in ascending order. *)
Definition array_index (k : string) : option N :=
  match k with
  | EmptyString => None
  | String c rest =>
      if Ascii.eqb c "0"%char && negb (is_empty rest) then None
      else
        match digits_value 0 k with
        | Some n => if (n <=? 4294967294)%N then Some n else None
        | None => None
        end
  end.

(** Assignment to a property the object owns: it keeps its place. *)
Fixpoint replace (k : string) (v : jsval) (o : jsobj) : jsobj :=
  match o with
  | [] => []
  | (k', v') :: o' =>
      if String.eqb k k' then (k', v) :: o' else (k', v') :: replace k v o'
  end.

(** A new property whose key is the array index [i]: it goes before the
    first property that is no array index or a larger one. *)
Fixpoint insert_index (i : N) (k : string) (v : jsval) (o : jsobj)
  : jsobj :=
  match o with
  | [] => [(k, v)]
  | (k', v') :: o' =>
      match array_index k' with
      | Some j =>
          if (j <? i)%N then (k', v') :: insert_index i k v o'
          else (k, v) :: o
      | None => (k, v) :: o
      end
  end.

(** [o[k] = v] on a plain object, as far as its own properties go: a
    property the object owns keeps its place; a new array index goes among
    the indices, any other new key goes last.  The key [__proto__] is the
    setter of [Object.prototype]: it creates no own property.  What it
    does to the prototype of the object is outside this model, so what is
    proved about reading an object after [set] leaves that key out. *)
Definition set (k : string) (v : jsval) (o : jsobj) : jsobj :=
  if String.eqb k "__proto__" then o
  else if has k o then replace k v o
  else
    match array_index k with
    | Some i => insert_index i k v o
    | None => (o ++ [(k, v)])%list
    end.

(** [delete o[k]] *)
Fixpoint delete (k : string) (o : jsobj) : jsobj :=
  match o with
  | [] => []
  | (k', v') :: o' =>
      if String.eqb k k' then delete k o' else (k', v') :: delete k o'
  end.

(** [rows[0]] on an array of row objects. *)
Definition first (rows : list jsobj) : jsval :=
  match rows with
  | [] => JUndefined
  | r :: _ => JObj r
  end.

(** [l.push(x)] *)
Definition push {A : Type} (l : list A) (x : A) : list A := (l ++ [x])%list.

(** An array of row objects as a value. *)
Definition array_of (rows : list jsobj) : jsval := JArr (map JObj rows).

End Js.

(** The result envelope is the object literal each execution path returns;
    a field the literal does not list reads [undefined]. *)
Definition envelope : Type := jsobj.

Definition env_data (e : envelope) : jsval := Js.get "data" e.
Definition env_error (e : envelope) : jsval := Js.get "error" e.
Definition env_count (e : envelope) : jsval := Js.get "count" e.

(* ================================================================== *)
(** ** The embedded-relation pattern of [select]

    [/,?\s*(\w+)\(([^)]+)\)/].  Every quantifier is greedy and is followed
    by an atom that none of the characters it consumed can match, so the
    longest run is the only one a backtracking matcher can succeed with. *)
(* ================================================================== *)

Module JoinPattern.

Record groups : Type := {
  before : string;   (* the text left of the match *)
  name : string;     (* capture 1, [(\w+)] *)
  inner : string;    (* capture 2, [([^)]+)] *)
  after : string     (* the text right of the match *)
}.

Definition not_close (c : ascii) : bool := negb (Ascii.eqb c ")"%char).

(** [\s*(\w+)\(([^)]+)\)] anchored at the start of [s]. *)
Definition match_tail (s : string) : option (string * string * string) :=
  let s1 := snd (span is_space s) in
  let (w, s2) := span is_word s1 in
  if is_empty w then None else
  match s2 with
  | String c s3 =>
      if Ascii.eqb c "("%char then
        let (g, s4) := span not_close s3 in
        if is_empty g then None else
        match s4 with
        | String d s5 => if Ascii.eqb d ")"%char then Some (w, g, s5) else None
        | EmptyString => None
        end
      else None
  | EmptyString => None
  end.

(** The whole pattern anchored at the start of [s]: [,?] first tries to
    take a comma, then to take nothing. *)
Definition match_here (s : string) : option (string * string * string) :=
  match s with
  | String c s' =>
      if Ascii.eqb c ","%char then
        match match_tail s' with
        | Some r => Some r
        | None => match_tail s
        end
      else match_tail s
  | EmptyString => match_tail s
  end.

(** [s.match(re)]: the leftmost position at which the pattern matches. *)
Fixpoint exec (s : string) : option groups :=
  match match_here s with
  | Some (w, g, rest) =>
      Some {| before := EmptyString; name := w; inner := g; after := rest |}
  | None =>
      match s with
      | EmptyString => None
      | String c s' =>
          match exec s' with
          | Some m =>
              Some {| before := String c (before m); name := name m;
                      inner := inner m; after := after m |}
          | None => None
          end
      end
  end.

(** [s.replace(re, '')] for a string the pattern matched with groups [m]. *)
Definition removed (m : groups) : string := before m ++ after m.

End JoinPattern.

(* ================================================================== *)
(** ** The database connector and the execution monad *)
(* ================================================================== *)

(** What [pool.query] receives: the SQL text and the positional
    parameters. *)
Definition statement : Type := (string * list jsval)%type.

(** An awaited call either yields a value or throws. *)
Inductive outcome (A : Type) : Type :=
| Ok (a : A)
| Throw (e : jsval).
Arguments Ok {A} a.
Arguments Throw {A} e.

(** [pool.query(sql, params)]: the rows of the result, or a rejection.
    The answer may depend on the statements issued before. *)
Definition Connector : Type :=
  list statement -> statement -> outcome (list jsobj).

Inductive Operation : Type := OpSelect | OpInsert | OpUpdate | OpUpsert.

Record JoinSpec : Type := {
  join_table : string;
  join_columns : list string;
  join_fk : string
}.

(** The fields of [class QueryBuilder]; [None] is [null]. *)
Record QueryBuilder : Type := {
  _pool : Connector;
  _table : option string;
  _operation : option Operation;
  _selectCols : string;
  _countExact : bool;
  _joins : list JoinSpec;
  _wheres : list string;
  _params : list jsval;
  _orderClauses : list string;
  _limitVal : option Z;
  _singleResult : bool;
  _insertData : option (list jsobj);
  _updateData : option jsobj;
  _upsertConflict : option string;
  _returnData : bool
}.

(** A promise that has settled. *)
Inductive promise (A : Type) : Type :=
| Resolved (a : A)
| Rejected (e : jsval).
Arguments Resolved {A} a.
Arguments Rejected {A} e.

(** The state an execution runs in: the builder ([this]) and the
    statements handed to the connector so far. *)
Record exec_state : Type := {
  self : QueryBuilder;
  issued : list statement
}.

Module Exec.

Definition M (A : Type) : Type := exec_state -> outcome A * exec_state.

Definition ret {A} (a : A) : M A := fun st => (Ok a, st).

Definition throw {A} (e : jsval) : M A := fun st => (Throw e, st).

Definition bind {A B} (m : M A) (k : A -> M B) : M B :=
  fun st =>
    match m st with
    | (Ok a, st') => k a st'
    | (Throw e, st') => (Throw e, st')
    end.

(** [this] *)
Definition this : M QueryBuilder := fun st => (Ok (self st), st).

(** A write to fields of [this]. *)
Definition modify (f : QueryBuilder -> QueryBuilder) : M unit :=
  fun st => (Ok tt, {| self := f (self st); issued := issued st |}).

(** [await this._pool.query(sql, params)], then [.rows]. *)
Definition query (sql : string) (params : list jsval) : M (list jsobj) :=
  fun st =>
    (_pool (self st) (issued st) (sql, params),
     {| self := self st; issued := issued st ++ [(sql, params)] |}).

(** [try { body } catch (err) { handler(err) }] *)
Definition try_catch {A} (body : M A) (handler : jsval -> M A) : M A :=
  fun st =>
    match body st with
    | (Ok a, st') => (Ok a, st')
    | (Throw e, st') => handler e st'
    end.

End Exec.

Notation "x <- m ;; k" := (Exec.bind m (fun x => k))
  (at level 61, m at next level, right associativity).
Notation "m ;;; k" := (Exec.bind m (fun _ => k))
  (at level 61, right associativity).

(** The [TypeError] the runtime raises when a property of [null] or
    [undefined] is read. *)
Definition TypeError : jsval := JError "TypeError".

(* ================================================================== *)
(** ** [class QueryBuilder]: the chainable methods *)
(* ================================================================== *)

(** Field assignments [this._f = v]. *)
Module Assign.

Definition table v b :=
  {| _pool := _pool b; _table := v; _operation := _operation b;
     _selectCols := _selectCols b; _countExact := _countExact b;
     _joins := _joins b; _wheres := _wheres b; _params := _params b;
     _orderClauses := _orderClauses b; _limitVal := _limitVal b;
     _singleResult := _singleResult b; _insertData := _insertData b;
     _updateData := _updateData b; _upsertConflict := _upsertConflict b;
     _returnData := _returnData b |}.

Definition operation v b :=
  {| _pool := _pool b; _table := _table b; _operation := v;
     _selectCols := _selectCols b; _countExact := _countExact b;
     _joins := _joins b; _wheres := _wheres b; _params := _params b;
     _orderClauses := _orderClauses b; _limitVal := _limitVal b;
     _singleResult := _singleResult b; _insertData := _insertData b;
     _updateData := _updateData b; _upsertConflict := _upsertConflict b;
     _returnData := _returnData b |}.

Definition selectCols v b :=
  {| _pool := _pool b; _table := _table b; _operation := _operation b;
     _selectCols := v; _countExact := _countExact b;
     _joins := _joins b; _wheres := _wheres b; _params := _params b;
     _orderClauses := _orderClauses b; _limitVal := _limitVal b;
     _singleResult := _singleResult b; _insertData := _insertData b;
     _updateData := _updateData b; _upsertConflict := _upsertConflict b;
     _returnData := _returnData b |}.

Definition countExact v b :=
  {| _pool := _pool b; _table := _table b; _operation := _operation b;
     _selectCols := _selectCols b; _countExact := v;
     _joins := _joins b; _wheres := _wheres b; _params := _params b;
     _orderClauses := _orderClauses b; _limitVal := _limitVal b;
     _singleResult := _singleResult b; _insertData := _insertData b;
     _updateData := _updateData b; _upsertConflict := _upsertConflict b;
     _returnData := _returnData b |}.

Definition joins v b :=
  {| _pool := _pool b; _table := _table b; _operation := _operation b;
     _selectCols := _selectCols b; _countExact := _countExact b;
     _joins := v; _wheres := _wheres b; _params := _params b;
     _orderClauses := _orderClauses b; _limitVal := _limitVal b;
     _singleResult := _singleResult b; _insertData := _insertData b;
     _updateData := _updateData b; _upsertConflict := _upsertConflict b;
     _returnData := _returnData b |}.

Definition wheres v b :=
  {| _pool := _pool b; _table := _table b; _operation := _operation b;
     _selectCols := _selectCols b; _countExact := _countExact b;
     _joins := _joins b; _wheres := v; _params := _params b;
     _orderClauses := _orderClauses b; _limitVal := _limitVal b;
     _singleResult := _singleResult b; _insertData := _insertData b;
     _updateData := _updateData b; _upsertConflict := _upsertConflict b;
     _returnData := _returnData b |}.

Definition params v b :=
  {| _pool := _pool b; _table := _table b; _operation := _operation b;
     _selectCols := _selectCols b; _countExact := _countExact b;
     _joins := _joins b; _wheres := _wheres b; _params := v;
     _orderClauses := _orderClauses b; _limitVal := _limitVal b;
     _singleResult := _singleResult b; _insertData := _insertData b;
     _updateData := _updateData b; _upsertConflict := _upsertConflict b;
     _returnData := _returnData b |}.

Definition orderClauses v b :=
  {| _pool := _pool b; _table := _table b; _operation := _operation b;
     _selectCols := _selectCols b; _countExact := _countExact b;
     _joins := _joins b; _wheres := _wheres b; _params := _params b;
     _orderClauses := v; _limitVal := _limitVal b;
     _singleResult := _singleResult b; _insertData := _insertData b;
     _updateData := _updateData b; _upsertConflict := _upsertConflict b;
     _returnData := _returnData b |}.

Definition limitVal v b :=
  {| _pool := _pool b; _table := _table b; _operation := _operation b;
     _selectCols := _selectCols b; _countExact := _countExact b;
     _joins := _joins b; _wheres := _wheres b; _params := _params b;
     _orderClauses := _orderClauses b; _limitVal := v;
     _singleResult := _singleResult b; _insertData := _insertData b;
     _updateData := _updateData b; _upsertConflict := _upsertConflict b;
     _returnData := _returnData b |}.

Definition singleResult v b :=
  {| _pool := _pool b; _table := _table b; _operation := _operation b;
     _selectCols := _selectCols b; _countExact := _countExact b;
     _joins := _joins b; _wheres := _wheres b; _params := _params b;
     _orderClauses := _orderClauses b; _limitVal := _limitVal b;
     _singleResult := v; _insertData := _insertData b;
     _updateData := _updateData b; _upsertConflict := _upsertConflict b;
     _returnData := _returnData b |}.

Definition insertData v b :=
  {| _pool := _pool b; _table := _table b; _operation := _operation b;
     _selectCols := _selectCols b; _countExact := _countExact b;
     _joins := _joins b; _wheres := _wheres b; _params := _params b;
     _orderClauses := _orderClauses b; _limitVal := _limitVal b;
     _singleResult := _singleResult b; _insertData := v;
     _updateData := _updateData b; _upsertConflict := _upsertConflict b;
     _returnData := _returnData b |}.

Definition updateData v b :=
  {| _pool := _pool b; _table := _table b; _operation := _operation b;
     _selectCols := _selectCols b; _countExact := _countExact b;
     _joins := _joins b; _wheres := _wheres b; _params := _params b;
     _orderClauses := _orderClauses b; _limitVal := _limitVal b;
     _singleResult := _singleResult b; _insertData := _insertData b;
     _updateData := v; _upsertConflict := _upsertConflict b;
     _returnData := _returnData b |}.

Definition upsertConflict v b :=
  {| _pool := _pool b; _table := _table b; _operation := _operation b;
     _selectCols := _selectCols b; _countExact := _countExact b;
     _joins := _joins b; _wheres := _wheres b; _params := _params b;
     _orderClauses := _orderClauses b; _limitVal := _limitVal b;
     _singleResult := _singleResult b; _insertData := _insertData b;
     _updateData := _updateData b; _upsertConflict := v;
     _returnData := _returnData b |}.

Definition returnData v b :=
  {| _pool := _pool b; _table := _table b; _operation := _operation b;
     _selectCols := _selectCols b; _countExact := _countExact b;
     _joins := _joins b; _wheres := _wheres b; _params := _params b;
     _orderClauses := _orderClauses b; _limitVal := _limitVal b;
     _singleResult := _singleResult b; _insertData := _insertData b;
     _updateData := _updateData b; _upsertConflict := _upsertConflict b;
     _returnData := v |}.

End Assign.

(** The argument of [insert] and [upsert]: one row or an array of rows,
    each row a plain object.  A call without data, or with [null] in the
    place of a row, is outside this type. *)
Inductive RowsArg : Type :=
| OneRow (row : jsobj)
| ManyRows (rows : list jsobj).

Module QB.

(** [new QueryBuilder(pool)] *)
Definition constructor (pool : Connector) : QueryBuilder :=
  {| _pool := pool; _table := None; _operation := None;
     _selectCols := "*"; _countExact := false;
     _joins := []; _wheres := []; _params := [];
     _orderClauses := []; _limitVal := None;
     _singleResult := false; _insertData := None;
     _updateData := None; _upsertConflict := None;
     _returnData := false |}.

Definition from (table : string) (this : QueryBuilder) : QueryBuilder :=
  let qb := constructor (_pool this) in
  Assign.table (Some table) qb.

(** Convert JSON path notation ([metadata->key]) to the [->>] syntax. *)
Definition _pgCol (col : string) : string :=
  if includes_arrow col then
    let parts := split_arrow col in
    match parts with
    | p0 :: p1 :: _ => p0 ++ "->>'" ++ p1 ++ "'"
    | _ => EmptyString  (* unreachable: a string with [->] has two parts *)
    end
  else quote col.

(** [this._params.push(value)] *)
Definition push_param (value : jsval) (this : QueryBuilder) : QueryBuilder :=
  Assign.params (Js.push (_params this) value) this.

(** [this._wheres.push(fragment)] *)
Definition push_where (fragment : string) (this : QueryBuilder)
  : QueryBuilder :=
  Assign.wheres (Js.push (_wheres this) fragment) this.

(** [`${this._pgCol(column)} ${op} $${this._params.length}`] *)
Definition placeholder_fragment (column op : string) (this : QueryBuilder)
  : string :=
  _pgCol column ++ " " ++ op ++ " $" ++ of_nat (List.length (_params this)).

Definition select (columns : option string) (count : option string)
    (this : QueryBuilder) : QueryBuilder :=
  match _operation this with
  | Some OpInsert | Some OpUpdate | Some OpUpsert =>
      Assign.returnData true this
  | _ =>
      let columns := match columns with Some c => c | None => "*" end in
      let this := Assign.operation (Some OpSelect) this in
      let this :=
        Assign.countExact
          (match count with Some c => String.eqb c "exact" | None => false end)
          this in
      match JoinPattern.exec columns with
      | Some joinMatch =>
          let stripped :=
            drop_final_comma (trim (JoinPattern.removed joinMatch)) in
          let cleanCols := if is_empty stripped then "*" else stripped in
          let this := Assign.selectCols cleanCols this in
          Assign.joins
            (Js.push (_joins this)
               {| join_table := JoinPattern.name joinMatch;
                  join_columns :=
                    map trim (split_comma (JoinPattern.inner joinMatch));
                  join_fk :=
                    drop_final_s (JoinPattern.name joinMatch) ++ "_id" |})
            this
      | None => Assign.selectCols columns this
      end
  end.

Definition eq (column : string) (value : jsval) (this : QueryBuilder) :=
  let this := push_param value this in
  push_where (placeholder_fragment column "=" this) this.

Definition neq (column : string) (value : jsval) (this : QueryBuilder) :=
  let this := push_param value this in
  push_where (placeholder_fragment column "!=" this) this.

Definition not (column operator : string) (value : jsval)
    (this : QueryBuilder) :=
  if String.eqb operator "is" && Js.is_null value then
    push_where (_pgCol column ++ " IS NOT NULL") this
  else if String.eqb operator "eq" then
    let this := push_param value this in
    push_where (placeholder_fragment column "!=" this) this
  else this.

Definition is_ (column : string) (value : jsval) (this : QueryBuilder) :=
  if Js.is_null value then
    push_where (_pgCol column ++ " IS NULL") this
  else
    let this := push_param value this in
    push_where (placeholder_fragment column "IS" this) this.

Definition gt (column : string) (value : jsval) (this : QueryBuilder) :=
  let this := push_param value this in
  push_where (placeholder_fragment column ">" this) this.

Definition gte (column : string) (value : jsval) (this : QueryBuilder) :=
  let this := push_param value this in
  push_where (placeholder_fragment column ">=" this) this.

Definition lt (column : string) (value : jsval) (this : QueryBuilder) :=
  let this := push_param value this in
  push_where (placeholder_fragment column "<" this) this.

Definition lte (column : string) (value : jsval) (this : QueryBuilder) :=
  let this := push_param value this in
  push_where (placeholder_fragment column "<=" this) this.

(** [ascending] is [options.ascending]; [None] when the option is absent. *)
Definition order (column : string) (ascending : option bool)
    (this : QueryBuilder) :=
  let dir :=
    match ascending with Some false => "DESC" | _ => "ASC" end in
  Assign.orderClauses (Js.push (_orderClauses this) (_pgCol column ++ " " ++ dir))
    this.

(** [n] is an integer-valued number; [None] is [null] or no argument. *)
Definition limit (n : option Z) (this : QueryBuilder) :=
  Assign.limitVal n this.

Definition single (this : QueryBuilder) :=
  let this := Assign.singleResult true this in
  Assign.limitVal (Some 1%Z) this.

(** [Array.isArray(data) ? data : [data]] *)
Definition as_rows (data : RowsArg) : list jsobj :=
  match data with
  | OneRow r => [r]
  | ManyRows rs => rs
  end.

Definition insert (data : RowsArg) (this : QueryBuilder) :=
  let this := Assign.operation (Some OpInsert) this in
  Assign.insertData (Some (as_rows data)) this.

Definition update (data : jsobj) (this : QueryBuilder) :=
  let this := Assign.operation (Some OpUpdate) this in
  Assign.updateData (Some data) this.

(** [onConflict] is [options.onConflict]; [None] when the option is absent. *)
Definition upsert (data : RowsArg) (onConflict : option string)
    (this : QueryBuilder) :=
  let this := Assign.operation (Some OpUpsert) this in
  let this := Assign.insertData (Some (as_rows data)) this in
  Assign.upsertConflict
    (Some (match onConflict with
           | Some c => if is_empty c then "id" else c
           | None => "id"
           end))
    this.

End QB.

(* ================================================================== *)
(** ** [class QueryBuilder]: compilation and execution *)
(* ================================================================== *)

Section Execution.

(** Two built-ins of the runtime are taken as given: [JSON.stringify] on
    an object or array, and [parseInt]. *)
Variable JSON_stringify : jsval -> string.
Variable parseInt : jsval -> jsval.

(** Prepare a value for Postgres: arrays stay native, objects become JSON. *)
Definition _pgVal (val : jsval) : jsval :=
  if Js.is_null val || Js.is_undefined val then val else
  match val with
  | JArr elems =>
      match elems with
      | [] => JStr "{}"
      | v0 :: _ =>
          if Js.typeof_object v0 && negb (Js.is_null v0)
          then JStr (JSON_stringify val)
          else val
      end
  | _ => if Js.typeof_object val then JStr (JSON_stringify val) else val
  end.

(** [`${this._table}`] *)
Definition table_text (this : QueryBuilder) : string :=
  match _table this with Some t => t | None => "null" end.

(** [this._wheres.length ? ` WHERE ${this._wheres.join(' AND ')}` : ''] *)
Definition where_text (this : QueryBuilder) : string :=
  match _wheres this with
  | [] => EmptyString
  | _ => " WHERE " ++ join " AND " (_wheres this)
  end.

(** [this._singleResult ? rows[0] || null : rows] *)
Definition rows_data (this : QueryBuilder) (rows : list jsobj) : jsval :=
  if _singleResult this then Js.or (Js.first rows) JNull
  else Js.array_of rows.

(** The [SELECT] text of [_execSelect], up to and including [LIMIT]. *)
Definition select_sql (this : QueryBuilder) : string :=
  let sql :=
    match _joins this with
    | jn :: _ =>
        let mainCols :=
          if String.eqb (_selectCols this) "*"
          then quote (table_text this) ++ ".*"
          else join ", "
                 (map (fun c => quote (table_text this) ++ "." ++ quote (trim c))
                      (split_comma (_selectCols this))) in
        let joinCols :=
          join ", "
            (map (fun c => quote (join_table jn) ++ "." ++ quote c ++ " AS "
                           ++ quote (join_table jn ++ "_" ++ c))
                 (join_columns jn)) in
        "SELECT " ++ mainCols ++ ", " ++ joinCols
        ++ " FROM " ++ quote (table_text this)
        ++ " LEFT JOIN " ++ quote (join_table jn)
        ++ " ON " ++ quote (table_text this) ++ "." ++ quote (join_fk jn)
        ++ " = " ++ quote (join_table jn) ++ "." ++ quote "id"
    | [] =>
        "SELECT "
        ++ (if String.eqb (_selectCols this) "*" then "*"
            else join ", "
                   (map (fun c => quote (trim c))
                        (split_comma (_selectCols this))))
        ++ " FROM " ++ quote (table_text this)
    end in
  let sql := sql ++ where_text this in
  let sql :=
    match _orderClauses this with
    | [] => sql
    | _ => sql ++ " ORDER BY " ++ join ", " (_orderClauses this)
    end in
  match _limitVal this with
  | Some n => sql ++ " LIMIT " ++ of_Z n
  | None => sql
  end.

(** The callback of [rows.map] in [_execSelect]: the aliased columns of the
    joined table move into a nested object under the table's name.
    [main] starts as the copy [{ ...row }], which has the own properties
    of [row] in their order. *)
Definition reshape_row (jn : JoinSpec) (row : jsobj) : jsobj :=
  let '(nested, main) :=
    fold_left
      (fun '(nested, main) c =>
         let alias := join_table jn ++ "_" ++ c in
         (Js.set c (Js.get alias row) nested, Js.delete alias main))
      (join_columns jn) ([], row) in
  Js.set (join_table jn) (JObj nested) main.

Definition reshape_rows (this : QueryBuilder) (rows : list jsobj)
  : list jsobj :=
  match _joins this with
  | jn :: _ => map (reshape_row jn) rows
  | [] => rows
  end.

Definition _execSelect : Exec.M envelope :=
  this <- Exec.this ;;
  result_rows <- Exec.query (select_sql this) (_params this) ;;
  let rows := reshape_rows this result_rows in
  let data :=
    if _singleResult this then Js.or (Js.first rows) JNull
    else Js.array_of rows in
  let error :=
    if _singleResult this && negb (Js.truthy (Js.first rows))
    then JObj [("message", JStr "Row not found")]
    else JNull in
  countVal <-
    (if _countExact this then
       let countSql :=
         "SELECT COUNT(*) FROM " ++ quote (table_text this)
         ++ where_text this in
       count_rows <- Exec.query countSql (_params this) ;;
       match count_rows with
       | r :: _ => Exec.ret (parseInt (Js.get "count" r))
       | [] => Exec.throw TypeError
       end
     else Exec.ret JNull) ;;
  Exec.ret [("data", data); ("error", Js.or error JNull); ("count", countVal)].

(** The inner [keys.forEach] of [_execInsert] and [_execUpsert]: one value
    and one placeholder per key of the first row. *)
Definition bind_row (keys : list string) (row : jsobj) (values : list jsval)
  : list jsval * list string :=
  fold_left
    (fun '(values, rowPlaceholders) key =>
       let values := Js.push values (_pgVal (Js.get key row)) in
       (values, Js.push rowPlaceholders ("$" ++ of_nat (List.length values))))
    keys (values, []).

(** The outer [this._insertData.forEach]: one [VALUES] tuple per row. *)
Definition bind_rows (keys : list string) (insertData : list jsobj)
  : list jsval * list string :=
  fold_left
    (fun '(values, placeholders) row =>
       let '(values, rowPlaceholders) := bind_row keys row values in
       (values,
        Js.push placeholders ("(" ++ join ", " rowPlaceholders ++ ")")))
    insertData ([], []).

Definition insert_sql (this : QueryBuilder) (keys : list string)
    (placeholders : list string) : string :=
  let quotedKeys := join ", " (map quote keys) in
  "INSERT INTO " ++ quote (table_text this) ++ " (" ++ quotedKeys
  ++ ") VALUES " ++ join ", " placeholders
  ++ (if _returnData this then " RETURNING *" else EmptyString).

Definition _execInsert : Exec.M envelope :=
  this <- Exec.this ;;
  match _insertData this with
  | None => Exec.throw TypeError
  | Some [] => Exec.ret [("data", JNull); ("error", JNull)]
  | Some ((row0 :: _) as insertData) =>
      let keys := Js.keys row0 in
      let '(values, placeholders) := bind_rows keys insertData in
      let sql := insert_sql this keys placeholders in
      result_rows <- Exec.query sql values ;;
      let data :=
        if _returnData this then rows_data this result_rows else JNull in
      Exec.ret [("data", data); ("error", JNull)]
  end.

(** The [keys.forEach] of [_execUpdate]: each value is pushed onto
    [this._params] and referred to by the new length. *)
Definition bind_updates (updateData : jsobj) (keys : list string)
    (params : list jsval) : list jsval * list string :=
  fold_left
    (fun '(params, setClauses) key =>
       let val := _pgVal (Js.get key updateData) in
       let params := Js.push params val in
       (params,
        Js.push setClauses
          (quote key ++ " = $" ++ of_nat (List.length params))))
    keys (params, []).

Definition update_sql (this : QueryBuilder) (setClauses : list string)
  : string :=
  "UPDATE " ++ quote (table_text this) ++ " SET " ++ join ", " setClauses
  ++ where_text this
  ++ (if _returnData this then " RETURNING *" else EmptyString).

Definition _execUpdate : Exec.M envelope :=
  this <- Exec.this ;;
  match _updateData this with
  | None => Exec.throw TypeError
  | Some updateData =>
      let keys := Js.keys updateData in
      let '(params, setClauses) :=
        bind_updates updateData keys (_params this) in
      Exec.modify (Assign.params params) ;;;
      this <- Exec.this ;;
      let sql := update_sql this setClauses in
      result_rows <- Exec.query sql (_params this) ;;
      let data :=
        if _returnData this then rows_data this result_rows else JNull in
      Exec.ret [("data", data); ("error", JNull)]
  end.

(** [this._upsertConflict.split(',').map(c => c.trim())] *)
Definition conflict_targets (upsertConflict : string) : list string :=
  map trim (split_comma upsertConflict).

(** The assignments of [DO UPDATE SET], before they are joined. *)
Definition update_clauses (upsertConflict : string) (keys : list string)
  : list string :=
  map (fun k => quote k ++ " = EXCLUDED." ++ quote k)
      (filter (fun k => negb (includes (conflict_targets upsertConflict) k))
              keys).

Definition upsert_sql (this : QueryBuilder) (upsertConflict : string)
    (keys : list string) (placeholders : list string) : string :=
  let quotedKeys := join ", " (map quote keys) in
  let conflictCols :=
    join ", " (map (fun c => quote (trim c)) (split_comma upsertConflict)) in
  let updateClauses := join ", " (update_clauses upsertConflict keys) in
  "INSERT INTO " ++ quote (table_text this) ++ " (" ++ quotedKeys
  ++ ") VALUES " ++ join ", " placeholders
  ++ " ON CONFLICT (" ++ conflictCols ++ ") DO UPDATE SET " ++ updateClauses
  ++ " RETURNING *".

Definition _execUpsert : Exec.M envelope :=
  this <- Exec.this ;;
  match _insertData this with
  | None => Exec.throw TypeError
  | Some [] => Exec.ret [("data", JNull); ("error", JNull)]
  | Some ((row0 :: _) as insertData) =>
      let keys := Js.keys row0 in
      let '(values, placeholders) := bind_rows keys insertData in
      match _upsertConflict this with
      | None => Exec.throw TypeError
      | Some upsertConflict =>
          let sql := upsert_sql this upsertConflict keys placeholders in
          result_rows <- Exec.query sql values ;;
          let data := rows_data this result_rows in
          Exec.ret [("data", data); ("error", JNull)]
      end
  end.

(** The body of the [try] block of [_execute]. *)
Definition dispatch : Exec.M envelope :=
  this <- Exec.this ;;
  match _operation this with
  | Some OpSelect => _execSelect
  | Some OpInsert => _execInsert
  | Some OpUpdate => _execUpdate
  | Some OpUpsert => _execUpsert
  | None =>
      Exec.ret [("data", JNull); ("error", JError "No operation specified")]
  end.

(** The [catch (err)] block of [_execute]. *)
Definition handler (err : jsval) : Exec.M envelope :=
  Exec.ret [("data", JNull); ("error", err); ("count", JNull)].

(** An [async] function returns a promise: resolved with the value the
    body returns, rejected with what it throws. *)
Definition async {A} (body : Exec.M A) (st : exec_state)
  : promise A * exec_state :=
  match body st with
  | (Ok a, st') => (Resolved a, st')
  | (Throw e, st') => (Rejected e, st')
  end.

Definition _execute : exec_state -> promise envelope * exec_state :=
  async (Exec.try_catch dispatch handler).

(** [p.then(resolve, reject)] on a settled promise; [None] is an omitted
    callback. *)
Definition promise_then {A} (p : promise A)
    (resolve : option (A -> outcome A)) (reject : option (jsval -> outcome A))
  : promise A :=
  match p with
  | Resolved a =>
      match resolve with
      | Some f =>
          match f a with Ok b => Resolved b | Throw e => Rejected e end
      | None => Resolved a
      end
  | Rejected e =>
      match reject with
      | Some f =>
          match f e with Ok b => Resolved b | Throw e' => Rejected e' end
      | None => Rejected e
      end
  end.

(** [then(resolve, reject)]: what makes the builder awaitable. *)
Definition then_ (resolve : option (envelope -> outcome envelope))
    (reject : option (jsval -> outcome envelope)) (st : exec_state)
  : promise envelope * exec_state :=
  let (p, st') := _execute st in
  (promise_then p resolve reject, st').

(** [catch(fn)] *)
Definition catch_ (fn : option (jsval -> outcome envelope))
    (st : exec_state) : promise envelope * exec_state :=
  let (p, st') := _execute st in
  (promise_then p None fn, st').

(** [await chain]: the runtime calls [then] with the two functions that
    settle the awaiting promise. *)
Definition await (st : exec_state) : promise envelope * exec_state :=
  then_ (Some Ok) (Some Throw) st.

End Execution.

(* ================================================================== *)
(** ** Chains of method calls *)
(* ================================================================== *)

(** One call of the fluent interface, with arguments of the documented
    kinds: [insert], [update] and [upsert] are given their data, a plain
    object or, for [insert] and [upsert], an array of plain objects.
    [update()] and [update(null)], which leave [_updateData] empty, are
    no [Call]; what executing that state does is part of [_execUpdate]. *)
Inductive Call : Type :=
| CFrom (table : string)
| CSelect (columns : option string) (count : option string)
| CEq (column : string) (value : jsval)
| CNeq (column : string) (value : jsval)
| CNot (column operator : string) (value : jsval)
| CIs (column : string) (value : jsval)
| CGt (column : string) (value : jsval)
| CGte (column : string) (value : jsval)
| CLt (column : string) (value : jsval)
| CLte (column : string) (value : jsval)
| COrder (column : string) (ascending : option bool)
| CLimit (n : option Z)
| CSingle
| CInsert (data : RowsArg)
| CUpdate (data : jsobj)
| CUpsert (data : RowsArg) (onConflict : option string).

Module Chain.

(** The builder a call returns. *)
Definition call (this : QueryBuilder) (c : Call) : QueryBuilder :=
  match c with
  | CFrom table => QB.from table this
  | CSelect columns count => QB.select columns count this
  | CEq column value => QB.eq column value this
  | CNeq column value => QB.neq column value this
  | CNot column operator value => QB.not column operator value this
  | CIs column value => QB.is_ column value this
  | CGt column value => QB.gt column value this
  | CGte column value => QB.gte column value this
  | CLt column value => QB.lt column value this
  | CLte column value => QB.lte column value this
  | COrder column ascending => QB.order column ascending this
  | CLimit n => QB.limit n this
  | CSingle => QB.single this
  | CInsert data => QB.insert data this
  | CUpdate data => QB.update data this
  | CUpsert data onConflict => QB.upsert data onConflict this
  end.

(** [db.from(table).c1(...).c2(...)...] *)
Definition run (calls : list Call) (this : QueryBuilder) : QueryBuilder :=
  fold_left call calls this.

(** The exported [db] instance over a given pool. *)
Definition db (pool : Connector) : QueryBuilder := QB.constructor pool.

(** The state in which a freshly built chain starts executing. *)
Definition start (this : QueryBuilder) : exec_state :=
  {| self := this; issued := [] |}.

(** A filter call that pushes a value onto [this._params]. *)
Definition binds (c : Call) : bool :=
  match c with
  | CEq _ _ | CNeq _ _ | CGt _ _ | CGte _ _ | CLt _ _ | CLte _ _ => true
  | CIs _ value => negb (Js.is_null value)
  | CNot _ operator value =>
      negb (String.eqb operator "is" && Js.is_null value)
      && String.eqb operator "eq"
  | _ => false
  end.

(** The column a filter call names. *)
Definition column_of (c : Call) : string :=
  match c with
  | CEq column _ | CNeq column _ | CNot column _ _ | CIs column _
  | CGt column _ | CGte column _ | CLt column _ | CLte column _ => column
  | _ => EmptyString
  end.

(** The value a binding filter call pushes. *)
Definition value_of (c : Call) : jsval :=
  match c with
  | CEq _ value | CNeq _ value | CNot _ _ value | CIs _ value
  | CGt _ value | CGte _ value | CLt _ value | CLte _ value => value
  | _ => JUndefined
  end.

(** The SQL operator a binding filter call writes. *)
Definition operator_of (c : Call) : string :=
  match c with
  | CEq _ _ => "="
  | CNeq _ _ | CNot _ _ _ => "!="
  | CIs _ _ => "IS"
  | CGt _ _ => ">"
  | CGte _ _ => ">="
  | CLt _ _ => "<"
  | CLte _ _ => "<="
  | _ => EmptyString
  end.

End Chain.

(* ================================================================== *)
(** ** Statements of the specification, as definitions *)
(* ================================================================== *)

Module Spec.

(** A value that is an object in the sense of the coercion rule:
    [typeof v === 'object'] and not [null]. *)
Definition is_object (v : jsval) : bool :=
  match v with
  | JArr _ | JObj _ | JError _ | JObjectPrototype => true
  | _ => false
  end.

(** Value coercion before binding, case by case as the specification
    words it. *)
Definition coerced (JSON_stringify : jsval -> string) (val : jsval)
  : jsval :=
  match val with
  | JNull | JUndefined => val
  | JArr [] => JStr "{}"
  | JArr (v0 :: _) =>
      if is_object v0 then JStr (JSON_stringify val) else val
  | JObj _ | JError _ | JObjectPrototype => JStr (JSON_stringify val)
  | JBool _ | JNum _ | JNaN | JStr _ | JBuiltin _ => val
  end.

(** [$k] *)
Definition placeholder (k : nat) : string := "$" ++ of_nat k.

(** [`"${key}" = $k`] *)
Definition set_clause (ik : nat * string) : string :=
  quote (snd ik) ++ " = " ++ placeholder (fst ik).

(** The fragment of a binding filter call whose value is parameter [$i]. *)
Definition where_clause (ic : nat * Call) : string :=
  QB._pgCol (Chain.column_of (snd ic)) ++ " " ++ Chain.operator_of (snd ic)
  ++ " " ++ placeholder (fst ic).

(** The invariant of the data model: single-row mode forces the limit. *)
Definition single_forces_limit (b : QueryBuilder) : Prop :=
  _singleResult b = true -> _limitVal b = Some 1%Z.

End Spec.

(* ================================================================== *)
(** ** What an execution hands to the connector *)
(* ================================================================== *)

Section Statements.

Variable JSON_stringify : jsval -> string.

(** The state after one more statement went to the connector. *)
Definition after_query (st : exec_state) (stmt : statement) : exec_state :=
  {| self := self st; issued := issued st ++ [stmt] |}.

(** The statement [_execSelect] compiles first. *)
Definition select_statement (this : QueryBuilder) : statement :=
  (select_sql this, _params this).

(** The auxiliary statement of an exact count. *)
Definition count_statement (this : QueryBuilder) : statement :=
  ("SELECT COUNT(*) FROM " ++ quote (table_text this) ++ where_text this,
   _params this).

(** The statement [_execInsert] compiles for a non-empty row sequence. *)
Definition insert_statement (this : QueryBuilder) (insertData : list jsobj)
  : statement :=
  let keys := match insertData with r :: _ => Js.keys r | [] => [] end in
  (insert_sql this keys (snd (bind_rows JSON_stringify keys insertData)),
   fst (bind_rows JSON_stringify keys insertData)).

(** The statement [_execUpsert] compiles for a non-empty row sequence. *)
Definition upsert_statement (this : QueryBuilder) (upsertConflict : string)
    (insertData : list jsobj) : statement :=
  let keys := match insertData with r :: _ => Js.keys r | [] => [] end in
  (upsert_sql this upsertConflict keys
     (snd (bind_rows JSON_stringify keys insertData)),
   fst (bind_rows JSON_stringify keys insertData)).

(** The builder once [_execUpdate] has pushed the update values. *)
Definition update_bound (this : QueryBuilder) (updateData : jsobj)
  : QueryBuilder :=
  Assign.params
    (fst (bind_updates JSON_stringify updateData (Js.keys updateData)
            (_params this)))
    this.

(** The statement [_execUpdate] compiles. *)
Definition update_statement (this : QueryBuilder) (updateData : jsobj)
  : statement :=
  (update_sql (update_bound this updateData)
     (snd (bind_updates JSON_stringify updateData (Js.keys updateData)
             (_params this))),
   _params (update_bound this updateData)).

End Statements.

(* ================================================================== *)
(** ** Sample collaborators, for concrete runs *)
(* ================================================================== *)

Module Sample.

(** A stand-in for [JSON.stringify]. *)
Definition stringify (v : jsval) : string :=
  match v with
  | JArr _ => "[...]"
  | _ => "{...}"
  end.

(** A stand-in for [parseInt]. *)
Definition parse_int (v : jsval) : jsval :=
  match v with
  | JNum n => JNum n
  | _ => JNaN
  end.

(** A connector that answers every statement with the same rows. *)
Definition answering (rows : list jsobj) : Connector :=
  fun _ _ => Ok rows.

(** A connector on which every statement fails with [e]. *)
Definition failing (e : jsval) : Connector :=
  fun _ _ => Throw e.

(** A connector that answers the first statement it receives with [rows]
    and fails with [e] on every later one. *)
Definition answering_once (rows : list jsobj) (e : jsval) : Connector :=
  fun log _ =>
    match log with
    | [] => Ok rows
    | _ :: _ => Throw e
    end.

End Sample.

(** The envelope of the [catch] block. *)
Definition failure_envelope (err : jsval) : envelope :=
  [("data", JNull); ("error", err); ("count", JNull)].

(** The envelope returned when no operation was chosen. *)
Definition no_operation_envelope : envelope :=
  [("data", JNull); ("error", JError "No operation specified")].

(** The envelope of an insert or upsert of no rows. *)
Definition empty_envelope : envelope :=
  [("data", JNull); ("error", JNull)].

(** The single-row error. *)
Definition row_not_found : jsval := JObj [("message", JStr "Row not found")].

(** Whether executing [this] reaches a call of [pool.query]. *)
Definition issues_statement (this : QueryBuilder) : bool :=
  match _operation this with
  | Some OpSelect => true
  | Some OpInsert =>
      match _insertData this with Some (_ :: _) => true | _ => false end
  | Some OpUpdate =>
      match _updateData this with Some _ => true | None => false end
  | Some OpUpsert =>
      match _insertData this, _upsertConflict this with
      | Some (_ :: _), Some _ => true
      | _, _ => false
      end
  | None => false
  end.

(** The row [rows.map] of [_execSelect] makes of one driver row. *)
Definition reshaped (this : QueryBuilder) (row : jsobj) : jsobj :=
  match _joins this with
  | jn :: _ => reshape_row jn row
  | [] => row
  end.

Module ChainShape.

(** Whether some [limit] call comes after a [single] call of the same
    chain; [seen] tells whether a [single] call came before [calls]. *)
Fixpoint limit_after_single (seen : bool) (calls : list Call) : bool :=
  match calls with
  | [] => false
  | CSingle :: calls' => limit_after_single true calls'
  | CLimit _ :: calls' => seen || limit_after_single seen calls'
  | CFrom _ :: calls' => limit_after_single false calls'
  | _ :: calls' => limit_after_single seen calls'
  end.

Definition is_limit (c : Call) : bool :=
  match c with CLimit _ => true | _ => false end.

Definition is_from (c : Call) : bool :=
  match c with CFrom _ => true | _ => false end.

Definition is_select (c : Call) : bool :=
  match c with CSelect _ _ => true | _ => false end.

(** The operations of the mutation entry points. *)
Definition mutating (op : option Operation) : bool :=
  match op with
  | Some OpInsert | Some OpUpdate | Some OpUpsert => true
  | _ => false
  end.

(** [select()] is called in [calls] while the operation is a mutation, on
    the builder that the chain ends with (no later [from] starts afresh). *)
Definition select_after_mutation (calls : list Call) (this : QueryBuilder)
  : Prop :=
  exists pre columns count post,
    calls = (pre ++ CSelect columns count :: post)%list
    /\ mutating (_operation (Chain.run pre this)) = true
    /\ forallb (fun c => negb (is_from c)) post = true.

(** A filter call that appends a fragment to [this._wheres]: every filter
    call but [not] with an operator it does not implement. *)
Definition appends_where (c : Call) : bool :=
  match c with
  | CEq _ _ | CNeq _ _ | CGt _ _ | CGte _ _ | CLt _ _ | CLte _ _
  | CIs _ _ => true
  | CNot _ operator value =>
      (String.eqb operator "is" && Js.is_null value)
      || String.eqb operator "eq"
  | _ => false
  end.

End ChainShape.

(** The SQL text ends with the given clause. *)
Definition ends_with (clause sql : string) : Prop :=
  exists text, sql = text ++ clause.

(** The number of [$] signs of a text. *)
Definition dollars (s : string) : nat := count_char "$" s.

(** The last character of a string. *)
Fixpoint last_char (s : string) : option ascii :=
  match s with
  | EmptyString => None
  | String c s' =>
      match last_char s' with
      | Some d => Some d
      | None => Some c
      end
  end.

(** A non-empty text whose last character is not [*]: it cannot end with
    [RETURNING *]. *)
Definition unstarred (s : string) : Prop :=
  exists c, last_char s = Some c /\ c <> "*"%char.

Definition unstarred_or_empty (s : string) : Prop :=
  s = EmptyString \/ unstarred s.

Definition is_digit (c : ascii) : bool :=
  let n := nat_of_ascii c in ((48 <=? n) && (n <=? 57))%nat.

(** The [VALUES] tuples of [count] rows of [width] columns, the first
    placeholder being [$(start + 1)]. *)
Fixpoint row_tuples (width start count : nat) : list string :=
  match count with
  | 0 => []
  | S count' =>
      ("(" ++ join ", " (map Spec.placeholder (seq (S start) width)) ++ ")")
      :: row_tuples width (start + width) count'
  end.

(** [`${join.table}_${c}`], the alias of a joined column. *)
Definition join_alias (jn : JoinSpec) (c : string) : string :=
  join_table jn ++ "_" ++ c.

(** The [nested] object [rows.map] builds for one row. *)
Definition nested_object (jn : JoinSpec) (row : jsobj) : jsobj :=
  fold_left (fun nested c => Js.set c (Js.get (join_alias jn c) row) nested)
    (join_columns jn) [].

(** The copy of the row once the aliased columns are deleted from it. *)
Definition without_aliases (jn : JoinSpec) (row : jsobj) : jsobj :=
  fold_left (fun main c => Js.delete (join_alias jn c) main)
    (join_columns jn) row.

(** [`"${join.table}"."${c}" AS "${join.table}_${c}"`] *)
Definition joined_column (target c : string) : string :=
  quote target ++ "." ++ quote c ++ " AS " ++ quote (target ++ "_" ++ c).

(** [`"${k}" = EXCLUDED."${k}"`] *)
Definition excluded_assignment (k : string) : string :=
  quote k ++ " = EXCLUDED." ++ quote k.

(* ================================================================== *)
(** ** Further shapes of chains and builders *)
(* ================================================================== *)

Module Shape.

(** No call of the chain starts a new builder. *)
Definition no_from (calls : list Call) : bool :=
  forallb (fun c => negb (ChainShape.is_from c)) calls.

(** The calls that only shape the rows selected: filters, [order],
    [limit] and [single]. *)
Definition shapes_rows (c : Call) : bool :=
  match c with
  | CEq _ _ | CNeq _ _ | CNot _ _ _ | CIs _ _ | CGt _ _ | CGte _ _
  | CLt _ _ | CLte _ _ | COrder _ _ | CLimit _ | CSingle => true
  | _ => false
  end.

(** A [not] call with an operand the method does not implement. *)
Definition unsupported_not (operator : string) (value : jsval) : bool :=
  negb (String.eqb operator "is" && Js.is_null value)
  && negb (String.eqb operator "eq").


(** The [ORDER BY] term of one [order] call. *)
Definition order_clause (o : string * option bool) : string :=
  QB._pgCol (fst o) ++ " "
  ++ match snd o with Some false => "DESC" | _ => "ASC" end.

Definition order_call (o : string * option bool) : Call :=
  COrder (fst o) (snd o).

Definition no_open_paren (c : ascii) : bool := negb (Ascii.eqb c "("%char).


End Shape.

Module Paging.

(** The calls that only order or cap the rows of a select. *)
Definition orders_or_limits (c : Call) : bool :=
  match c with
  | COrder _ _ | CLimit _ | CSingle => true
  | _ => false
  end.

End Paging.

(* ================================================================== *)
(** ** Properties *)
(* ================================================================== *)

Section Binding.

Variable JSON_stringify : jsval -> string.

Local Abbreviation pgVal := (_pgVal JSON_stringify).

Lemma pgVal_coerced (val : jsval) :
  pgVal val = Spec.coerced JSON_stringify val.
Proof.
  destruct val as [| | b | n | | s | elems | props | msg | name |];
    try reflexivity.
  destruct elems as [|v0 rest]; [reflexivity|].
  unfold _pgVal; cbn [Js.is_null Js.is_undefined orb].
  destruct v0; reflexivity.
Qed.

Lemma bind_row_fold (row : jsobj) (keys : list string) :
  forall values rowPlaceholders,
    fold_left
      (fun '(values, rowPlaceholders) key =>
         let values := Js.push values (pgVal (Js.get key row)) in
         (values,
          Js.push rowPlaceholders ("$" ++ of_nat (List.length values))))
      keys (values, rowPlaceholders)
    = ((values ++ map (fun k => pgVal (Js.get k row)) keys)%list,
       (rowPlaceholders
        ++ map Spec.placeholder
             (seq (S (List.length values)) (List.length keys)))%list).
Proof.
  induction keys as [|k keys IH]; intros values ph; cbn [fold_left].
  - cbn. now rewrite !app_nil_r.
  - rewrite IH. unfold Js.push. rewrite !length_app. cbn [List.length map seq].
    rewrite <- !app_assoc. cbn [app].
    replace (List.length values + 1) with (S (List.length values)) by lia.
    reflexivity.
Qed.

Lemma bind_row_closed (keys : list string) (row : jsobj)
    (values : list jsval) :
  bind_row JSON_stringify keys row values
  = ((values ++ map (fun k => pgVal (Js.get k row)) keys)%list,
     map Spec.placeholder (seq (S (List.length values)) (List.length keys))).
Proof. unfold bind_row. now rewrite bind_row_fold. Qed.

Lemma bind_rows_fold (keys : list string) (insertData : list jsobj) :
  forall values placeholders,
    fst (fold_left
           (fun '(values, placeholders) row =>
              let '(values, rowPlaceholders) :=
                bind_row JSON_stringify keys row values in
              (values,
               Js.push placeholders
                 ("(" ++ join ", " rowPlaceholders ++ ")")))
           insertData (values, placeholders))
    = (values
       ++ flat_map (fun row => map (fun k => pgVal (Js.get k row)) keys)
            insertData)%list.
Proof.
  induction insertData as [|row rows IH]; intros values ph; cbn [fold_left].
  - cbn. now rewrite app_nil_r.
  - rewrite bind_row_closed, IH. cbn [flat_map]. now rewrite app_assoc.
Qed.

Lemma bind_rows_values (keys : list string) (insertData : list jsobj) :
  fst (bind_rows JSON_stringify keys insertData)
  = flat_map (fun row => map (fun k => pgVal (Js.get k row)) keys)
      insertData.
Proof. unfold bind_rows. now rewrite bind_rows_fold. Qed.

Lemma bind_updates_fold (updateData : jsobj) (keys : list string) :
  forall params setClauses,
    fold_left
      (fun '(params, setClauses) key =>
         let val := pgVal (Js.get key updateData) in
         let params := Js.push params val in
         (params,
          Js.push setClauses
            (quote key ++ " = $" ++ of_nat (List.length params))))
      keys (params, setClauses)
    = ((params ++ map (fun k => pgVal (Js.get k updateData)) keys)%list,
       (setClauses
        ++ map Spec.set_clause
             (combine (seq (S (List.length params)) (List.length keys))
                keys))%list).
Proof.
  induction keys as [|k keys IH]; intros params sc; cbn [fold_left].
  - cbn. now rewrite !app_nil_r.
  - rewrite IH. unfold Js.push. rewrite !length_app.
    cbn [List.length map seq combine fst snd].
    rewrite <- !app_assoc. cbn [app].
    replace (List.length params + 1) with (S (List.length params)) by lia.
    reflexivity.
Qed.

Lemma bind_updates_closed (updateData : jsobj) (keys : list string)
    (params : list jsval) :
  bind_updates JSON_stringify updateData keys params
  = ((params ++ map (fun k => pgVal (Js.get k updateData)) keys)%list,
     map Spec.set_clause
       (combine (seq (S (List.length params)) (List.length keys)) keys)).
Proof. unfold bind_updates. now rewrite bind_updates_fold. Qed.

End Binding.

Section ExecutionFacts.

Variable JSON_stringify : jsval -> string.
Variable parseInt : jsval -> jsval.

Local Abbreviation execute := (_execute JSON_stringify parseInt).

Lemma exec_state_eta (st : exec_state) :
  {| self := self st; issued := issued st |} = st.
Proof. now destruct st. Qed.

Lemma execInsert_empty (st : exec_state) :
  _insertData (self st) = Some [] ->
  _execInsert JSON_stringify st
  = (Ok [("data", JNull); ("error", JNull)], st).
Proof.
  intros H. unfold _execInsert, Exec.bind, Exec.this, Exec.ret.
  now rewrite H.
Qed.

Lemma execUpsert_empty (st : exec_state) :
  _insertData (self st) = Some [] ->
  _execUpsert JSON_stringify st
  = (Ok [("data", JNull); ("error", JNull)], st).
Proof.
  intros H. unfold _execUpsert, Exec.bind, Exec.this, Exec.ret.
  now rewrite H.
Qed.

Lemma execInsert_rows (st : exec_state) (row0 : jsobj) (rest : list jsobj) :
  _insertData (self st) = Some (row0 :: rest) ->
  let stmt := insert_statement JSON_stringify (self st) (row0 :: rest) in
  _execInsert JSON_stringify st
  = (match _pool (self st) (issued st) stmt with
     | Ok rows =>
         Ok [("data",
              if _returnData (self st) then rows_data (self st) rows
              else JNull);
             ("error", JNull)]
     | Throw e => Throw e
     end,
     after_query st stmt).
Proof.
  intros H stmt. subst stmt.
  unfold _execInsert, insert_statement, Exec.bind, Exec.this.
  rewrite H.
  destruct (bind_rows JSON_stringify (Js.keys row0) (row0 :: rest))
    as [values placeholders].
  unfold Exec.query, after_query, Exec.ret; cbn [fst snd self issued].
  now destruct (_pool (self st) (issued st) _).
Qed.

Lemma execUpsert_rows (st : exec_state) (row0 : jsobj) (rest : list jsobj)
    (upsertConflict : string) :
  _insertData (self st) = Some (row0 :: rest) ->
  _upsertConflict (self st) = Some upsertConflict ->
  let stmt :=
    upsert_statement JSON_stringify (self st) upsertConflict (row0 :: rest) in
  _execUpsert JSON_stringify st
  = (match _pool (self st) (issued st) stmt with
     | Ok rows => Ok [("data", rows_data (self st) rows); ("error", JNull)]
     | Throw e => Throw e
     end,
     after_query st stmt).
Proof.
  intros H Hc stmt. subst stmt.
  unfold _execUpsert, upsert_statement, Exec.bind, Exec.this.
  rewrite H, Hc.
  destruct (bind_rows JSON_stringify (Js.keys row0) (row0 :: rest))
    as [values placeholders].
  unfold Exec.query, after_query, Exec.ret; cbn [fst snd self issued].
  now destruct (_pool (self st) (issued st) _).
Qed.

Lemma execUpdate_data (st : exec_state) (updateData : jsobj) :
  _updateData (self st) = Some updateData ->
  let this' := update_bound JSON_stringify (self st) updateData in
  let stmt := update_statement JSON_stringify (self st) updateData in
  _execUpdate JSON_stringify st
  = (match _pool (self st) (issued st) stmt with
     | Ok rows =>
         Ok [("data",
              if _returnData (self st) then rows_data (self st) rows
              else JNull);
             ("error", JNull)]
     | Throw e => Throw e
     end,
     {| self := this'; issued := issued st ++ [stmt] |}).
Proof.
  intros H this' stmt. subst this' stmt.
  unfold _execUpdate, update_statement, update_bound, Exec.bind, Exec.this.
  rewrite H.
  destruct (bind_updates JSON_stringify updateData (Js.keys updateData)
              (_params (self st))) as [params setClauses].
  unfold Exec.modify, Exec.query, Exec.ret; cbn [fst snd self issued].
  cbn [Assign.params _pool _returnData _params].
  now destruct (_pool (self st) (issued st) _).
Qed.


Lemma execSelect_run (st : exec_state) :
  let this := self st in
  let sel := select_statement this in
  let cnt := count_statement this in
  _execSelect parseInt st
  = match _pool this (issued st) sel with
    | Throw e => (Throw e, after_query st sel)
    | Ok result_rows =>
        let rows := reshape_rows this result_rows in
        let data := rows_data this rows in
        let error :=
          if _singleResult this && negb (Js.truthy (Js.first rows))
          then row_not_found else JNull in
        if _countExact this then
          match _pool this (issued st ++ [sel])%list cnt with
          | Throw e => (Throw e, after_query (after_query st sel) cnt)
          | Ok [] => (Throw TypeError, after_query (after_query st sel) cnt)
          | Ok (r :: _) =>
              (Ok [("data", data); ("error", Js.or error JNull);
                   ("count", parseInt (Js.get "count" r))],
               after_query (after_query st sel) cnt)
          end
        else
          (Ok [("data", data); ("error", Js.or error JNull);
               ("count", JNull)],
           after_query st sel)
    end.
Proof.
  cbv zeta.
  unfold _execSelect, Exec.bind, Exec.this, Exec.query, select_statement,
    count_statement, after_query, rows_data, row_not_found.
  cbn [self issued].
  destruct (_pool (self st) (issued st) _) as [result_rows|e]; [|reflexivity].
  destruct (_countExact (self st)); [|reflexivity].
  cbn [self issued].
  destruct (_pool (self st) _ _) as [[|r rest]|e]; reflexivity.
Qed.

(** [_execute] never rejects: what the [try] block throws, the [catch]
    block turns into an envelope. *)
Lemma execute_dispatch (st : exec_state) :
  execute st
  = match dispatch JSON_stringify parseInt st with
    | (Ok env, st') => (Resolved env, st')
    | (Throw e, st') => (Resolved (failure_envelope e), st')
    end.
Proof.
  unfold _execute, async, Exec.try_catch, handler, Exec.ret, failure_envelope.
  now destruct (dispatch JSON_stringify parseInt st) as [[env|e] st'].
Qed.

Lemma dispatch_operation (st : exec_state) :
  dispatch JSON_stringify parseInt st
  = match _operation (self st) with
    | Some OpSelect => _execSelect parseInt st
    | Some OpInsert => _execInsert JSON_stringify st
    | Some OpUpdate => _execUpdate JSON_stringify st
    | Some OpUpsert => _execUpsert JSON_stringify st
    | None => (Ok no_operation_envelope, st)
    end.
Proof.
  unfold dispatch, Exec.bind, Exec.this.
  now destruct (_operation (self st)) as [[]|].
Qed.

Lemma execute_resolves (st : exec_state) :
  exists env st', execute st = (Resolved env, st').
Proof.
  rewrite execute_dispatch.
  destruct (dispatch JSON_stringify parseInt st) as [[env|e] st']; eauto.
Qed.

Lemma await_execute (st : exec_state) (env : envelope) (st' : exec_state) :
  execute st = (Resolved env, st') ->
  await JSON_stringify parseInt st = (Resolved env, st').
Proof. unfold await, then_. now intros ->. Qed.

Lemma catch_execute (fn : option (jsval -> outcome envelope))
    (st : exec_state) (env : envelope) (st' : exec_state) :
  execute st = (Resolved env, st') ->
  catch_ JSON_stringify parseInt fn st = (Resolved env, st').
Proof. unfold catch_. now intros ->. Qed.

(** With a connector that fails on every statement, an execution that
    reaches the connector throws what the connector threw. *)
Lemma dispatch_failing (st : exec_state) (e : jsval) :
  (forall log stmt, _pool (self st) log stmt = Throw e) ->
  issues_statement (self st) = true ->
  fst (dispatch JSON_stringify parseInt st) = Throw e.
Proof.
  intros Hfail Hiss. rewrite dispatch_operation.
  unfold issues_statement in Hiss.
  destruct (_operation (self st)) as [[]|]; try discriminate.
  - pose proof (execSelect_run st) as E. cbv zeta in E. rewrite E.
    now rewrite Hfail.
  - destruct (_insertData (self st)) as [[|row0 rest]|] eqn:Hd;
      try discriminate.
    rewrite (execInsert_rows st row0 rest Hd). now rewrite Hfail.
  - destruct (_updateData (self st)) as [updateData|] eqn:Hd;
      try discriminate.
    rewrite (execUpdate_data st updateData Hd). now rewrite Hfail.
  - destruct (_insertData (self st)) as [[|row0 rest]|] eqn:Hd;
      try discriminate.
    destruct (_upsertConflict (self st)) as [c|] eqn:Hc; try discriminate.
    rewrite (execUpsert_rows st row0 rest c Hd Hc). now rewrite Hfail.
Qed.

End ExecutionFacts.

Section Envelopes.

Variable JSON_stringify : jsval -> string.
Variable parseInt : jsval -> jsval.

Local Abbreviation execute := (_execute JSON_stringify parseInt).
Local Abbreviation await' := (await JSON_stringify parseInt).
Local Abbreviation catch' := (catch_ JSON_stringify parseInt).

(** C1, amended.  Once a chain executes, the promise of [_execute]
    resolves, and so do the promises [await] and [catch] give; the one
    [then] gives is settled by the caller's own [resolve] callback, the
    [reject] callback never runs.  Whatever the
    statement execution throws becomes the envelope
    [{data: null, error: <the thrown value>, count: null}], in particular
    with a connector that fails on every statement.  With no operation
    chosen the envelope is [{data: null, error: Error}] and has no [count]
    field: [count] reads [undefined]. *)
Theorem execution_never_rejects (st : exec_state) :
  exists env st',
    execute st = (Resolved env, st')
    /\ await' st = (Resolved env, st')
    /\ (forall fn, catch' fn st = (Resolved env, st'))
    /\ (forall resolve reject,
          then_ JSON_stringify parseInt (Some resolve) reject st
          = (match resolve env with
             | Ok v => Resolved v
             | Throw e => Rejected e
             end, st'))
    /\ (forall e,
          fst (dispatch JSON_stringify parseInt st) = Throw e ->
          env_data env = JNull /\ env_error env = e /\ env_count env = JNull)
    /\ (forall e,
          (forall log stmt, _pool (self st) log stmt = Throw e) ->
          issues_statement (self st) = true ->
          env = failure_envelope e)
    /\ (_operation (self st) = None ->
          env_data env = JNull
          /\ env_error env = JError "No operation specified"
          /\ env_count env = JUndefined).
Proof.
  destruct (execute_resolves JSON_stringify parseInt st) as (env & st' & E).
  exists env, st'. split; [exact E|].
  split; [now apply await_execute|].
  split; [intros fn; now apply catch_execute|].
  split; [intros resolve reject; unfold then_; now rewrite E|].
  rewrite execute_dispatch in E.
  assert (Hthrow : forall e,
             fst (dispatch JSON_stringify parseInt st) = Throw e ->
             env = failure_envelope e).
  { intros e He.
    destruct (dispatch JSON_stringify parseInt st) as [[env0|e0] st0];
      cbn in He; [discriminate|].
    injection He as ->. now injection E as <- _. }
  split; [|split].
  - intros e He. now rewrite (Hthrow e He).
  - intros e Hfail Hiss. apply Hthrow. now apply dispatch_failing.
  - intros Hop. rewrite dispatch_operation, Hop in E.
    now injection E as <- _.
Qed.

(** C10.  An insert or upsert of an empty row sequence resolves to
    [{data: null, error: null}] and hands no statement to the connector:
    the execution state, and with it the list of issued statements, is
    left as it was. *)
Theorem empty_rows_issue_nothing (st : exec_state) :
  _operation (self st) = Some OpInsert
  \/ _operation (self st) = Some OpUpsert ->
  _insertData (self st) = Some [] ->
  execute st = (Resolved empty_envelope, st)
  /\ await' st = (Resolved empty_envelope, st)
  /\ issued (snd (execute st)) = issued st
  /\ env_data empty_envelope = JNull
  /\ env_error empty_envelope = JNull.
Proof.
  intros Hop Hd.
  assert (E : execute st = (Resolved empty_envelope, st)).
  { rewrite execute_dispatch, dispatch_operation.
    destruct Hop as [-> | ->].
    - now rewrite execInsert_empty.
    - now rewrite execUpsert_empty. }
  split; [exact E|]. split; [now apply await_execute|].
  rewrite E. repeat split.
Qed.

End Envelopes.

Lemma execution_never_rejects_witness :
  exists env st',
    _execute Sample.stringify Sample.parse_int
      (Chain.start
         (Chain.run [CFrom "users"; CSelect None None; CEq "id" (JNum 1)]
            (Chain.db (Sample.failing (JError "connection refused")))))
    = (Resolved env, st')
    /\ env = failure_envelope (JError "connection refused").
Proof.
  destruct
    (execution_never_rejects Sample.stringify Sample.parse_int
       (Chain.start
          (Chain.run [CFrom "users"; CSelect None None; CEq "id" (JNum 1)]
             (Chain.db (Sample.failing (JError "connection refused"))))))
    as (env & st' & E & _ & _ & _ & _ & Hfail & _).
  exists env, st'. split; [exact E|].
  apply Hfail; reflexivity.
Defined.

Lemma empty_rows_issue_nothing_witness :
  let st :=
    Chain.start
      (Chain.run [CFrom "users"; CUpsert (ManyRows []) (Some "id"); CSingle]
         (Chain.db (Sample.failing (JError "unreachable")))) in
  (_operation (self st) = Some OpInsert
   \/ _operation (self st) = Some OpUpsert)
  /\ _insertData (self st) = Some []
  /\ _execute Sample.stringify Sample.parse_int st
     = (Resolved empty_envelope, st)
  /\ issued (snd (_execute Sample.stringify Sample.parse_int st)) = [].
Proof.
  cbv zeta. split; [right; reflexivity|]. split; [reflexivity|].
  pose proof
    (empty_rows_issue_nothing Sample.stringify Sample.parse_int
       (Chain.start
          (Chain.run
             [CFrom "users"; CUpsert (ManyRows []) (Some "id"); CSingle]
             (Chain.db (Sample.failing (JError "unreachable")))))
       (or_intror eq_refl) eq_refl) as (E & _ & I & _).
  split; [exact E | exact I].
Defined.

(** C1 as stated fails on the no-operation path: awaiting a chain on which
    no operation was chosen resolves to an envelope whose [count] is not
    [null] (the field is absent). *)
Lemma no_operation_count_not_null :
  ~ (forall env,
       fst (await Sample.stringify Sample.parse_int
              (Chain.start
                 (Chain.run [CFrom "users"]
                    (Chain.db (Sample.answering [])))))
       = Resolved env ->
       env_data env = JNull /\ env_error env <> JNull
       /\ env_count env = JNull).
Proof.
  intros H.
  destruct (H no_operation_envelope eq_refl) as (_ & _ & Hcount).
  discriminate Hcount.
Qed.

(* ------------------------------------------------------------------ *)
(** *** Single-row mode and the limit *)

Ltac unfold_call :=
  unfold Chain.call, QB.from, QB.select, QB.eq, QB.neq, QB.not, QB.is_,
    QB.gt, QB.gte, QB.lt, QB.lte, QB.order, QB.limit, QB.single, QB.insert,
    QB.update, QB.upsert, QB.push_param, QB.push_where, QB.constructor.

Lemma call_keeps_single_limit (c : Call) (b : QueryBuilder) :
  ChainShape.is_limit c = false ->
  Spec.single_forces_limit b ->
  Spec.single_forces_limit (Chain.call b c).
Proof.
  unfold Spec.single_forces_limit. intros Hc Hb.
  destruct c; try discriminate Hc; unfold_call; cbn; auto; try discriminate.
  - destruct (_operation b) as [[]|]; cbn; auto;
      destruct (JoinPattern.exec _); cbn; auto.
  - destruct (String.eqb operator "is" && Js.is_null value); cbn; auto.
    destruct (String.eqb operator "eq"); cbn; auto.
  - destruct (Js.is_null value); cbn; auto.
Qed.

Lemma run_keeps_single_limit (calls : list Call) :
  forall b,
    Spec.single_forces_limit b ->
    ChainShape.limit_after_single (_singleResult b) calls = false ->
    Spec.single_forces_limit (Chain.run calls b).
Proof.
  induction calls as [|c calls IH]; intros b Hb Hno; [exact Hb|].
  unfold Chain.run in *. cbn [fold_left].
  destruct (ChainShape.is_limit c) eqn:Hl.
  - destruct c; try discriminate Hl. cbn [ChainShape.limit_after_single] in Hno.
    apply Bool.orb_false_iff in Hno as [Hs Hno].
    apply IH.
    + unfold Spec.single_forces_limit. cbn. rewrite Hs. discriminate.
    + cbn. exact Hno.
  - apply IH; [now apply call_keeps_single_limit|].
    destruct c; try discriminate Hl; cbn [ChainShape.limit_after_single] in Hno;
      try exact Hno; unfold_call; cbn; try exact Hno.
    + destruct (_operation b) as [[]|]; cbn; try exact Hno;
        destruct (JoinPattern.exec _); cbn; exact Hno.
    + destruct (String.eqb operator "is" && Js.is_null value); cbn;
        try exact Hno.
      destruct (String.eqb operator "eq"); cbn; exact Hno.
    + destruct (Js.is_null value); cbn; exact Hno.
Qed.

(** C9, amended.  [single()] establishes "single-row flag set implies limit
    = 1", and every builder method except [limit] preserves it; so at the
    end of every chain in which no [limit] call follows a [single] call the
    invariant holds, and the SELECT text then ends in [LIMIT 1]. *)
Theorem single_forces_limit_unless_limit_follows :
  (forall b, Spec.single_forces_limit (QB.single b)
             /\ _singleResult (QB.single b) = true)
  /\ (forall c b,
        ChainShape.is_limit c = false ->
        Spec.single_forces_limit b ->
        Spec.single_forces_limit (Chain.call b c))
  /\ (forall calls pool,
        ChainShape.limit_after_single false calls = false ->
        Spec.single_forces_limit (Chain.run calls (Chain.db pool)))
  /\ (forall b,
        _singleResult b = true ->
        Spec.single_forces_limit b ->
        exists text, select_sql b = text ++ " LIMIT 1").
Proof.
  split; [|split; [|split]].
  - intros b. split; [intros _|]; reflexivity.
  - exact call_keeps_single_limit.
  - intros calls pool Hno. apply run_keeps_single_limit; [|exact Hno].
    intros H. discriminate H.
  - intros b Hs Hinv. unfold select_sql. rewrite (Hinv Hs).
    eexists. reflexivity.
Qed.

Lemma single_forces_limit_unless_limit_follows_witness :
  Spec.single_forces_limit
    (Chain.run
       [CFrom "users"; CSelect None None; CLimit (Some 5%Z);
        CEq "id" (JNum 1); CSingle; COrder "name" None]
       (Chain.db (Sample.answering []))).
Proof.
  apply single_forces_limit_unless_limit_follows. reflexivity.
Defined.

(** C9 as stated fails: [limit(5)] after [single()] leaves the single-row
    flag set with a limit of 5. *)
Lemma limit_after_single_breaks_invariant :
  ~ Spec.single_forces_limit
      (Chain.run
         [CFrom "users"; CSelect None None; CSingle; CLimit (Some 5%Z)]
         (Chain.db (Sample.answering []))).
Proof.
  intros H. specialize (H eq_refl). discriminate H.
Qed.

(* ------------------------------------------------------------------ *)
(** *** The single-row contract *)

Lemma select_sql_limit_one (b : QueryBuilder) :
  _limitVal b = Some 1%Z ->
  select_sql b = select_sql (Assign.limitVal None b) ++ " LIMIT 1".
Proof.
  intros H. unfold select_sql. rewrite H. reflexivity.
Qed.

Section SingleRow.

Variable JSON_stringify : jsval -> string.
Variable parseInt : jsval -> jsval.

Local Abbreviation execute := (_execute JSON_stringify parseInt).
Local Abbreviation await' := (await JSON_stringify parseInt).

(** C3, amended.  [single()] sets the single-row flag and the limit 1, so
    at the end of a chain in which no [limit] call follows it the SELECT
    text is the text without a limit followed by [LIMIT 1].  A select in
    single-row mode sends its SELECT first, ending in [LIMIT 1] when the
    limit is 1.  When it yields rows and no
    exact count was asked for, or the count statement answers with a row:
    with no row the envelope carries [data: null] and
    [error: {message: "Row not found"}]; with exactly one row [data] is
    that row (reshaped when the select has a join) and [error] is [null];
    with several rows [data] is the first of them and [error] is [null].
    When an exact count was asked for and the count statement fails or
    answers with no row, the envelope is the failure envelope instead,
    whatever rows the SELECT yielded. *)
Theorem single_row_contract_unless_count_fails :
  (forall b,
     _singleResult (QB.single b) = true
     /\ _limitVal (QB.single b) = Some 1%Z)
  /\ (forall calls pool,
        let b := Chain.run calls (Chain.db pool) in
        _singleResult b = true ->
        ChainShape.limit_after_single false calls = false ->
        _limitVal b = Some 1%Z
        /\ select_sql b = select_sql (Assign.limitVal None b) ++ " LIMIT 1")
  /\ (forall st result_rows,
        _operation (self st) = Some OpSelect ->
        _singleResult (self st) = true ->
        _pool (self st) (issued st) (select_sql (self st), _params (self st))
        = Ok result_rows ->
        let counting :=
          _pool (self st)
            (issued st ++ [(select_sql (self st), _params (self st))])%list
            (count_statement (self st)) in
        exists env st',
          execute st = (Resolved env, st')
          /\ await' st = (Resolved env, st')
          /\ (exists more,
                issued st'
                = (issued st
                   ++ (select_sql (self st), _params (self st)) :: more)%list)
          /\ (_limitVal (self st) = Some 1%Z ->
              select_sql (self st)
              = select_sql (Assign.limitVal None (self st)) ++ " LIMIT 1")
          /\ (_countExact (self st) = false
              \/ (exists c rest, counting = Ok (c :: rest)) ->
              (result_rows = [] ->
               env_data env = JNull /\ env_error env = row_not_found)
              /\ (forall row, result_rows = [row] ->
                  env_data env = JObj (reshaped (self st) row)
                  /\ env_error env = JNull)
              /\ (forall row rest, result_rows = row :: rest ->
                  env_data env = JObj (reshaped (self st) row)
                  /\ env_error env = JNull)
              /\ (forall row, _joins (self st) = [] ->
                  reshaped (self st) row = row))
          /\ (_countExact (self st) = true ->
              (forall e, counting = Throw e -> env = failure_envelope e)
              /\ (counting = Ok [] -> env = failure_envelope TypeError))).
Proof.
  split; [|split].
  - intros b. split; reflexivity.
  - intros calls pool b Hs Hno.
    assert (Hl : _limitVal b = Some 1%Z).
    { apply (run_keeps_single_limit calls (Chain.db pool)); auto.
      intros H. discriminate H. }
    split; [exact Hl | now apply select_sql_limit_one].
  - intros st result_rows Hop Hsingle Hrows counting. subst counting.
    change (select_sql (self st), _params (self st))
      with (select_statement (self st)) in *.
    assert (Hshape : forall row rest,
               reshape_rows (self st) (row :: rest)
               = reshaped (self st) row :: reshape_rows (self st) rest).
    { intros row rest. unfold reshape_rows, reshaped.
      now destruct (_joins (self st)). }
    assert (Hnil : reshape_rows (self st) [] = []).
    { unfold reshape_rows. now destruct (_joins (self st)). }
    assert (Hplain : forall row, _joins (self st) = [] ->
                                 reshaped (self st) row = row).
    { intros row Hj. unfold reshaped. now rewrite Hj. }
    pose proof (execute_dispatch JSON_stringify parseInt st) as E.
    rewrite dispatch_operation, Hop in E.
    pose proof (execSelect_run parseInt st) as S. cbv zeta in S.
    rewrite Hrows, Hsingle in S. unfold rows_data in S. rewrite Hsingle in S.
    rewrite S in E. clear S. unfold statement in *.
    destruct (_countExact (self st)) eqn:Hc.
    + destruct (_pool (self st) _ (count_statement (self st)))
        as [[|c rest]|e] eqn:Hq.
      * eexists _, _. split; [exact E|]. split; [now apply await_execute|].
        split.
        { exists [count_statement (self st)]. unfold after_query.
          cbn [issued self]. now rewrite <- List.app_assoc. }
        split; [apply select_sql_limit_one|].
        split.
        { intros [H|(c & rest & H)]; discriminate H. }
        intros _. split; [intros e H; discriminate H | reflexivity].
      * eexists _, _. split; [exact E|]. split; [now apply await_execute|].
        split.
        { exists [count_statement (self st)]. unfold after_query.
          cbn [issued self]. now rewrite <- List.app_assoc. }
        split; [apply select_sql_limit_one|].
        split.
        { intros _. split; [|split; [|split]].
          - intros ->. rewrite Hnil. now cbn.
          - intros row ->. rewrite Hshape. now cbn.
          - intros row rest' ->. rewrite Hshape. now cbn.
          - exact Hplain. }
        intros _. split; [intros e H; discriminate H | intros H; discriminate H].
      * eexists _, _. split; [exact E|]. split; [now apply await_execute|].
        split.
        { exists [count_statement (self st)]. unfold after_query.
          cbn [issued self]. now rewrite <- List.app_assoc. }
        split; [apply select_sql_limit_one|].
        split.
        { intros [H|(c & rest & H)]; discriminate H. }
        intros _. split; [|intros H; discriminate H].
        intros e' H. now injection H as ->.
    + eexists _, _. split; [exact E|]. split; [now apply await_execute|].
      split; [exists []; reflexivity|].
      split; [apply select_sql_limit_one|].
      split.
      { intros _. split; [|split; [|split]].
        - intros ->. rewrite Hnil. now cbn.
        - intros row ->. rewrite Hshape. now cbn.
        - intros row rest' ->. rewrite Hshape. now cbn.
        - exact Hplain. }
      intros H. discriminate H.
Qed.

End SingleRow.

Lemma single_row_contract_unless_count_fails_witness :
  let row1 := [("id", JNum 7); ("name", JStr "Ada")] in
  let row2 := [("id", JNum 8); ("name", JStr "Bob")] in
  let st :=
    Chain.start
      (Chain.run
         [CFrom "users"; CSelect (Some "*") (Some "exact");
          CEq "active" (JBool true); CSingle]
         (Chain.db (Sample.answering [row1; row2]))) in
  exists env st',
    _execute Sample.stringify Sample.parse_int st = (Resolved env, st')
    /\ env_data env = JObj row1
    /\ env_error env = JNull.
Proof.
  cbv zeta.
  destruct
    (proj2 (proj2
       (single_row_contract_unless_count_fails Sample.stringify
          Sample.parse_int))
       (Chain.start
          (Chain.run
             [CFrom "users"; CSelect (Some "*") (Some "exact");
              CEq "active" (JBool true); CSingle]
             (Chain.db
                (Sample.answering
                   [[("id", JNum 7); ("name", JStr "Ada")];
                    [("id", JNum 8); ("name", JStr "Bob")]]))))
       [[("id", JNum 7); ("name", JStr "Ada")];
        [("id", JNum 8); ("name", JStr "Bob")]]
       eq_refl eq_refl eq_refl)
    as (env & st' & E & _ & _ & _ & Hrows & _).
  exists env, st'. split; [exact E|].
  destruct (Hrows
              (or_intror
                 (ex_intro _ [("id", JNum 7); ("name", JStr "Ada")]
                    (ex_intro _ [[("id", JNum 8); ("name", JStr "Bob")]]
                       eq_refl))))
    as (_ & _ & Hmany & _).
  exact (Hmany _ _ eq_refl).
Defined.

(** C3 as stated fails when an exact count was asked for and the count
    statement fails: the SELECT of the single-row chain yields exactly one
    row, yet the chain does not resolve to that row with [error: null]. *)
Lemma failed_count_hides_the_single_row :
  ~ (forall rows env,
       Sample.answering_once [[("id", JNum 7)]] (JError "timeout") []
         (select_statement
            (Chain.run
               [CFrom "users"; CSelect (Some "*") (Some "exact");
                CEq "id" (JNum 7); CSingle]
               (Chain.db
                  (Sample.answering_once [[("id", JNum 7)]]
                     (JError "timeout")))))
       = Ok rows ->
       fst (await Sample.stringify Sample.parse_int
              (Chain.start
                 (Chain.run
                    [CFrom "users"; CSelect (Some "*") (Some "exact");
                     CEq "id" (JNum 7); CSingle]
                    (Chain.db
                       (Sample.answering_once [[("id", JNum 7)]]
                          (JError "timeout"))))))
       = Resolved env ->
       forall row, rows = [row] ->
       env_data env = JObj row /\ env_error env = JNull).
Proof.
  intros H.
  destruct (H [[("id", JNum 7)]] (failure_envelope (JError "timeout"))
              eq_refl eq_refl [("id", JNum 7)] eq_refl) as [Hd _].
  discriminate Hd.
Qed.

(* ------------------------------------------------------------------ *)
(** *** Facts about strings *)

Module StringFacts.

Lemma app_assoc (a b c : string) : (a ++ b) ++ c = a ++ (b ++ c).
Proof. induction a as [|x a IH]; cbn; [reflexivity | now rewrite IH]. Qed.

Lemma app_nil_r (a : string) : a ++ "" = a.
Proof. induction a as [|x a IH]; cbn; [reflexivity | now rewrite IH]. Qed.

Lemma length_app (a b : string) :
  String.length (a ++ b) = String.length a + String.length b.
Proof. induction a as [|x a IH]; cbn; [reflexivity | now rewrite IH]. Qed.

Lemma app_inj (a a' b b' : string) :
  a ++ b = a' ++ b' ->
  String.length a = String.length a' ->
  a = a' /\ b = b'.
Proof.
  revert a'. induction a as [|x a IH]; intros [|x' a'] E L;
    try discriminate L.
  - now split.
  - cbn in E, L. injection E as -> E. injection L as L.
    destruct (IH a' E L) as [-> ->]. now split.
Qed.

Lemma count_char_app (c : ascii) (a b : string) :
  count_char c (a ++ b) = count_char c a + count_char c b.
Proof.
  induction a as [|x a IH]; cbn; [reflexivity|]. rewrite IH. lia.
Qed.

Lemma quote_length (k : string) : String.length (quote k) = S (S (String.length k)).
Proof. unfold quote. rewrite !length_app. cbn. lia. Qed.

Lemma quote_inj (k k' : string) : quote k = quote k' -> k = k'.
Proof.
  intros E. assert (L : String.length (quote k) = String.length (quote k'))
    by now rewrite E.
  rewrite !quote_length in L. unfold quote in E. cbn in E.
  injection E as E. apply app_inj in E; [tauto | lia].
Qed.

End StringFacts.

(* ------------------------------------------------------------------ *)
(** *** Upsert: the conflict targets are excluded *)

Lemma excluded_assignment_inj (k k' : string) :
  excluded_assignment k = excluded_assignment k' -> k = k'.
Proof.
  intros E.
  assert (L : String.length (excluded_assignment k)
              = String.length (excluded_assignment k')) by now rewrite E.
  unfold excluded_assignment in *.
  rewrite !StringFacts.length_app, !StringFacts.quote_length in L.
  apply StringFacts.app_inj in E.
  - apply StringFacts.quote_inj. tauto.
  - rewrite !StringFacts.quote_length. lia.
Qed.

Lemma includes_In (l : list string) (k : string) :
  includes l k = true <-> In k l.
Proof.
  unfold includes. rewrite existsb_exists. split.
  - intros (x & Hx & E). apply String.eqb_eq in E. now subst.
  - intros H. exists k. split; [exact H | apply String.eqb_refl].
Qed.

Lemma update_clauses_In (upsertConflict : string) (keys : list string)
    (k : string) :
  In (excluded_assignment k) (update_clauses upsertConflict keys)
  <-> In k keys /\ ~ In k (conflict_targets upsertConflict).
Proof.
  unfold update_clauses.
  change (fun k0 => quote k0 ++ " = EXCLUDED." ++ quote k0)
    with excluded_assignment.
  rewrite in_map_iff. split.
  - intros (k' & E & Hin). apply excluded_assignment_inj in E. subst k'.
    apply filter_In in Hin as [Hin Hf]. split; [exact Hin|].
    intros Hc. apply includes_In in Hc. rewrite Hc in Hf. discriminate Hf.
  - intros [Hin Hn]. exists k. split; [reflexivity|].
    apply filter_In. split; [exact Hin|].
    destruct (includes (conflict_targets upsertConflict) k) eqn:E;
      [|reflexivity].
    apply includes_In in E. contradiction.
Qed.

Section Issued.

Variable JSON_stringify : jsval -> string.
Variable parseInt : jsval -> jsval.

Local Abbreviation execute := (_execute JSON_stringify parseInt).

Lemma execute_insert_issues (st : exec_state) (row0 : jsobj)
    (rest : list jsobj) :
  _operation (self st) = Some OpInsert ->
  _insertData (self st) = Some (row0 :: rest) ->
  issued (snd (execute st))
  = (issued st
     ++ [insert_statement JSON_stringify (self st) (row0 :: rest)])%list.
Proof.
  intros Hop Hd. rewrite execute_dispatch, dispatch_operation, Hop.
  rewrite (execInsert_rows JSON_stringify st row0 rest Hd).
  now destruct (_pool (self st) (issued st) _).
Qed.

Lemma execute_upsert_issues (st : exec_state) (row0 : jsobj)
    (rest : list jsobj) (upsertConflict : string) :
  _operation (self st) = Some OpUpsert ->
  _insertData (self st) = Some (row0 :: rest) ->
  _upsertConflict (self st) = Some upsertConflict ->
  issued (snd (execute st))
  = (issued st
     ++ [upsert_statement JSON_stringify (self st) upsertConflict
           (row0 :: rest)])%list.
Proof.
  intros Hop Hd Hc. rewrite execute_dispatch, dispatch_operation, Hop.
  rewrite (execUpsert_rows JSON_stringify st row0 rest upsertConflict Hd Hc).
  now destruct (_pool (self st) (issued st) _).
Qed.

Lemma execute_update_issues (st : exec_state) (updateData : jsobj) :
  _operation (self st) = Some OpUpdate ->
  _updateData (self st) = Some updateData ->
  issued (snd (execute st))
  = (issued st
     ++ [update_statement JSON_stringify (self st) updateData])%list.
Proof.
  intros Hop Hd. rewrite execute_dispatch, dispatch_operation, Hop.
  rewrite (execUpdate_data JSON_stringify st updateData Hd).
  now destruct (_pool (self st) (issued st) _).
Qed.

Lemma execute_select_issues (st : exec_state) :
  _operation (self st) = Some OpSelect ->
  exists more,
    issued (snd (execute st))
    = (issued st ++ select_statement (self st) :: more)%list.
Proof.
  intros Hop. rewrite execute_dispatch, dispatch_operation, Hop.
  pose proof (execSelect_run parseInt st) as S. cbv zeta in S. rewrite S.
  unfold after_query.
  destruct (_pool (self st) (issued st) _) as [rows|e];
    [|exists []; reflexivity].
  destruct (_countExact (self st)); [|exists []; reflexivity].
  exists [count_statement (self st)].
  destruct (_pool (self st) _ _) as [[|r l]|e]; cbn [snd issued];
    now rewrite <- List.app_assoc.
Qed.

(** C4.  The statement an upsert hands to the connector has a
    [DO UPDATE SET] clause made of the assignments ["k" = EXCLUDED."k"] for
    the keys [k] of the first row that are not conflict targets, in key
    order: an assignment is in the clause exactly when its column is a key
    and not a conflict target, and no conflict target is assigned. *)
Theorem upsert_excludes_conflict_targets (st : exec_state)
    (upsertConflict : string) (row0 : jsobj) (rest : list jsobj) :
  _operation (self st) = Some OpUpsert ->
  _insertData (self st) = Some (row0 :: rest) ->
  _upsertConflict (self st) = Some upsertConflict ->
  let keys := Js.keys row0 in
  let targets := conflict_targets upsertConflict in
  let assigned := filter (fun k => negb (includes targets k)) keys in
  let sql :=
    "INSERT INTO " ++ quote (table_text (self st))
    ++ " (" ++ join ", " (map quote keys) ++ ") VALUES "
    ++ join ", " (snd (bind_rows JSON_stringify keys (row0 :: rest)))
    ++ " ON CONFLICT (" ++ join ", " (map quote targets)
    ++ ") DO UPDATE SET " ++ join ", " (map excluded_assignment assigned)
    ++ " RETURNING *" in
  let params := fst (bind_rows JSON_stringify keys (row0 :: rest)) in
  issued (snd (execute st)) = (issued st ++ [(sql, params)])%list
  /\ (forall k, In k assigned <-> In k keys /\ ~ In k targets)
  /\ (forall k,
        In (excluded_assignment k) (map excluded_assignment assigned)
        <-> In k keys /\ ~ In k targets)
  /\ (forall k,
        In k targets ->
        ~ In (excluded_assignment k) (map excluded_assignment assigned)).
Proof.
  intros Hop Hd Hc. cbv zeta.
  pose proof (update_clauses_In upsertConflict (Js.keys row0)) as Hin.
  unfold update_clauses in Hin.
  change (fun k0 => quote k0 ++ " = EXCLUDED." ++ quote k0)
    with excluded_assignment in Hin.
  split; [|split; [|split]].
  - rewrite (execute_upsert_issues st row0 rest upsertConflict Hop Hd Hc).
    unfold upsert_statement, upsert_sql, update_clauses, conflict_targets.
    rewrite map_map. reflexivity.
  - intros k. rewrite <- Hin. rewrite in_map_iff. split.
    + intros H. now exists k.
    + intros (k' & E & H). apply excluded_assignment_inj in E. now subst.
  - exact Hin.
  - intros k Hk H. apply Hin in H. tauto.
Qed.

End Issued.

Lemma upsert_excludes_conflict_targets_witness :
  let st :=
    Chain.start
      (Chain.run
         [CFrom "users";
          CUpsert (OneRow [("id", JNum 1); ("org", JNum 2);
                           ("name", JStr "Jane")])
            (Some "id, org")]
         (Chain.db (Sample.answering []))) in
  issued (snd (_execute Sample.stringify Sample.parse_int st))
  = [("INSERT INTO " ++ quote "users" ++ " (" ++ quote "id" ++ ", "
      ++ quote "org" ++ ", " ++ quote "name"
      ++ ") VALUES ($1, $2, $3) ON CONFLICT (" ++ quote "id" ++ ", "
      ++ quote "org" ++ ") DO UPDATE SET " ++ quote "name"
      ++ " = EXCLUDED." ++ quote "name" ++ " RETURNING *",
      [JNum 1; JNum 2; JStr "Jane"])].
Proof.
  cbv zeta.
  destruct
    (upsert_excludes_conflict_targets Sample.stringify Sample.parse_int
       (Chain.start
          (Chain.run
             [CFrom "users";
              CUpsert (OneRow [("id", JNum 1); ("org", JNum 2);
                               ("name", JStr "Jane")])
                (Some "id, org")]
             (Chain.db (Sample.answering []))))
       "id, org" [("id", JNum 1); ("org", JNum 2); ("name", JStr "Jane")] []
       eq_refl eq_refl eq_refl) as (E & _).
  rewrite E. vm_compute. reflexivity.
Defined.

(* ------------------------------------------------------------------ *)
(** *** Column references *)

Lemma includes_arrow_app (a tail : string) :
  includes_arrow (a ++ "->" ++ tail) = true.
Proof.
  induction a as [|c a IH]; [reflexivity|].
  cbn [append includes_arrow].
  destruct a as [|d a]; cbn [append] in *.
  - now rewrite IH, Bool.orb_true_r.
  - now rewrite IH, Bool.orb_true_r.
Qed.

Lemma split_arrow_from_step (c d : ascii) (s cur : string) :
  split_arrow_from cur (String c (String d s))
  = if Ascii.eqb c "-"%char && Ascii.eqb d ">"%char
    then cur :: split_arrow_from "" s
    else split_arrow_from (cur ++ String c "") (String d s).
Proof. reflexivity. Qed.

Lemma split_arrow_from_app (a : string) :
  forall cur tail,
    includes_arrow a = false ->
    split_arrow_from cur (a ++ "->" ++ tail)
    = (cur ++ a) :: split_arrow_from "" tail.
Proof.
  induction a as [|c a IH]; intros cur tail H.
  - cbn. now rewrite StringFacts.app_nil_r.
  - destruct a as [|d a].
    + cbn. rewrite Bool.andb_false_r. reflexivity.
    + cbn [includes_arrow] in H. apply Bool.orb_false_iff in H as [Ht Ha].
      change (String c (String d a) ++ "->" ++ tail)
        with (String c (String d (a ++ "->" ++ tail))).
      rewrite split_arrow_from_step, Ht.
      change (String d (a ++ "->" ++ tail))
        with (String d a ++ "->" ++ tail).
      rewrite (IH _ _ Ha), StringFacts.app_assoc. reflexivity.
Qed.

Lemma split_arrow_from_plain (a : string) :
  forall cur,
    includes_arrow a = false ->
    split_arrow_from cur a = [cur ++ a].
Proof.
  induction a as [|c a IH]; intros cur H.
  - cbn. now rewrite StringFacts.app_nil_r.
  - destruct a as [|d a]; [reflexivity|].
    cbn [includes_arrow] in H. apply Bool.orb_false_iff in H as [Ht Ha].
    rewrite split_arrow_from_step, Ht.
    rewrite (IH _ Ha), StringFacts.app_assoc. reflexivity.
Qed.

Lemma split_arrow_from_nonempty (s : string) :
  (forall cur, exists p rest, split_arrow_from cur s = p :: rest)
  /\ (forall c cur,
        exists p rest, split_arrow_from cur (String c s) = p :: rest).
Proof.
  induction s as [|d s [IH1 IH2]].
  - split; intros; eexists _, _; reflexivity.
  - split; [exact (IH2 d)|].
    intros c cur. rewrite split_arrow_from_step.
    destruct (Ascii.eqb c "-" && Ascii.eqb d ">");
      [eexists _, _; reflexivity | apply IH2].
Qed.

Lemma split_arrow_from_two (s : string) :
  (forall cur,
     includes_arrow s = true ->
     exists p0 p1 rest, split_arrow_from cur s = p0 :: p1 :: rest)
  /\ (forall c cur,
        includes_arrow (String c s) = true ->
        exists p0 p1 rest,
          split_arrow_from cur (String c s) = p0 :: p1 :: rest).
Proof.
  induction s as [|d s [IH1 IH2]].
  - split; intros; discriminate.
  - split; [exact (IH2 d)|].
    intros c cur H. rewrite split_arrow_from_step.
    change (includes_arrow (String c (String d s)))
      with ((Ascii.eqb c "-" && Ascii.eqb d ">")
            || includes_arrow (String d s)) in H.
    destruct (Ascii.eqb c "-" && Ascii.eqb d ">").
    + destruct (proj1 (split_arrow_from_nonempty s) "") as (p & rest & E).
      rewrite E. now exists cur, p, rest.
    + apply IH2. exact H.
Qed.

Lemma call_where_fragment (c : Call) (b : QueryBuilder) :
  ChainShape.appends_where c = true ->
  exists tail,
    _wheres (Chain.call b c)
    = Js.push (_wheres b) (QB._pgCol (Chain.column_of c) ++ tail).
Proof.
  intros H. destruct c; try discriminate H; unfold_call;
    unfold QB.placeholder_fragment; cbn [ChainShape.appends_where] in H;
    cbn [Chain.column_of].
  1, 2, 5, 6, 7, 8: eexists; cbn; reflexivity.
  - destruct (String.eqb operator "is" && Js.is_null value).
    + eexists; cbn; reflexivity.
    + cbn in H. rewrite H. eexists; cbn; reflexivity.
  - destruct (Js.is_null value); eexists; cbn; reflexivity.
Qed.

(** C6.  A column name [col->key] becomes the text extraction
    [col->>'key'] (a further [->] and what follows it are dropped): every
    name that contains [->] splits in at least two pieces, of which the
    first two are used.  A
    column name without [->] becomes the double-quoted identifier; every
    filter method starts the fragment it appends with the column
    resolved that way, and so does [order]. *)
Theorem column_references_resolved :
  (forall col key,
     includes_arrow col = false -> includes_arrow key = false ->
     QB._pgCol (col ++ "->" ++ key) = col ++ "->>'" ++ key ++ "'")
  /\ (forall col key more,
        includes_arrow col = false -> includes_arrow key = false ->
        QB._pgCol (col ++ "->" ++ key ++ "->" ++ more)
        = col ++ "->>'" ++ key ++ "'")
  /\ (forall col,
        includes_arrow col = true ->
        exists p0 p1 rest,
          split_arrow col = p0 :: p1 :: rest
          /\ QB._pgCol col = p0 ++ "->>'" ++ p1 ++ "'")
  /\ (forall col, includes_arrow col = false -> QB._pgCol col = quote col)
  /\ (forall c b,
        ChainShape.appends_where c = true ->
        exists tail,
          _wheres (Chain.call b c)
          = Js.push (_wheres b) (QB._pgCol (Chain.column_of c) ++ tail))
  /\ (forall col ascending b,
        exists dir,
          _orderClauses (Chain.call b (COrder col ascending))
          = Js.push (_orderClauses b) (QB._pgCol col ++ " " ++ dir)).
Proof.
  split; [|split; [|split; [|split; [|split]]]].
  - intros col key Hc Hk. unfold QB._pgCol, split_arrow.
    rewrite includes_arrow_app, (split_arrow_from_app _ _ _ Hc).
    now rewrite (split_arrow_from_plain _ _ Hk).
  - intros col key more Hc Hk. unfold QB._pgCol, split_arrow.
    rewrite includes_arrow_app, (split_arrow_from_app _ _ _ Hc).
    now rewrite (split_arrow_from_app _ _ _ Hk).
  - intros col H.
    destruct (proj1 (split_arrow_from_two col) "" H) as (p0 & p1 & rest & E).
    exists p0, p1, rest. unfold QB._pgCol, split_arrow. now rewrite H, E.
  - intros col H. unfold QB._pgCol. now rewrite H.
  - exact call_where_fragment.
  - intros col ascending b. eexists. reflexivity.
Qed.

Lemma column_references_resolved_witness :
  QB._pgCol "metadata->key" = "metadata->>'key'"
  /\ QB._pgCol "created_at" = quote "created_at".
Proof.
  split.
  - exact (proj1 column_references_resolved "metadata" "key"
             eq_refl eq_refl).
  - exact (proj1 (proj2 (proj2 (proj2 column_references_resolved)))
             "created_at" eq_refl).
Defined.

(* ------------------------------------------------------------------ *)
(** *** RETURNING *)

Lemma run_snoc (calls : list Call) (c : Call) (b : QueryBuilder) :
  Chain.run (calls ++ [c]) b = Chain.call (Chain.run calls b) c.
Proof. unfold Chain.run. now rewrite fold_left_app. Qed.

Lemma split_snoc {A : Type} (pre post calls : list A) (x c : A) :
  (pre ++ x :: post = calls ++ [c])%list ->
  (post = [] /\ pre = calls /\ x = c)
  \/ (exists post', post = (post' ++ [c])%list
                     /\ calls = (pre ++ x :: post')%list).
Proof.
  intros E. destruct post as [|y post].
  - left. apply app_inj_tail in E as [-> ->]. now repeat split.
  - right.
    assert (Hne : y :: post <> []) by discriminate.
    destruct (exists_last Hne) as (q & z & Hz).
    rewrite Hz in E.
    change (pre ++ x :: q ++ [z])%list with (pre ++ (x :: q) ++ [z])%list in E.
    rewrite List.app_assoc in E.
    apply app_inj_tail in E as [<- ->]. exists q. now split.
Qed.

Lemma call_returnData (c : Call) (b : QueryBuilder) :
  _returnData (Chain.call b c)
  = if ChainShape.is_from c then false
    else if ChainShape.is_select c
         then ChainShape.mutating (_operation b) || _returnData b
         else _returnData b.
Proof.
  destruct c; unfold_call; cbn; try reflexivity.
  - destruct (_operation b) as [[]|]; cbn; try reflexivity;
      destruct (JoinPattern.exec _); reflexivity.
  - destruct (String.eqb operator "is" && Js.is_null value); cbn;
      [reflexivity|].
    destruct (String.eqb operator "eq"); reflexivity.
  - destruct (Js.is_null value); reflexivity.
Qed.

Lemma select_after_mutation_snoc (calls : list Call) (c : Call)
    (b : QueryBuilder) :
  ChainShape.select_after_mutation (calls ++ [c]) b
  <-> (ChainShape.is_select c = true
       /\ ChainShape.mutating (_operation (Chain.run calls b)) = true)
      \/ (ChainShape.is_from c = false
          /\ ChainShape.select_after_mutation calls b).
Proof.
  unfold ChainShape.select_after_mutation. split.
  - intros (pre & columns & count & post & E & Hm & Hp).
    symmetry in E. apply split_snoc in E as [(-> & -> & <-) | (q & -> & ->)].
    + left. now split.
    + right. rewrite forallb_app in Hp. apply Bool.andb_true_iff in Hp as [Hq Hc].
      cbn in Hc. rewrite Bool.andb_true_r in Hc.
      apply Bool.negb_true_iff in Hc. split; [exact Hc|].
      now exists pre, columns, count, q.
  - intros [[Hs Hm] | [Hf (pre & columns & count & post & -> & Hm & Hp)]].
    + destruct c; try discriminate Hs.
      exists calls, columns, count, []. now repeat split.
    + exists pre, columns, count, (post ++ [c])%list.
      split; [now rewrite <- List.app_assoc|]. split; [exact Hm|].
      rewrite forallb_app, Hp. cbn. now rewrite Hf.
Qed.

Lemma returnData_select_after_mutation (calls : list Call)
    (b : QueryBuilder) :
  _returnData b = false ->
  _returnData (Chain.run calls b) = true
  <-> ChainShape.select_after_mutation calls b.
Proof.
  intros Hb. induction calls as [|c calls IH] using rev_ind.
  - cbn. rewrite Hb. split; [discriminate|].
    intros (pre & columns & count & post & E & _).
    now destruct pre.
  - rewrite run_snoc, call_returnData, select_after_mutation_snoc.
    destruct (ChainShape.is_from c) eqn:Hf.
    + split; [discriminate|].
      intros [[Hs _] | [Hx _]]; [|discriminate Hx].
      destruct c; discriminate.
    + destruct (ChainShape.is_select c) eqn:Hs.
      * rewrite Bool.orb_true_iff, IH. tauto.
      * rewrite IH. split; [tauto|].
        intros [[Hx _] | H]; [discriminate Hx | tauto].
Qed.

Lemma last_char_app (a b : string) :
  last_char (a ++ b)
  = match last_char b with Some d => Some d | None => last_char a end.
Proof.
  induction a as [|x a IH]; cbn.
  - now destruct (last_char b).
  - rewrite IH. now destruct (last_char b).
Qed.

Lemma unstarred_app (a b : string) : unstarred b -> unstarred (a ++ b).
Proof.
  intros (c & Hc & Hn). exists c. now rewrite last_char_app, Hc.
Qed.

Lemma unstarred_not_returning (s : string) :
  unstarred s -> ~ ends_with " RETURNING *" s.
Proof.
  intros (c & Hc & Hn) (text & ->).
  rewrite last_char_app in Hc. cbn in Hc. injection Hc as <-. now apply Hn.
Qed.

Lemma ends_with_app (clause a s : string) :
  ends_with clause s -> ends_with clause (a ++ s).
Proof.
  intros (text & ->). exists (a ++ text). now rewrite StringFacts.app_assoc.
Qed.

Lemma ends_with_refl (clause : string) : ends_with clause clause.
Proof. now exists "". Qed.

Lemma last_char_all (p : ascii -> bool) (s : string) :
  all_chars p s = true -> s <> "" ->
  exists d, last_char s = Some d /\ p d = true.
Proof.
  induction s as [|c s IH]; intros Hall Hne; [contradiction|].
  cbn in Hall. apply Bool.andb_true_iff in Hall as [Hc Hs].
  cbn. destruct s as [|c' s'].
  - exists c. now split.
  - destruct (IH Hs ltac:(discriminate)) as (d & -> & Hd). now exists d.
Qed.

Lemma uint_digits (u : Decimal.uint) :
  all_chars is_digit (NilEmpty.string_of_uint u) = true.
Proof. induction u; cbn; auto. Qed.

Lemma of_nat_digits (n : nat) :
  all_chars is_digit (of_nat n) = true /\ of_nat n <> "".
Proof.
  unfold of_nat, NilZero.string_of_uint.
  destruct (Nat.to_uint n) as [|u|u|u|u|u|u|u|u|u|u];
    (split; [try reflexivity; apply (uint_digits (_ u)) | discriminate]).
Qed.

Lemma of_nat_unstarred (n : nat) : unstarred (of_nat n).
Proof.
  destruct (of_nat_digits n) as [Hall Hne].
  destruct (last_char_all is_digit _ Hall Hne) as (d & Hd & Hdig).
  exists d. split; [exact Hd|]. intros ->. discriminate Hdig.
Qed.

Lemma placeholder_unstarred (n : nat) : unstarred (Spec.placeholder n).
Proof. unfold Spec.placeholder. apply unstarred_app, of_nat_unstarred. Qed.

Lemma join_cons2 (sep x y : string) (l : list string) :
  join sep (x :: y :: l) = x ++ sep ++ join sep (y :: l).
Proof. reflexivity. Qed.

Lemma join_unstarred (sep : string) (l : list string) :
  l <> [] -> Forall unstarred l -> unstarred (join sep l).
Proof.
  induction l as [|x l IH]; intros Hne Hall; [contradiction|].
  inversion Hall as [|? ? Hx Hl]; subst.
  destruct l as [|y l]; [exact Hx|].
  rewrite join_cons2. apply unstarred_app, unstarred_app, IH;
    [discriminate | exact Hl].
Qed.

Section Tuples.

Variable JSON_stringify : jsval -> string.

Lemma bind_rows_fold_tuples (keys : list string) (insertData : list jsobj) :
  forall values placeholders,
    snd (fold_left
           (fun '(values, placeholders) row =>
              let '(values, rowPlaceholders) :=
                bind_row JSON_stringify keys row values in
              (values,
               Js.push placeholders
                 ("(" ++ join ", " rowPlaceholders ++ ")")))
           insertData (values, placeholders))
    = (placeholders
       ++ row_tuples (List.length keys) (List.length values)
            (List.length insertData))%list.
Proof.
  induction insertData as [|row rows IH]; intros values ph; cbn [fold_left].
  - cbn. now rewrite List.app_nil_r.
  - rewrite bind_row_closed, IH. unfold Js.push.
    rewrite <- List.app_assoc, List.length_app, List.length_map.
    reflexivity.
Qed.

Lemma bind_rows_tuples (keys : list string) (insertData : list jsobj) :
  snd (bind_rows JSON_stringify keys insertData)
  = row_tuples (List.length keys) 0 (List.length insertData).
Proof. unfold bind_rows. now rewrite bind_rows_fold_tuples. Qed.

End Tuples.

(* ------------------------------------------------------------------ *)
(** *** Value coercion *)

Section Coercion.

Variable JSON_stringify : jsval -> string.
Variable parseInt : jsval -> jsval.

Local Abbreviation execute := (_execute JSON_stringify parseInt).

(** C8.  What [_pgVal] makes of a value is the coercion the
    specification words: [null] and [undefined] stay; an empty array
    becomes the string ['{}']; an array whose first element is no object
    stays; an array whose first element is an object, and any other
    object, becomes its JSON text; every other value stays.  And these
    coerced values are what an executed insert, upsert and update hand to
    the connector as parameters: row by row and key by key (the keys of
    the first row) for insert and upsert, the filter parameters followed
    by the values of the update object in key order for update. *)
Theorem bound_values_are_coerced (st : exec_state) :
  ((forall val, _pgVal JSON_stringify val = Spec.coerced JSON_stringify val)
   /\ _pgVal JSON_stringify JNull = JNull
   /\ _pgVal JSON_stringify JUndefined = JUndefined
   /\ _pgVal JSON_stringify (JArr []) = JStr "{}"
   /\ (forall v0 elems,
         Spec.is_object v0 = false ->
         _pgVal JSON_stringify (JArr (v0 :: elems)) = JArr (v0 :: elems))
   /\ (forall v0 elems,
         Spec.is_object v0 = true ->
         _pgVal JSON_stringify (JArr (v0 :: elems))
         = JStr (JSON_stringify (JArr (v0 :: elems))))
   /\ (forall val,
         Spec.is_object val = true -> (forall elems, val <> JArr elems) ->
         _pgVal JSON_stringify val = JStr (JSON_stringify val))
   /\ (forall val,
         Spec.is_object val = false -> _pgVal JSON_stringify val = val))
  /\ (forall row0 rest,
        _operation (self st) = Some OpInsert ->
        _insertData (self st) = Some (row0 :: rest) ->
        let keys := Js.keys row0 in
        issued (snd (execute st))
        = (issued st
           ++ [(insert_sql (self st) keys
                  (row_tuples (List.length keys) 0 (S (List.length rest))),
                flat_map
                  (fun row =>
                     map (fun k => Spec.coerced JSON_stringify (Js.get k row))
                       keys)
                  (row0 :: rest))])%list)
  /\ (forall row0 rest upsertConflict,
        _operation (self st) = Some OpUpsert ->
        _insertData (self st) = Some (row0 :: rest) ->
        _upsertConflict (self st) = Some upsertConflict ->
        let keys := Js.keys row0 in
        issued (snd (execute st))
        = (issued st
           ++ [(upsert_sql (self st) upsertConflict keys
                  (row_tuples (List.length keys) 0 (S (List.length rest))),
                flat_map
                  (fun row =>
                     map (fun k => Spec.coerced JSON_stringify (Js.get k row))
                       keys)
                  (row0 :: rest))])%list)
  /\ (forall updateData,
        _operation (self st) = Some OpUpdate ->
        _updateData (self st) = Some updateData ->
        let keys := Js.keys updateData in
        let values :=
          map (fun k => Spec.coerced JSON_stringify (Js.get k updateData))
            keys in
        issued (snd (execute st))
        = (issued st
           ++ [(update_sql (self st)
                  (map Spec.set_clause
                     (combine
                        (seq (S (List.length (_params (self st))))
                           (List.length keys))
                        keys)),
                (_params (self st) ++ values)%list)])%list).
Proof.
  assert (Hmap : forall (o : jsobj) keys,
             map (fun k => _pgVal JSON_stringify (Js.get k o)) keys
             = map (fun k => Spec.coerced JSON_stringify (Js.get k o)) keys).
  { intros o keys. apply map_ext. intros k. apply pgVal_coerced. }
  assert (Hflat : forall keys rows,
             flat_map
               (fun row =>
                  map (fun k => _pgVal JSON_stringify (Js.get k row)) keys)
               rows
             = flat_map
                 (fun row =>
                    map (fun k => Spec.coerced JSON_stringify (Js.get k row))
                      keys)
                 rows).
  { intros keys rows. induction rows as [|r rows IH]; [reflexivity|].
    cbn [flat_map]. now rewrite Hmap, IH. }
  split; [|split; [|split]].
  - split; [apply pgVal_coerced|].
    split; [reflexivity|]. split; [reflexivity|]. split; [reflexivity|].
    split; [|split; [|split]].
    + intros v0 elems H. rewrite pgVal_coerced. cbn [Spec.coerced].
      now rewrite H.
    + intros v0 elems H. rewrite pgVal_coerced. cbn [Spec.coerced].
      now rewrite H.
    + intros val H Harr. rewrite pgVal_coerced.
      destruct val as [| | b | n | | s | elems | props | msg | name |];
        try discriminate H; try reflexivity.
      now destruct (Harr elems).
    + intros val H. rewrite pgVal_coerced.
      destruct val as [| | b | n | | s | elems | props | msg | name |];
        try discriminate H; reflexivity.
  - intros row0 rest Hop Hd keys. subst keys.
    rewrite (execute_insert_issues JSON_stringify parseInt st row0 rest Hop Hd).
    unfold insert_statement.
    now rewrite bind_rows_tuples, bind_rows_values, Hflat.
  - intros row0 rest c Hop Hd Hc keys. subst keys.
    rewrite (execute_upsert_issues JSON_stringify parseInt st row0 rest c
               Hop Hd Hc).
    unfold upsert_statement.
    now rewrite bind_rows_tuples, bind_rows_values, Hflat.
  - intros updateData Hop Hd keys values. subst keys values.
    rewrite (execute_update_issues JSON_stringify parseInt st updateData
               Hop Hd).
    unfold update_statement, update_bound.
    rewrite bind_updates_closed. cbn [fst snd Assign.params _params].
    now rewrite Hmap.
Qed.

End Coercion.

Lemma bound_values_are_coerced_witness :
  exists sql,
    issued
      (snd (_execute Sample.stringify Sample.parse_int
              (Chain.start
                 (Chain.run
                    [CFrom "docs";
                     CInsert
                       (OneRow [("tags", JArr []);
                                ("ids", JArr [JNum 1; JNum 2]);
                                ("meta", JObj [("a", JNum 1)]);
                                ("items", JArr [JObj []]);
                                ("note", JNull); ("n", JNum 3)])]
                    (Chain.db (Sample.answering []))))))
    = [(sql,
        [JStr "{}"; JArr [JNum 1; JNum 2]; JStr "{...}"; JStr "[...]";
         JNull; JNum 3])].
Proof.
  eexists.
  exact (proj1 (proj2
           (bound_values_are_coerced Sample.stringify Sample.parse_int
              (Chain.start
                 (Chain.run
                    [CFrom "docs";
                     CInsert
                       (OneRow [("tags", JArr []);
                                ("ids", JArr [JNum 1; JNum 2]);
                                ("meta", JObj [("a", JNum 1)]);
                                ("items", JArr [JObj []]);
                                ("note", JNull); ("n", JNum 3)])]
                    (Chain.db (Sample.answering []))))))
           [("tags", JArr []); ("ids", JArr [JNum 1; JNum 2]);
            ("meta", JObj [("a", JNum 1)]); ("items", JArr [JObj []]);
            ("note", JNull); ("n", JNum 3)]
           [] eq_refl eq_refl).
Defined.

Lemma row_tuples_unstarred (width count start : nat) :
  Forall unstarred (row_tuples width start count).
Proof.
  revert start. induction count as [|count IH]; intros start;
    cbn [row_tuples].
  - constructor.
  - constructor; [|apply IH].
    apply unstarred_app, unstarred_app. exists ")"%char.
    split; [reflexivity | discriminate].
Qed.

Lemma set_clauses_unstarred (l : list (nat * string)) :
  Forall unstarred (map Spec.set_clause l).
Proof.
  induction l as [|ik l IH]; cbn [map]; constructor; [|exact IH].
  unfold Spec.set_clause. apply unstarred_app, unstarred_app.
  apply placeholder_unstarred.
Qed.

(** Every fragment a chain leaves in [this._wheres] ends with a
    placeholder number or with [NULL]. *)
Lemma call_wheres_unstarred (c : Call) (b : QueryBuilder) :
  Forall unstarred (_wheres b) ->
  Forall unstarred (_wheres (Chain.call b c)).
Proof.
  intros Hb.
  assert (Hpush : forall f, unstarred f ->
                    Forall unstarred (_wheres b ++ [f])%list).
  { intros f Hf. apply Forall_app. split; [exact Hb|]. now constructor. }
  assert (Hph : forall column op this,
             unstarred (QB.placeholder_fragment column op this)).
  { intros column op this. unfold QB.placeholder_fragment.
    do 4 apply unstarred_app. apply of_nat_unstarred. }
  assert (Hnull : forall column, unstarred (QB._pgCol column ++ " IS NULL")).
  { intros column. apply unstarred_app. exists "L"%char.
    split; [reflexivity | discriminate]. }
  assert (Hnot : forall column,
             unstarred (QB._pgCol column ++ " IS NOT NULL")).
  { intros column. apply unstarred_app. exists "L"%char.
    split; [reflexivity | discriminate]. }
  destruct c; unfold_call; cbn; unfold Js.push; auto.
  - destruct (_operation b) as [[]|]; cbn; auto;
      destruct (JoinPattern.exec _); cbn; auto.
  - destruct (String.eqb operator "is" && Js.is_null value); cbn;
      unfold Js.push; auto.
    destruct (String.eqb operator "eq"); cbn; unfold Js.push; auto.
  - destruct (Js.is_null value); cbn; unfold Js.push; auto.
Qed.

Lemma run_wheres_unstarred (calls : list Call) (b : QueryBuilder) :
  Forall unstarred (_wheres b) ->
  Forall unstarred (_wheres (Chain.run calls b)).
Proof.
  revert b. induction calls as [|c calls IH]; intros b Hb; [exact Hb|].
  apply IH, call_wheres_unstarred, Hb.
Qed.

Lemma unstarred_app_l (a b : string) :
  unstarred a -> unstarred_or_empty b -> unstarred (a ++ b).
Proof.
  intros Ha [-> | Hb]; [now rewrite StringFacts.app_nil_r|].
  now apply unstarred_app.
Qed.

Lemma unstarred_or_empty_app (a b : string) :
  unstarred_or_empty a -> unstarred_or_empty b ->
  unstarred_or_empty (a ++ b).
Proof.
  intros [-> | Ha] Hb; [exact Hb|]. right. now apply unstarred_app_l.
Qed.

Lemma join_unstarred_or_empty (sep : string) (l : list string) :
  Forall unstarred l -> unstarred_or_empty (join sep l).
Proof.
  intros H. destruct l as [|x l]; [now left|].
  right. apply join_unstarred; [discriminate | exact H].
Qed.

Lemma where_text_unstarred_or_empty (b : QueryBuilder) :
  Forall unstarred (_wheres b) -> unstarred_or_empty (where_text b).
Proof.
  intros H. unfold where_text. destruct (_wheres b) as [|w ws] eqn:E;
    [now left|].
  right. apply unstarred_app, join_unstarred; [discriminate | exact H].
Qed.

Section Returning.

Variable JSON_stringify : jsval -> string.
Variable parseInt : jsval -> jsval.

Local Abbreviation execute := (_execute JSON_stringify parseInt).

Lemma insert_sql_returning (b : QueryBuilder) (row0 : jsobj)
    (rest : list jsobj) :
  ends_with " RETURNING *"
    (fst (insert_statement JSON_stringify b (row0 :: rest)))
  <-> _returnData b = true.
Proof.
  unfold insert_statement, insert_sql. cbn [fst].
  rewrite bind_rows_tuples.
  destruct (_returnData b).
  - split; [reflexivity|]. intros _.
    do 6 apply ends_with_app. apply ends_with_refl.
  - split; [|discriminate]. intros H. exfalso.
    revert H. apply unstarred_not_returning.
    rewrite StringFacts.app_nil_r. do 5 apply unstarred_app.
    apply join_unstarred; [discriminate | apply row_tuples_unstarred].
Qed.

Lemma update_sql_returning (b : QueryBuilder) (updateData : jsobj) :
  Forall unstarred (_wheres b) ->
  ends_with " RETURNING *"
    (fst (update_statement JSON_stringify b updateData))
  <-> _returnData b = true.
Proof.
  intros Hw. unfold update_statement, update_sql, update_bound. cbn [fst].
  rewrite bind_updates_closed. cbn [fst snd].
  change (_returnData (Assign.params _ b)) with (_returnData b).
  change (where_text (Assign.params _ b)) with (where_text b).
  destruct (_returnData b).
  - split; [reflexivity|]. intros _.
    do 5 apply ends_with_app. apply ends_with_refl.
  - split; [|discriminate]. intros H. exfalso.
    revert H. apply unstarred_not_returning.
    do 2 apply unstarred_app. apply unstarred_app_l.
    + exists " "%char. split; [reflexivity | discriminate].
    + apply unstarred_or_empty_app.
      * apply join_unstarred_or_empty, set_clauses_unstarred.
      * apply unstarred_or_empty_app; [|now left].
        now apply where_text_unstarred_or_empty.
Qed.

Lemma upsert_sql_returning (b : QueryBuilder) (upsertConflict : string)
    (insertData : list jsobj) :
  ends_with " RETURNING *"
    (fst (upsert_statement JSON_stringify b upsertConflict insertData)).
Proof.
  unfold upsert_statement, upsert_sql. cbn [fst].
  do 10 apply ends_with_app. apply ends_with_refl.
Qed.

(** C7.  At the end of a chain the return-rows flag is set exactly when
    [select()] was called while the operation was insert, update or
    upsert.  The INSERT or UPDATE statement handed to the connector ends
    with [RETURNING *] exactly when the flag is set.  The UPSERT statement
    always ends with [RETURNING *], and the envelope's [data] is made of
    the rows the connector returns (the first of them in single-row mode)
    whether or not the flag is set. *)
Theorem returning_only_when_requested (calls : list Call)
    (pool : Connector) :
  let b := Chain.run calls (Chain.db pool) in
  (_returnData b = true
   <-> ChainShape.select_after_mutation calls (Chain.db pool))
  /\ (forall row0 rest,
        _operation b = Some OpInsert ->
        _insertData b = Some (row0 :: rest) ->
        exists sql params,
          issued (snd (execute (Chain.start b))) = [(sql, params)]
          /\ (ends_with " RETURNING *" sql <-> _returnData b = true))
  /\ (forall updateData,
        _operation b = Some OpUpdate ->
        _updateData b = Some updateData ->
        exists sql params,
          issued (snd (execute (Chain.start b))) = [(sql, params)]
          /\ (ends_with " RETURNING *" sql <-> _returnData b = true))
  /\ (forall upsertConflict row0 rest,
        _operation b = Some OpUpsert ->
        _insertData b = Some (row0 :: rest) ->
        _upsertConflict b = Some upsertConflict ->
        exists sql params,
          issued (snd (execute (Chain.start b))) = [(sql, params)]
          /\ ends_with " RETURNING *" sql
          /\ forall rows,
               _pool b [] (sql, params) = Ok rows ->
               fst (execute (Chain.start b))
               = Resolved
                   [("data",
                     if _singleResult b then Js.or (Js.first rows) JNull
                     else Js.array_of rows);
                    ("error", JNull)]).
Proof.
  cbv zeta. split; [|split; [|split]].
  - now apply returnData_select_after_mutation.
  - intros row0 rest Hop Hd.
    eexists _, _. split.
    + rewrite (execute_insert_issues JSON_stringify parseInt
                 (Chain.start _) row0 rest Hop Hd).
      cbn [Chain.start issued self app]. unfold insert_statement.
      reflexivity.
    + apply (insert_sql_returning _ row0 rest).
  - intros updateData Hop Hd.
    eexists _, _. split.
    + rewrite (execute_update_issues JSON_stringify parseInt
                 (Chain.start _) updateData Hop Hd).
      cbn [Chain.start issued self app]. unfold update_statement.
      reflexivity.
    + apply (update_sql_returning _ updateData).
      apply run_wheres_unstarred. constructor.
  - intros upsertConflict row0 rest Hop Hd Hc.
    eexists _, _. split; [|split].
    + rewrite (execute_upsert_issues JSON_stringify parseInt
                 (Chain.start _) row0 rest upsertConflict Hop Hd Hc).
      cbn [Chain.start issued self app]. unfold upsert_statement.
      reflexivity.
    + apply (upsert_sql_returning _ upsertConflict (row0 :: rest)).
    + intros rows Hrows.
      rewrite execute_dispatch, dispatch_operation.
      cbn [Chain.start self]. rewrite Hop.
      rewrite (execUpsert_rows JSON_stringify (Chain.start _) row0 rest
                 upsertConflict Hd Hc).
      cbn [Chain.start self issued]. unfold upsert_statement.
      rewrite Hrows. reflexivity.
Qed.

End Returning.

Lemma returning_only_when_requested_witness :
  let calls :=
    [CFrom "users"; CInsert (OneRow [("name", JStr "John")]);
     CSelect None None] in
  let b := Chain.run calls (Chain.db (Sample.answering [])) in
  _returnData b = true
  /\ exists sql params,
       issued (snd (_execute Sample.stringify Sample.parse_int
                      (Chain.start b)))
       = [(sql, params)]
       /\ (ends_with " RETURNING *" sql <-> _returnData b = true).
Proof.
  cbv zeta. split; [reflexivity|].
  exact (proj1 (proj2
           (returning_only_when_requested Sample.stringify Sample.parse_int
              [CFrom "users"; CInsert (OneRow [("name", JStr "John")]);
               CSelect None None]
              (Sample.answering [])))
           [("name", JStr "John")] [] eq_refl eq_refl).
Defined.

(* ------------------------------------------------------------------ *)
(** *** Embedded relations: the join and the reshaped rows *)

Lemma word_not_space (c : ascii) : is_word c = true -> is_space c = false.
Proof.
  destruct c as [[] [] [] [] [] [] [] []]; intros H;
    try reflexivity; discriminate H.
Qed.

Lemma span_app (p : ascii -> bool) (a : string) (c : ascii) (r : string) :
  all_chars p a = true -> p c = false ->
  span p (a ++ String c r) = (a, String c r).
Proof.
  intros Ha Hc. induction a as [|x a IH]; cbn.
  - now rewrite Hc.
  - cbn in Ha. apply Bool.andb_true_iff in Ha as [Hx Ha].
    now rewrite Hx, (IH Ha).
Qed.

Lemma span_stop (p : ascii -> bool) (c : ascii) (r : string) :
  p c = false -> span p (String c r) = ("", String c r).
Proof. intros H. cbn. now rewrite H. Qed.

Lemma match_tail_relation (target inner : string) :
  target <> "" -> all_chars is_word target = true ->
  inner <> "" -> all_chars JoinPattern.not_close inner = true ->
  JoinPattern.match_tail (" " ++ target ++ "(" ++ inner ++ ")")
  = Some (target, inner, "").
Proof.
  intros Ht Hw Hi Hc. unfold JoinPattern.match_tail.
  destruct target as [|t0 target]; [contradiction|].
  assert (Hs : is_space t0 = false).
  { cbn in Hw. apply Bool.andb_true_iff in Hw as [Hw _].
    now apply word_not_space. }
  change (" " ++ String t0 target ++ "(" ++ inner ++ ")")
    with (String " " (String t0 (target ++ "(" ++ inner ++ ")"))).
  assert (E1 : span is_space
                 (String " " (String t0 (target ++ "(" ++ inner ++ ")")))
               = (" ", String t0 (target ++ "(" ++ inner ++ ")"))).
  { cbn [span]. change (is_space " ") with true. cbv iota.
    now rewrite Hs. }
  rewrite E1. cbn [snd].
  change (String t0 (target ++ "(" ++ inner ++ ")"))
    with (String t0 target ++ String "(" (inner ++ ")")).
  rewrite (span_app is_word (String t0 target) "(" (inner ++ ")") Hw eq_refl).
  cbn [is_empty]. change (Ascii.eqb "(" "(") with true. cbv iota.
  change (inner ++ ")") with (inner ++ String ")" "").
  rewrite (span_app JoinPattern.not_close inner ")" "" Hc eq_refl).
  destruct inner as [|i0 inner]; [contradiction|]. reflexivity.
Qed.

Lemma exec_step (c : ascii) (s : string) :
  JoinPattern.match_here (String c s) = None ->
  JoinPattern.exec (String c s)
  = match JoinPattern.exec s with
    | Some m =>
        Some {| JoinPattern.before := String c (JoinPattern.before m);
                JoinPattern.name := JoinPattern.name m;
                JoinPattern.inner := JoinPattern.inner m;
                JoinPattern.after := JoinPattern.after m |}
    | None => None
    end.
Proof. intros H. cbn [JoinPattern.exec]. now rewrite H. Qed.

Lemma exec_relation (target inner : string) :
  target <> "" -> all_chars is_word target = true ->
  inner <> "" -> all_chars JoinPattern.not_close inner = true ->
  JoinPattern.exec ("*, " ++ target ++ "(" ++ inner ++ ")")
  = Some {| JoinPattern.before := "*"; JoinPattern.name := target;
            JoinPattern.inner := inner; JoinPattern.after := "" |}.
Proof.
  intros Ht Hw Hi Hc.
  pose proof (match_tail_relation target inner Ht Hw Hi Hc) as M.
  change ("*, " ++ target ++ "(" ++ inner ++ ")")
    with (String "*" (String "," (" " ++ target ++ "(" ++ inner ++ ")"))).
  set (tail := " " ++ target ++ "(" ++ inner ++ ")") in *.
  assert (E2 : JoinPattern.exec (String "," tail)
               = Some {| JoinPattern.before := ""; JoinPattern.name := target;
                         JoinPattern.inner := inner;
                         JoinPattern.after := "" |}).
  { cbn [JoinPattern.exec JoinPattern.match_here].
    change (Ascii.eqb "," ",") with true. cbv iota. now rewrite M. }
  assert (E1 : JoinPattern.match_here (String "*" (String "," tail)) = None)
    by reflexivity.
  rewrite (exec_step _ _ E1), E2. reflexivity.
Qed.

Module ObjectFacts.

Lemma has_keys (k : string) (o : jsobj) :
  Js.has k o = true <-> In k (Js.keys o).
Proof.
  unfold Js.has, Js.keys. induction o as [|[k0 v0] o IH]; cbn.
  - split; [discriminate | tauto].
  - destruct (String.eqb k k0) eqn:E; cbn.
    + apply String.eqb_eq in E. subst k0. tauto.
    + apply String.eqb_neq in E. rewrite IH. intuition congruence.
Qed.

Lemma get_not_own (k : string) (o : jsobj) :
  Js.has k o = false -> Js.get k o = Js.inherited k.
Proof.
  unfold Js.has. induction o as [|[k0 v0] o IH]; cbn; [reflexivity|].
  destruct (String.eqb k k0); cbn; [discriminate | exact IH].
Qed.

Lemma get_replace_same (k : string) (v : jsval) (o : jsobj) :
  Js.has k o = true -> Js.get k (Js.replace k v o) = v.
Proof.
  unfold Js.has. induction o as [|[k0 v0] o IH]; cbn; [discriminate|].
  destruct (String.eqb k k0) eqn:E; cbn; rewrite E; [reflexivity | exact IH].
Qed.

Lemma get_replace_other (k k' : string) (v : jsval) (o : jsobj) :
  k <> k' -> Js.get k (Js.replace k' v o) = Js.get k o.
Proof.
  intros Hne. apply String.eqb_neq in Hne.
  induction o as [|[k0 v0] o IH]; cbn; [reflexivity|].
  destruct (String.eqb k' k0) eqn:E; cbn.
  - apply String.eqb_eq in E. subst k0. now rewrite Hne.
  - now rewrite IH.
Qed.

Lemma keys_replace (k : string) (v : jsval) (o : jsobj) :
  Js.keys (Js.replace k v o) = Js.keys o.
Proof.
  unfold Js.keys. induction o as [|[k0 v0] o IH]; cbn; [reflexivity|].
  destruct (String.eqb k k0); cbn; [reflexivity | now rewrite IH].
Qed.

Lemma get_insert_same (i : N) (k : string) (v : jsval) (o : jsobj) :
  Js.has k o = false -> Js.get k (Js.insert_index i k v o) = v.
Proof.
  unfold Js.has. induction o as [|[k0 v0] o IH]; cbn.
  - now rewrite String.eqb_refl.
  - destruct (String.eqb k k0) eqn:E; cbn; [discriminate|]. intros H.
    destruct (Js.array_index k0) as [j|]; [destruct (j <? i)%N|]; cbn;
      rewrite ?E, ?String.eqb_refl; auto.
Qed.

Lemma get_insert_other (i : N) (k k' : string) (v : jsval) (o : jsobj) :
  k <> k' -> Js.get k (Js.insert_index i k' v o) = Js.get k o.
Proof.
  intros Hne. apply String.eqb_neq in Hne.
  induction o as [|[k0 v0] o IH]; cbn.
  - now rewrite Hne.
  - destruct (Js.array_index k0) as [j|]; [destruct (j <? i)%N|]; cbn;
      rewrite ?Hne, ?IH; reflexivity.
Qed.

Lemma keys_insert (x : string) (i : N) (k : string) (v : jsval) (o : jsobj) :
  In x (Js.keys (Js.insert_index i k v o)) <-> x = k \/ In x (Js.keys o).
Proof.
  unfold Js.keys. induction o as [|[k0 v0] o IH]; cbn.
  - intuition congruence.
  - destruct (Js.array_index k0) as [j|]; [destruct (j <? i)%N|]; cbn;
      rewrite ?IH; intuition congruence.
Qed.

Lemma get_last_same (k : string) (v : jsval) (o : jsobj) :
  Js.has k o = false -> Js.get k (o ++ [(k, v)])%list = v.
Proof.
  unfold Js.has. induction o as [|[k0 v0] o IH]; cbn.
  - now rewrite String.eqb_refl.
  - destruct (String.eqb k k0); cbn; [discriminate | exact IH].
Qed.

Lemma get_last_other (k k' : string) (v : jsval) (o : jsobj) :
  k <> k' -> Js.get k (o ++ [(k', v)])%list = Js.get k o.
Proof.
  intros Hne. apply String.eqb_neq in Hne.
  induction o as [|[k0 v0] o IH]; cbn.
  - now rewrite Hne.
  - now rewrite IH.
Qed.

Lemma get_set_same (k : string) (v : jsval) (o : jsobj) :
  k <> "__proto__" -> Js.get k (Js.set k v o) = v.
Proof.
  intros Hk. apply String.eqb_neq in Hk. unfold Js.set. rewrite Hk.
  destruct (Js.has k o) eqn:H; [now apply get_replace_same|].
  destruct (Js.array_index k) as [i|];
    [now apply get_insert_same | now apply get_last_same].
Qed.

Lemma get_set_other (k k' : string) (v : jsval) (o : jsobj) :
  k' <> "__proto__" ->
  k <> k' -> Js.get k (Js.set k' v o) = Js.get k o.
Proof.
  intros Hp Hne. unfold Js.set.
  apply String.eqb_neq in Hp. rewrite Hp.
  destruct (Js.has k' o); [now apply get_replace_other|].
  destruct (Js.array_index k') as [i|];
    [now apply get_insert_other | now apply get_last_other].
Qed.

Lemma keys_set (x k : string) (v : jsval) (o : jsobj) :
  k <> "__proto__" ->
  In x (Js.keys (Js.set k v o)) <-> x = k \/ In x (Js.keys o).
Proof.
  intros Hk. apply String.eqb_neq in Hk. unfold Js.set. rewrite Hk.
  destruct (Js.has k o) eqn:H.
  - rewrite keys_replace. apply has_keys in H.
    split; [tauto | intros [->|]; assumption].
  - destruct (Js.array_index k) as [i|]; [apply keys_insert|].
    unfold Js.keys. rewrite map_app, in_app_iff. cbn. intuition congruence.
Qed.

Lemma get_delete_other (k k' : string) (o : jsobj) :
  k <> k' -> Js.get k (Js.delete k' o) = Js.get k o.
Proof.
  intros Hne. apply String.eqb_neq in Hne.
  induction o as [|[k0 v0] o IH]; cbn; [reflexivity|].
  destruct (String.eqb k' k0) eqn:E; cbn.
  - apply String.eqb_eq in E. subst k0. now rewrite Hne.
  - now rewrite IH.
Qed.

Lemma keys_set_inv (x k : string) (v : jsval) (o : jsobj) :
  In x (Js.keys (Js.set k v o)) -> x = k \/ In x (Js.keys o).
Proof.
  destruct (String.eqb_spec k "__proto__") as [->|Hk].
  - unfold Js.set. cbn [String.eqb Ascii.eqb Bool.eqb]. tauto.
  - now apply keys_set.
Qed.

Lemma keys_delete (x k : string) (o : jsobj) :
  In x (Js.keys (Js.delete k o)) <-> x <> k /\ In x (Js.keys o).
Proof.
  unfold Js.keys. induction o as [|[k0 v0] o IH]; cbn.
  - tauto.
  - destruct (String.eqb k k0) eqn:E; cbn.
    + apply String.eqb_eq in E. subst k0. rewrite IH. intuition congruence.
    + apply String.eqb_neq in E. rewrite IH. intuition congruence.
Qed.

End ObjectFacts.

Lemma reshape_row_parts (jn : JoinSpec) (row : jsobj) :
  reshape_row jn row
  = Js.set (join_table jn) (JObj (nested_object jn row))
      (without_aliases jn row).
Proof.
  unfold reshape_row, nested_object, without_aliases, join_alias.
  generalize (@nil (string * jsval)) as nested.
  generalize row at 2 4 as main.
  induction (join_columns jn) as [|c cols IH]; intros main nested;
    [reflexivity|].
  cbn [fold_left]. apply IH.
Qed.

Lemma nested_object_get (jn : JoinSpec) (row : jsobj) (c : string) :
  ~ In "__proto__" (join_columns jn) ->
  In c (join_columns jn) ->
  Js.get c (nested_object jn row) = Js.get (join_alias jn c) row.
Proof.
  unfold nested_object.
  generalize (@nil (string * jsval)) as nested.
  induction (join_columns jn) as [|x cols IH] using rev_ind;
    intros nested Hp Hin; [contradiction|].
  rewrite fold_left_app. cbn [fold_left].
  assert (Hx : x <> "__proto__").
  { intros ->. apply Hp, in_or_app. right. now left. }
  destruct (String.eqb_spec c x) as [->|Hne].
  - now apply ObjectFacts.get_set_same.
  - rewrite ObjectFacts.get_set_other by assumption.
    apply IH.
    + intros H. apply Hp, in_or_app. now left.
    + apply in_app_or in Hin as [H|[H|[]]]; [exact H | congruence].
Qed.

Lemma nested_keys (jn : JoinSpec) (row : jsobj) (k : string) :
  ~ In "__proto__" (join_columns jn) ->
  In k (Js.keys (nested_object jn row)) <-> In k (join_columns jn).
Proof.
  unfold nested_object.
  assert (G : forall cols acc,
             ~ In "__proto__" cols ->
             In k (Js.keys
                     (fold_left
                        (fun nested c =>
                           Js.set c (Js.get (join_alias jn c) row) nested)
                        cols acc))
             <-> In k (Js.keys acc) \/ In k cols).
  { induction cols as [|c cols IH]; intros acc Hp; cbn [fold_left].
    - cbn. tauto.
    - rewrite IH by (intros H; apply Hp; now right).
      rewrite ObjectFacts.keys_set by (intros ->; apply Hp; now left).
      cbn [In]. split; intros H; intuition congruence. }
  intros Hp. rewrite (G _ _ Hp). cbn. tauto.
Qed.

Lemma without_aliases_keys (jn : JoinSpec) (row : jsobj) (x : string) :
  In x (Js.keys (without_aliases jn row))
  <-> In x (Js.keys row)
      /\ forall c, In c (join_columns jn) -> x <> join_alias jn c.
Proof.
  unfold without_aliases. revert row.
  induction (join_columns jn) as [|c cols IH]; intros row; cbn [fold_left].
  - cbn. tauto.
  - rewrite IH, ObjectFacts.keys_delete. cbn [In]. split.
    + intros [[Hne Hin] Hall]. split; [exact Hin|].
      intros c' [<-|Hc]; auto.
    + intros [Hin Hall]. repeat split; auto.
Qed.

Lemma without_aliases_get (jn : JoinSpec) (row : jsobj) (x : string) :
  (forall c, In c (join_columns jn) -> x <> join_alias jn c) ->
  Js.get x (without_aliases jn row) = Js.get x row.
Proof.
  unfold without_aliases. revert row.
  induction (join_columns jn) as [|c cols IH]; intros row Hall;
    cbn [fold_left]; [reflexivity|].
  rewrite IH by (intros c' Hc; apply Hall; now right).
  apply ObjectFacts.get_delete_other, Hall. now left.
Qed.

Lemma join_alias_not_table (jn : JoinSpec) (c : string) :
  join_alias jn c <> join_table jn.
Proof.
  unfold join_alias. intros E.
  apply (f_equal String.length) in E.
  rewrite !StringFacts.length_app in E. cbn in E. lia.
Qed.

Lemma reshape_row_nested (jn : JoinSpec) (row : jsobj) :
  join_table jn <> "__proto__" ->
  Js.get (join_table jn) (reshape_row jn row) = JObj (nested_object jn row).
Proof.
  intros Ht. rewrite reshape_row_parts. now apply ObjectFacts.get_set_same.
Qed.

Lemma reshape_row_drops_alias (jn : JoinSpec) (row : jsobj) (c : string) :
  In c (join_columns jn) ->
  ~ In (join_alias jn c) (Js.keys (reshape_row jn row)).
Proof.
  intros Hc Hin. rewrite reshape_row_parts in Hin.
  apply ObjectFacts.keys_set_inv in Hin as [E|Hin].
  - now apply join_alias_not_table in E.
  - apply without_aliases_keys in Hin as [_ Hall]. now apply (Hall c Hc).
Qed.

Lemma reshape_row_keeps (jn : JoinSpec) (row : jsobj) (k : string) :
  join_table jn <> "__proto__" ->
  k <> join_table jn ->
  (forall c, In c (join_columns jn) -> k <> join_alias jn c) ->
  Js.get k (reshape_row jn row) = Js.get k row.
Proof.
  intros Ht Hk Hall. rewrite reshape_row_parts.
  rewrite ObjectFacts.get_set_other by assumption.
  now apply without_aliases_get.
Qed.

Section EmbeddedRelation.

Variable JSON_stringify : jsval -> string.
Variable parseInt : jsval -> jsval.

Local Abbreviation execute := (_execute JSON_stringify parseInt).

Lemma select_relation (target inner : string) (this : QueryBuilder) :
  target <> "" -> all_chars is_word target = true ->
  inner <> "" -> all_chars JoinPattern.not_close inner = true ->
  ChainShape.mutating (_operation this) = false ->
  let b :=
    QB.select (Some ("*, " ++ target ++ "(" ++ inner ++ ")")) None this in
  _joins b
  = Js.push (_joins this)
      {| join_table := target;
         join_columns := map trim (split_comma inner);
         join_fk := drop_final_s target ++ "_id" |}
  /\ _selectCols b = "*"
  /\ _operation b = Some OpSelect
  /\ _countExact b = false.
Proof.
  intros Ht Hw Hi Hc Hop. cbv zeta. unfold QB.select.
  rewrite (exec_relation target inner Ht Hw Hi Hc).
  destruct (_operation this) as [[]|]; try discriminate Hop;
    repeat split; reflexivity.
Qed.

Lemma relation_chain (pool : Connector) (table target inner : string) :
  target <> "" -> all_chars is_word target = true ->
  inner <> "" -> all_chars JoinPattern.not_close inner = true ->
  Chain.run
    [CFrom table; CSelect (Some ("*, " ++ target ++ "(" ++ inner ++ ")")) None]
    (Chain.db pool)
  = {| _pool := pool; _table := Some table;
       _operation := Some OpSelect; _selectCols := "*";
       _countExact := false;
       _joins := [{| join_table := target;
                     join_columns := map trim (split_comma inner);
                     join_fk := drop_final_s target ++ "_id" |}];
       _wheres := []; _params := []; _orderClauses := [];
       _limitVal := None; _singleResult := false;
       _insertData := None; _updateData := None;
       _upsertConflict := None; _returnData := false |}.
Proof.
  intros Ht Hw Hi Hc.
  unfold Chain.run. cbn [fold_left Chain.call]. unfold QB.select.
  rewrite (exec_relation target inner Ht Hw Hi Hc). reflexivity.
Qed.

Lemma relation_join_sql (pool : Connector) (table target : string)
    (columns : list string) (fk : string) :
  select_sql
    {| _pool := pool; _table := Some table;
       _operation := Some OpSelect; _selectCols := "*";
       _countExact := false;
       _joins := [{| join_table := target; join_columns := columns;
                     join_fk := fk |}];
       _wheres := []; _params := []; _orderClauses := [];
       _limitVal := None; _singleResult := false;
       _insertData := None; _updateData := None;
       _upsertConflict := None; _returnData := false |}
  = "SELECT " ++ quote table ++ ".*, "
    ++ join ", " (map (joined_column target) columns)
    ++ " FROM " ++ quote table ++ " LEFT JOIN " ++ quote target
    ++ " ON " ++ quote table ++ "." ++ quote fk
    ++ " = " ++ quote target ++ "." ++ quote "id".
Proof.
  unfold select_sql, where_text, table_text, joined_column.
  cbn [_joins _selectCols _table _wheres _orderClauses _limitVal
       String.eqb Ascii.eqb Bool.eqb join_table join_columns join_fk].
  rewrite StringFacts.app_nil_r, !StringFacts.app_assoc.
  reflexivity.
Qed.

Lemma execute_select_rows (st : exec_state) (rows : list jsobj) :
  _operation (self st) = Some OpSelect ->
  _countExact (self st) = false ->
  _pool (self st) (issued st) (select_statement (self st)) = Ok rows ->
  execute st
  = (Resolved
       [("data", rows_data (self st) (reshape_rows (self st) rows));
        ("error",
         Js.or
           (if _singleResult (self st)
               && negb (Js.truthy (Js.first (reshape_rows (self st) rows)))
            then row_not_found else JNull)
           JNull);
        ("count", JNull)],
     after_query st (select_statement (self st))).
Proof.
  intros Hop Hc Hrows.
  rewrite execute_dispatch, dispatch_operation, Hop.
  pose proof (execSelect_run parseInt st) as S. cbv zeta in S.
  now rewrite S, Hrows, Hc.
Qed.

(** C5.  A select string [*, target(columns)] records the join
    descriptor [{table: target, columns, fk}] whose [fk] is the target
    name without a final [s], followed by [_id].  The statement sent is
    the LEFT JOIN of the target on ["table"."fk" = "target"."id"], each
    requested column selected as ["target"."col" AS "target_col"], and
    [data] is the array of the reshaped rows: a reshaped row has no
    property [target_col] left, keeps every column that is neither the
    target name nor an alias, and holds under the target name an object
    whose keys are the requested columns, each with what the row had
    under [target_col] (all but the first stated for a target and
    columns not named [__proto__], a name under which an assignment
    creates no property).  For
    ["*, orders(total, status)"] the descriptor is [orders], [total] and
    [status], [order_id]; the join is on
    ["table"."order_id" = "orders"."id"] with aliases [orders_total] and
    [orders_status]; every row of [data] has the nested object
    [orders: {total, status}], has neither [orders_total] nor
    [orders_status], and keeps its other columns. *)
Theorem embedded_relation_is_joined_and_nested (pool : Connector)
    (table : string) :
  (forall target inner,
     target <> "" -> all_chars is_word target = true ->
     inner <> "" -> all_chars JoinPattern.not_close inner = true ->
     let columns := map trim (split_comma inner) in
     let jn := {| join_table := target; join_columns := columns;
                  join_fk := drop_final_s target ++ "_id" |} in
     let b :=
       Chain.run
         [CFrom table;
          CSelect (Some ("*, " ++ target ++ "(" ++ inner ++ ")")) None]
         (Chain.db pool) in
     _joins b = [jn]
     /\ _selectCols b = "*"
     /\ select_sql b
        = "SELECT " ++ quote table ++ ".*, "
          ++ join ", " (map (joined_column target) columns)
          ++ " FROM " ++ quote table ++ " LEFT JOIN " ++ quote target
          ++ " ON " ++ quote table ++ "."
          ++ quote (drop_final_s target ++ "_id")
          ++ " = " ++ quote target ++ "." ++ quote "id"
     /\ (forall rows,
           pool [] (select_sql b, []) = Ok rows ->
           execute (Chain.start b)
           = (Resolved
                [("data", Js.array_of (map (reshape_row jn) rows));
                 ("error", JNull); ("count", JNull)],
              {| self := b; issued := [(select_sql b, [])] |}))
     /\ (forall row c,
           In c columns ->
           ~ In (target ++ "_" ++ c) (Js.keys (reshape_row jn row)))
     /\ (target <> "__proto__" -> ~ In "__proto__" columns ->
         forall row,
         (exists nested,
            Js.get target (reshape_row jn row) = JObj nested
            /\ (forall c, In c (Js.keys nested) <-> In c columns)
            /\ (forall c,
                  In c columns ->
                  Js.get c nested = Js.get (target ++ "_" ++ c) row))
         /\ (forall k,
               k <> target ->
               (forall c, In c columns -> k <> target ++ "_" ++ c) ->
               Js.get k (reshape_row jn row) = Js.get k row)))
  /\ let b :=
       Chain.run [CFrom table; CSelect (Some "*, orders(total, status)") None]
         (Chain.db pool) in
     let jn := {| join_table := "orders"; join_columns := ["total"; "status"];
                  join_fk := "order_id" |} in
     _joins b = [jn]
     /\ _selectCols b = "*"
     /\ select_sql b
        = "SELECT " ++ quote table ++ ".*, "
          ++ joined_column "orders" "total" ++ ", "
          ++ joined_column "orders" "status"
          ++ " FROM " ++ quote table ++ " LEFT JOIN " ++ quote "orders"
          ++ " ON " ++ quote table ++ "." ++ quote "order_id"
          ++ " = " ++ quote "orders" ++ "." ++ quote "id"
     /\ (forall rows,
           pool [] (select_sql b, []) = Ok rows ->
           execute (Chain.start b)
           = (Resolved
                [("data", Js.array_of (map (reshape_row jn) rows));
                 ("error", JNull); ("count", JNull)],
              {| self := b; issued := [(select_sql b, [])] |}))
     /\ (forall row,
           Js.get "orders" (reshape_row jn row)
           = JObj [("total", Js.get "orders_total" row);
                   ("status", Js.get "orders_status" row)]
           /\ ~ In "orders_total" (Js.keys (reshape_row jn row))
           /\ ~ In "orders_status" (Js.keys (reshape_row jn row))
           /\ (forall k,
                 k <> "orders" -> k <> "orders_total" ->
                 k <> "orders_status" ->
                 Js.get k (reshape_row jn row) = Js.get k row)).
Proof.
  assert (General : forall target inner,
     target <> "" -> all_chars is_word target = true ->
     inner <> "" -> all_chars JoinPattern.not_close inner = true ->
     let columns := map trim (split_comma inner) in
     let jn := {| join_table := target; join_columns := columns;
                  join_fk := drop_final_s target ++ "_id" |} in
     let b :=
       Chain.run
         [CFrom table;
          CSelect (Some ("*, " ++ target ++ "(" ++ inner ++ ")")) None]
         (Chain.db pool) in
     _joins b = [jn]
     /\ _selectCols b = "*"
     /\ select_sql b
        = "SELECT " ++ quote table ++ ".*, "
          ++ join ", " (map (joined_column target) columns)
          ++ " FROM " ++ quote table ++ " LEFT JOIN " ++ quote target
          ++ " ON " ++ quote table ++ "."
          ++ quote (drop_final_s target ++ "_id")
          ++ " = " ++ quote target ++ "." ++ quote "id"
     /\ (forall rows,
           pool [] (select_sql b, []) = Ok rows ->
           execute (Chain.start b)
           = (Resolved
                [("data", Js.array_of (map (reshape_row jn) rows));
                 ("error", JNull); ("count", JNull)],
              {| self := b; issued := [(select_sql b, [])] |}))).
  { intros target inner Ht Hw Hi Hc columns jn b. subst b.
    rewrite (relation_chain pool table target inner Ht Hw Hi Hc).
    split; [reflexivity|]. split; [reflexivity|].
    split; [apply relation_join_sql|].
    intros rows Hrows.
    exact (execute_select_rows
             (Chain.start
                {| _pool := pool; _table := Some table;
                   _operation := Some OpSelect; _selectCols := "*";
                   _countExact := false; _joins := [jn];
                   _wheres := []; _params := []; _orderClauses := [];
                   _limitVal := None; _singleResult := false;
                   _insertData := None; _updateData := None;
                   _upsertConflict := None; _returnData := false |})
             rows eq_refl eq_refl Hrows). }
  split.
  - intros target inner Ht Hw Hi Hc columns jn b.
    destruct (General target inner Ht Hw Hi Hc) as (J & S & Q & E).
    split; [exact J|]. split; [exact S|]. split; [exact Q|].
    split; [exact E|]. split.
    + intros row c Hin. exact (reshape_row_drops_alias jn row c Hin).
    + intros Hpt Hpc row. split.
      * exists (nested_object jn row).
        split; [exact (reshape_row_nested jn row Hpt)|].
        split; [intros c; exact (nested_keys jn row c Hpc)|].
        intros c Hin. exact (nested_object_get jn row c Hpc Hin).
      * intros k Hk Hall. exact (reshape_row_keeps jn row k Hpt Hk Hall).
  - cbv zeta.
    destruct (General "orders" "total, status"
                ltac:(discriminate) eq_refl ltac:(discriminate) eq_refl)
      as (J & S & Q & E).
    split; [exact J|]. split; [exact S|]. split; [exact Q|].
    split; [exact E|].
    intros row.
    set (jn := {| join_table := "orders";
                  join_columns := ["total"; "status"];
                  join_fk := "order_id" |}).
    split.
    { exact (reshape_row_nested jn row ltac:(discriminate)). }
    split; [apply (reshape_row_drops_alias jn row "total"); cbn; tauto|].
    split; [apply (reshape_row_drops_alias jn row "status"); cbn; tauto|].
    intros k H1 H2 H3. apply reshape_row_keeps; [discriminate | exact H1 |].
    intros c [<-|[<-|[]]]; assumption.
Qed.

End EmbeddedRelation.

Lemma embedded_relation_is_joined_and_nested_witness :
  let b :=
    Chain.run
      [CFrom "orders"; CSelect (Some "*, products(title, price)") None]
      (Chain.db (Sample.answering [])) in
  _joins b
  = [{| join_table := "products"; join_columns := ["title"; "price"];
        join_fk := "product_id" |}]
  /\ select_sql b
     = "SELECT " ++ quote "orders" ++ ".*, "
       ++ joined_column "products" "title" ++ ", "
       ++ joined_column "products" "price"
       ++ " FROM " ++ quote "orders" ++ " LEFT JOIN " ++ quote "products"
       ++ " ON " ++ quote "orders" ++ "." ++ quote "product_id"
       ++ " = " ++ quote "products" ++ "." ++ quote "id".
Proof.
  cbv zeta.
  destruct (proj1
              (embedded_relation_is_joined_and_nested Sample.stringify
                 Sample.parse_int (Sample.answering []) "orders")
              "products" "title, price"
              ltac:(discriminate) eq_refl ltac:(discriminate) eq_refl)
    as (J & _ & Q & _).
  split; [exact J | exact Q].
Defined.

(* ------------------------------------------------------------------ *)
(** *** Parameter alignment of UPDATE *)

Lemma call_binding (c : Call) (b : QueryBuilder) :
  Chain.binds c = true ->
  Chain.call b c
  = Assign.wheres
      (_wheres b ++ [Spec.where_clause (S (List.length (_params b)), c)])
      (Assign.params (_params b ++ [Chain.value_of c]) b).
Proof.
  intros H.
  assert (L : forall v, List.length (Js.push (_params b) v)
                        = S (List.length (_params b))).
  { intros v. unfold Js.push. rewrite List.length_app. cbn. lia. }
  destruct c; try discriminate H; unfold_call;
    unfold QB.placeholder_fragment, Spec.where_clause, Spec.placeholder;
    cbn [Chain.value_of Chain.column_of Chain.operator_of fst snd
         Assign.params _params _wheres];
    try (rewrite L; reflexivity).
  - cbn in H. apply Bool.andb_true_iff in H as [H1 H2].
    apply Bool.negb_true_iff in H1. rewrite H1, H2.
    cbn [Assign.params _params _wheres]. rewrite L. reflexivity.
  - cbn in H. apply Bool.negb_true_iff in H. rewrite H.
    cbn [Assign.params _params _wheres]. rewrite L. reflexivity.
Qed.

Lemma run_binding (filters : list Call) :
  forall b,
    forallb Chain.binds filters = true ->
    Chain.run filters b
    = Assign.wheres
        (_wheres b
         ++ map Spec.where_clause
              (combine (seq (S (List.length (_params b)))
                          (List.length filters))
                 filters))
        (Assign.params (_params b ++ map Chain.value_of filters) b).
Proof.
  induction filters as [|c filters IH]; intros b H.
  - cbn. rewrite !List.app_nil_r. now destruct b.
  - cbn in H. apply Bool.andb_true_iff in H as [Hc Hf].
    unfold Chain.run in *. cbn [fold_left].
    rewrite (IH _ Hf), (call_binding c b Hc).
    cbn [Assign.wheres Assign.params _wheres _params _pool _table _operation
         _selectCols _countExact _joins _orderClauses _limitVal
         _singleResult _insertData _updateData _upsertConflict _returnData
         List.length seq combine map].
    rewrite List.length_app, <- !List.app_assoc. cbn [List.length app].
    replace (List.length (_params b) + 1) with (S (List.length (_params b)))
      by lia.
    reflexivity.
Qed.

Module DollarCount.

Lemma app (a b : string) : dollars (a ++ b) = dollars a + dollars b.
Proof. apply StringFacts.count_char_app. Qed.

Lemma digits (s : string) : all_chars is_digit s = true -> dollars s = 0.
Proof.
  induction s as [|c s IH]; intros H; [reflexivity|].
  cbn in H. apply Bool.andb_true_iff in H as [Hc Hs].
  unfold dollars in *. cbn [count_char]. rewrite (IH Hs).
  destruct (Ascii.eqb_spec c "$"); [subst c; discriminate Hc | reflexivity].
Qed.

Lemma placeholder (n : nat) : dollars (Spec.placeholder n) = 1.
Proof.
  unfold Spec.placeholder. rewrite app, (digits (of_nat n)); [reflexivity|].
  apply of_nat_digits.
Qed.

Lemma quoted (k : string) : dollars (quote k) = dollars k.
Proof. unfold quote. rewrite !app. cbn. lia. Qed.

Lemma joined (sep : string) (l : list string) :
  dollars sep = 0 ->
  dollars (join sep l) = list_sum (map dollars l).
Proof.
  intros Hsep. induction l as [|x l IH]; [reflexivity|].
  destruct l as [|y l].
  - unfold join, list_sum. cbn [String.concat map fold_right]. lia.
  - rewrite join_cons2, !app, Hsep, IH. unfold list_sum.
    cbn [map fold_right]. lia.
Qed.

Lemma all_one {A : Type} (f : A -> nat) (l : list A) :
  (forall x, In x l -> f x = 1) ->
  list_sum (map f l) = List.length l.
Proof.
  induction l as [|x l IH]; intros H; [reflexivity|].
  unfold list_sum in *. cbn [map fold_right List.length].
  rewrite (H x (or_introl eq_refl)), IH; [reflexivity|].
  intros y Hy. apply H. now right.
Qed.

Lemma cons (c : ascii) (s : string) :
  dollars (String c s) = 0 -> dollars (String c "") = 0 /\ dollars s = 0.
Proof.
  change (String c s) with (String c "" ++ s). rewrite app. lia.
Qed.

Lemma split_arrow_parts_both (s : string) :
  (forall cur p,
     dollars cur = 0 -> dollars s = 0 ->
     In p (split_arrow_from cur s) -> dollars p = 0)
  /\ (forall c cur p,
        dollars cur = 0 -> dollars (String c s) = 0 ->
        In p (split_arrow_from cur (String c s)) -> dollars p = 0).
Proof.
  induction s as [|d s [IH1 IH2]].
  - split.
    + intros cur p Hcur _ [<-|[]]. exact Hcur.
    + intros c cur p Hcur Hs [<-|[]]. apply cons in Hs as [Hc _].
      rewrite app. lia.
  - split; [exact (IH2 d)|].
    intros c cur p Hcur Hs Hin.
    apply cons in Hs as [Hc Hs].
    rewrite split_arrow_from_step in Hin.
    destruct (Ascii.eqb c "-" && Ascii.eqb d ">").
    + destruct Hin as [<-|Hin]; [exact Hcur|].
      apply cons in Hs as [_ Hs].
      exact (IH1 "" p eq_refl Hs Hin).
    + apply (IH2 d (cur ++ String c "") p); [rewrite app; lia | exact Hs |].
      exact Hin.
Qed.

Lemma pgCol (col : string) : dollars col = 0 -> dollars (QB._pgCol col) = 0.
Proof.
  intros H. unfold QB._pgCol.
  destruct (includes_arrow col); [|now rewrite quoted].
  pose proof (proj1 (split_arrow_parts_both col) "") as Hp.
  unfold split_arrow.
  destruct (split_arrow_from "" col) as [|p0 [|p1 rest]]; try reflexivity.
  rewrite !app.
  rewrite (Hp p0 eq_refl H (or_introl eq_refl)).
  rewrite (Hp p1 eq_refl H (or_intror (or_introl eq_refl))).
  reflexivity.
Qed.

Lemma operator (c : Call) : dollars (Chain.operator_of c) = 0.
Proof. destruct c; reflexivity. Qed.

Lemma set_clause (ik : nat * string) :
  dollars (snd ik) = 0 -> dollars (Spec.set_clause ik) = 1.
Proof.
  intros H. unfold Spec.set_clause.
  rewrite !app, quoted, placeholder, H. reflexivity.
Qed.

Lemma where_clause (ic : nat * Call) :
  dollars (Chain.column_of (snd ic)) = 0 ->
  dollars (Spec.where_clause ic) = 1.
Proof.
  intros H. unfold Spec.where_clause.
  rewrite !app, (pgCol _ H), operator, placeholder. reflexivity.
Qed.

End DollarCount.

Section Alignment.

Variable JSON_stringify : jsval -> string.
Variable parseInt : jsval -> jsval.

Local Abbreviation execute := (_execute JSON_stringify parseInt).

Lemma update_chain (pool : Connector) (table : string)
    (filters : list Call) (updateData : jsobj) :
  forallb Chain.binds filters = true ->
  Chain.run (CFrom table :: filters ++ [CUpdate updateData]) (Chain.db pool)
  = QB.update updateData
      (Assign.wheres
         (map Spec.where_clause
            (combine (seq 1 (List.length filters)) filters))
         (Assign.params (map Chain.value_of filters)
            (QB.from table (Chain.db pool)))).
Proof.
  intros H. unfold Chain.run. cbn [fold_left].
  rewrite fold_left_app. cbn [fold_left Chain.call].
  change (fold_left Chain.call filters ?b) with (Chain.run filters b).
  now rewrite (run_binding filters _ H).
Qed.

(** C2.  A chain of [N] binding filter calls followed by [update] of an
    object with [M] keys hands the connector one UPDATE statement: its SET
    clauses refer to [$(N+1)] .. [$(N+M)] in key order, its WHERE
    fragments to [$1] .. [$N] in call order, and its parameter list is the
    [N] filter values followed by the [M] coerced update values.  The
    chain that calls [update] before the filters builds the same state.
    When no name in the chain contains a [$], the text has exactly
    [N + M] placeholders. *)
Theorem update_parameters_aligned (pool : Connector) (table : string)
    (filters : list Call) (updateData : jsobj) :
  forallb Chain.binds filters = true ->
  let b :=
    Chain.run (CFrom table :: filters ++ [CUpdate updateData])
      (Chain.db pool) in
  let N := List.length filters in
  let keys := Js.keys updateData in
  let M := List.length keys in
  let wheres := map Spec.where_clause (combine (seq 1 N) filters) in
  let sets := map Spec.set_clause (combine (seq (N + 1) M) keys) in
  let sql :=
    "UPDATE " ++ quote table ++ " SET " ++ join ", " sets
    ++ match filters with
       | [] => ""
       | _ :: _ => " WHERE " ++ join " AND " wheres
       end in
  let params :=
    (map Chain.value_of filters
     ++ map (fun k => Spec.coerced JSON_stringify (Js.get k updateData)) keys)%list in
  issued (snd (execute (Chain.start b))) = [(sql, params)]
  /\ List.length params = N + M
  /\ Chain.run (CFrom table :: CUpdate updateData :: filters) (Chain.db pool)
     = b
  /\ (dollars table = 0 ->
      (forall c, In c filters -> dollars (Chain.column_of c) = 0) ->
      (forall k, In k keys -> dollars k = 0) ->
      dollars sql = N + M).
Proof.
  intros H. cbv zeta. split; [|split; [|split]].
  - rewrite (update_chain pool table filters updateData H).
    match goal with
    | |- context [Chain.start ?b] =>
        rewrite (execute_update_issues JSON_stringify parseInt
                   (Chain.start b) updateData eq_refl eq_refl)
    end.
    unfold update_statement, update_bound, update_sql, where_text.
    rewrite bind_updates_closed.
    cbn [Chain.start self issued app fst snd QB.update QB.from
         QB.constructor Assign.operation Assign.updateData Assign.wheres
         Assign.params Assign.table _params _wheres _table _returnData
         table_text].
    rewrite List.length_map, Nat.add_1_r, StringFacts.app_nil_r.
    f_equal. f_equal.
    + destruct filters as [|c filters]; [|reflexivity].
      cbn. now rewrite StringFacts.app_nil_r.
    + f_equal. apply map_ext. intros k. apply pgVal_coerced.
  - now rewrite List.length_app, !List.length_map.
  - rewrite (update_chain pool table filters updateData H).
    unfold Chain.run. cbn [fold_left Chain.call].
    change (fold_left Chain.call filters ?b0) with (Chain.run filters b0).
    now rewrite (run_binding filters _ H).
  - intros Ht Hf Hk.
    assert (Hsets :
              dollars
                (join ", "
                   (map Spec.set_clause
                      (combine
                         (seq (List.length filters + 1)
                            (List.length (Js.keys updateData)))
                         (Js.keys updateData))))
              = List.length (Js.keys updateData)).
    { rewrite DollarCount.joined by reflexivity.
      rewrite map_map, DollarCount.all_one.
      - rewrite List.length_combine, List.length_seq. lia.
      - intros [i k] Hin. apply DollarCount.set_clause. cbn [snd].
        apply Hk. now apply in_combine_r in Hin. }
    assert (Hwheres :
              dollars
                (join " AND "
                   (map Spec.where_clause
                      (combine (seq 1 (List.length filters)) filters)))
              = List.length filters).
    { rewrite DollarCount.joined by reflexivity.
      rewrite map_map, DollarCount.all_one.
      - rewrite List.length_combine, List.length_seq. lia.
      - intros [i c] Hin. apply DollarCount.where_clause. cbn [snd].
        apply Hf. now apply in_combine_r in Hin. }
    rewrite !DollarCount.app, DollarCount.quoted, Ht, Hsets.
    destruct filters as [|c filters].
    + cbn. lia.
    + rewrite DollarCount.app, Hwheres. cbn. lia.
Qed.

End Alignment.

Lemma update_parameters_aligned_witness :
  issued
    (snd (_execute Sample.stringify Sample.parse_int
            (Chain.start
               (Chain.run
                  [CFrom "users"; CEq "org" (JNum 7);
                   CGt "meta->age" (JNum 18);
                   CUpdate [("name", JStr "Jane"); ("tags", JArr [])]]
                  (Chain.db (Sample.answering []))))))
  = [("UPDATE " ++ quote "users" ++ " SET " ++ quote "name" ++ " = $3, "
      ++ quote "tags" ++ " = $4 WHERE " ++ quote "org"
      ++ " = $1 AND meta->>'age' > $2",
      [JNum 7; JNum 18; JStr "Jane"; JStr "{}"])].
Proof.
  exact (proj1
           (update_parameters_aligned Sample.stringify Sample.parse_int
              (Sample.answering []) "users"
              [CEq "org" (JNum 7); CGt "meta->age" (JNum 18)]
              [("name", JStr "Jane"); ("tags", JArr [])] eq_refl)).
Defined.

(* ================================================================== *)
(** ** Further properties of the builder *)
(* ================================================================== *)

Ltac call_cases c b :=
  destruct c; unfold_call;
  repeat match goal with
    | |- context [match _operation b with _ => _ end] =>
        destruct (_operation b) as [[]|]
    | |- context [match JoinPattern.exec ?s with _ => _ end] =>
        destruct (JoinPattern.exec s)
    | |- context [if ?x then _ else _] => destruct x eqn:?
    end.

Lemma run_app (calls1 calls2 : list Call) (b : QueryBuilder) :
  Chain.run (calls1 ++ calls2) b = Chain.run calls2 (Chain.run calls1 b).
Proof. unfold Chain.run. apply fold_left_app. Qed.

Lemma run_cons (c : Call) (calls : list Call) (b : QueryBuilder) :
  Chain.run (c :: calls) b = Chain.run calls (Chain.call b c).
Proof. reflexivity. Qed.

Lemma call_params (c : Call) (b : QueryBuilder) :
  _params (Chain.call b c)
  = if ChainShape.is_from c then []
    else if Chain.binds c then Js.push (_params b) (Chain.value_of c)
         else _params b.
Proof.
  destruct c; unfold_call; cbn; try reflexivity.
  - destruct (_operation b) as [[]|]; cbn; try reflexivity;
      destruct (JoinPattern.exec _); reflexivity.
  - destruct (String.eqb operator "is" && Js.is_null value); cbn;
      [reflexivity|].
    destruct (String.eqb operator "eq"); reflexivity.
  - destruct (Js.is_null value); reflexivity.
Qed.

(** X1.  Along a chain without [from], the parameter list grows by exactly
    the values of the binding filter calls, in call order: [is(col, null)],
    [not(col, 'is', null)], a [not] with another operator than [eq], and
    every non-filter method add nothing to it. *)
Theorem params_are_bound_filter_values (calls : list Call)
    (b : QueryBuilder) :
  Shape.no_from calls = true ->
  _params (Chain.run calls b)
  = (_params b ++ map Chain.value_of (filter Chain.binds calls))%list.
Proof.
  revert b. induction calls as [|c calls IH]; intros b H.
  - cbn. now rewrite List.app_nil_r.
  - cbn in H. apply Bool.andb_true_iff in H as [Hc H].
    apply Bool.negb_true_iff in Hc.
    rewrite run_cons, (IH _ H), call_params, Hc. cbn [filter].
    destruct (Chain.binds c); [|reflexivity].
    unfold Js.push. cbn [map]. now rewrite <- List.app_assoc.
Qed.

Lemma params_are_bound_filter_values_witness :
  _params
    (Chain.run
       [CSelect None None; CIs "deleted_at" JNull; CEq "org" (JNum 7);
        CNot "name" "is" JNull; CNot "age" "gt" (JNum 3);
        CNot "role" "eq" (JStr "x"); COrder "name" None]
       (QB.from "users" (Chain.db (Sample.answering []))))
  = [JNum 7; JStr "x"].
Proof.
  exact (params_are_bound_filter_values
           [CSelect None None; CIs "deleted_at" JNull; CEq "org" (JNum 7);
            CNot "name" "is" JNull; CNot "age" "gt" (JNum 3);
            CNot "role" "eq" (JStr "x"); COrder "name" None]
           (QB.from "users" (Chain.db (Sample.answering []))) eq_refl).
Defined.

Lemma call_wheres_dollars (c : Call) (b : QueryBuilder) :
  dollars (Chain.column_of c) = 0 ->
  list_sum (map dollars (_wheres b)) = List.length (_params b) ->
  list_sum (map dollars (_wheres (Chain.call b c)))
  = List.length (_params (Chain.call b c)).
Proof.
  intros Hcol Hb.
  assert (Hnull : forall tail,
             dollars tail = 0 ->
             list_sum (map dollars
                         (Js.push (_wheres b)
                            (QB._pgCol (Chain.column_of c) ++ tail)))
             = List.length (_params b)).
  { intros tail Ht. unfold Js.push.
    rewrite map_app, list_sum_app, Hb. unfold list_sum.
    cbn [map fold_right].
    rewrite DollarCount.app, (DollarCount.pgCol _ Hcol), Ht. lia. }
  destruct (Chain.binds c) eqn:Hbinds.
  - rewrite (call_binding c b Hbinds).
    cbn [Assign.wheres Assign.params _wheres _params].
    rewrite map_app, list_sum_app, Hb, List.length_app. unfold list_sum.
    cbn [map fold_right List.length].
    rewrite (DollarCount.where_clause (_, c) Hcol). lia.
  - rewrite call_params, Hbinds.
    destruct c; try discriminate Hbinds; unfold_call; cbn [ChainShape.is_from];
      try exact Hb.
    + reflexivity.
    + destruct (_operation b) as [[]|]; cbn; try exact Hb;
        destruct (JoinPattern.exec _); exact Hb.
    + cbn [Chain.binds] in Hbinds. cbn [Chain.column_of] in Hnull.
      destruct (String.eqb operator "is" && Js.is_null value); cbn in Hbinds.
      * exact (Hnull " IS NOT NULL" eq_refl).
      * rewrite Hbinds. exact Hb.
    + cbn [Chain.binds] in Hbinds. apply Bool.negb_false_iff in Hbinds.
      rewrite Hbinds. exact (Hnull " IS NULL" eq_refl).
Qed.

(** X2.  Placeholders and parameters stay in step: along every chain whose
    filter columns contain no [$], the WHERE fragments together contain as
    many [$] signs as there are bound parameters. *)
Theorem where_placeholders_match_params (calls : list Call)
    (pool : Connector) :
  (forall c, In c calls -> dollars (Chain.column_of c) = 0) ->
  list_sum (map dollars (_wheres (Chain.run calls (Chain.db pool))))
  = List.length (_params (Chain.run calls (Chain.db pool))).
Proof.
  intros H.
  assert (G : forall b,
             list_sum (map dollars (_wheres b)) = List.length (_params b) ->
             list_sum (map dollars (_wheres (Chain.run calls b)))
             = List.length (_params (Chain.run calls b))).
  { induction calls as [|c calls IH]; intros b Hb; [exact Hb|].
    rewrite run_cons. apply IH.
    - intros c' Hc'. apply H. now right.
    - apply call_wheres_dollars; [apply H; now left | exact Hb]. }
  now apply G.
Qed.

Lemma where_placeholders_match_params_witness :
  list_sum
    (map dollars
       (_wheres
          (Chain.run
             [CFrom "users"; CSelect None None; CIs "deleted_at" JNull;
              CEq "meta->plan" (JStr "pro"); CLte "age" (JNum 30)]
             (Chain.db (Sample.answering [])))))
  = 2.
Proof.
  apply (where_placeholders_match_params
           [CFrom "users"; CSelect None None; CIs "deleted_at" JNull;
            CEq "meta->plan" (JStr "pro"); CLte "age" (JNum 30)]
           (Sample.answering [])).
  intros c Hc. cbn in Hc.
  repeat (destruct Hc as [<-|Hc]; [reflexivity|]). contradiction.
Defined.

Lemma call_pool (c : Call) (b : QueryBuilder) :
  _pool (Chain.call b c) = _pool b.
Proof. call_cases c b; reflexivity. Qed.

Lemma run_pool (calls : list Call) (b : QueryBuilder) :
  _pool (Chain.run calls b) = _pool b.
Proof.
  revert b. induction calls as [|c calls IH]; intros b; [reflexivity|].
  now rewrite run_cons, IH, call_pool.
Qed.

(** X3.  [from] starts afresh whatever was chained before it: the builder
    it returns is the empty builder on the same pool with only the table
    set, so nothing accumulated by an earlier chain (filters, parameters,
    operation, rows, flags) reaches the new one; and no method ever
    replaces the pool. *)
Theorem from_starts_afresh (calls : list Call) (b : QueryBuilder)
    (table : string) :
  QB.from table (Chain.run calls b)
  = Assign.table (Some table) (QB.constructor (_pool b))
  /\ _pool (Chain.run calls b) = _pool b
  /\ Chain.run (calls ++ [CFrom table]) b = QB.from table b.
Proof.
  assert (E : QB.from table (Chain.run calls b)
              = Assign.table (Some table) (QB.constructor (_pool b))).
  { unfold QB.from. now rewrite run_pool. }
  split; [exact E|]. split; [apply run_pool|].
  rewrite run_app. cbn [Chain.run fold_left Chain.call]. now rewrite E.
Qed.

Lemma call_keeps_mutation (c : Call) (b : QueryBuilder) :
  ChainShape.is_from c = false ->
  ChainShape.mutating (_operation b) = true ->
  ChainShape.mutating (_operation (Chain.call b c)) = true
  /\ _joins (Chain.call b c) = _joins b
  /\ _selectCols (Chain.call b c) = _selectCols b
  /\ _countExact (Chain.call b c) = _countExact b.
Proof.
  intros Hc Hm.
  destruct c; try discriminate Hc; unfold_call; cbn; auto.
  - destruct (_operation b) as [[]|] eqn:E; try discriminate Hm; cbn;
      rewrite E; auto.
  - destruct (String.eqb operator "is" && Js.is_null value); cbn; auto.
    destruct (String.eqb operator "eq"); cbn; auto.
  - destruct (Js.is_null value); cbn; auto.
Qed.

(** X4.  Once a mutation entry point was called, the chain stays a
    mutation: no later call (short of [from]) turns the operation back
    into a select, and a later [select(columns, {count})] neither changes
    the projection, nor records a join, nor asks for a count: it only
    sets the return-rows flag. *)
Theorem mutation_is_kept (calls : list Call) (b : QueryBuilder) :
  Shape.no_from calls = true ->
  ChainShape.mutating (_operation b) = true ->
  ChainShape.mutating (_operation (Chain.run calls b)) = true
  /\ _joins (Chain.run calls b) = _joins b
  /\ _selectCols (Chain.run calls b) = _selectCols b
  /\ _countExact (Chain.run calls b) = _countExact b
  /\ (forall columns count,
        Chain.call b (CSelect columns count) = Assign.returnData true b).
Proof.
  intros Hnf Hm.
  assert (G : ChainShape.mutating (_operation (Chain.run calls b)) = true
              /\ _joins (Chain.run calls b) = _joins b
              /\ _selectCols (Chain.run calls b) = _selectCols b
              /\ _countExact (Chain.run calls b) = _countExact b).
  { revert b Hm. induction calls as [|c calls IH]; intros b Hm; [auto|].
    cbn in Hnf. apply Bool.andb_true_iff in Hnf as [Hc Hnf].
    apply Bool.negb_true_iff in Hc.
    destruct (call_keeps_mutation c b Hc Hm) as (Hm' & Hj & Hs & Hx).
    rewrite run_cons.
    destruct (IH Hnf _ Hm') as (? & Hj' & Hs' & Hx').
    rewrite Hj', Hs', Hx'. auto. }
  destruct G as (G1 & G2 & G3 & G4). repeat split; auto.
  intros columns count. unfold Chain.call, QB.select.
  destruct (_operation b) as [[]|]; try discriminate Hm; reflexivity.
Qed.

Lemma mutation_is_kept_witness :
  let b :=
    Chain.run
      [CEq "id" (JNum 1); CSelect (Some "*, orders(total)") (Some "exact");
       CSingle]
      (QB.update [("name", JStr "Jane")]
         (QB.from "users" (Chain.db (Sample.answering [])))) in
  _operation b = Some OpUpdate /\ _joins b = [] /\ _countExact b = false.
Proof.
  cbv zeta.
  destruct
    (mutation_is_kept
       [CEq "id" (JNum 1); CSelect (Some "*, orders(total)") (Some "exact");
        CSingle]
       (QB.update [("name", JStr "Jane")]
          (QB.from "users" (Chain.db (Sample.answering []))))
       eq_refl eq_refl) as (_ & Hj & _ & Hc & _).
  split; [reflexivity|]. split; [exact Hj | exact Hc].
Defined.



Section Outcomes.

Variable JSON_stringify : jsval -> string.
Variable parseInt : jsval -> jsval.

Local Abbreviation execute := (_execute JSON_stringify parseInt).


(** X6.  One check suffices: in every envelope an execution resolves to,
    an [error] other than [null] comes with [data: null]. *)
Theorem error_comes_without_data (st : exec_state) (env : envelope)
    (st' : exec_state) :
  execute st = (Resolved env, st') ->
  env_error env <> JNull ->
  env_data env = JNull.
Proof.
  intros E Herr. rewrite execute_dispatch in E.
  destruct (dispatch JSON_stringify parseInt st) as [[env0|e] st0] eqn:D;
    injection E as <- <-; [|reflexivity].
  rewrite dispatch_operation in D.
  destruct (_operation (self st)) as [[]|].
  - pose proof (execSelect_run parseInt st) as S. cbv zeta in S.
    rewrite S in D. clear S.
    destruct (_pool (self st) (issued st) _) as [rows|e]; [|discriminate D].
    assert (G : forall count,
               env0 = [("data",
                        rows_data (self st) (reshape_rows (self st) rows));
                       ("error",
                        Js.or
                          (if _singleResult (self st)
                              && negb (Js.truthy
                                         (Js.first
                                            (reshape_rows (self st) rows)))
                           then row_not_found else JNull) JNull);
                       ("count", count)] ->
               env_data env0 = JNull).
    { intros count ->. unfold env_error, env_data, rows_data in *.
      cbn [Js.get String.eqb Ascii.eqb Bool.eqb] in *.
      destruct (_singleResult (self st)); [|now cbn in Herr].
      destruct (reshape_rows (self st) rows); [reflexivity | now cbn in Herr]. }
    destruct (_countExact (self st)).
    + destruct (_pool (self st) _ _) as [[|r l]|e]; try discriminate D.
      injection D as <- _. now apply (G _ eq_refl).
    + injection D as <- _. now apply (G _ eq_refl).
  - unfold _execInsert, Exec.bind, Exec.this, Exec.ret, Exec.throw,
      Exec.query in D.
    destruct (_insertData (self st)) as [[|row0 rest]|];
      try (injection D as <- _; reflexivity); try discriminate D.
    destruct (bind_rows JSON_stringify (Js.keys row0) (row0 :: rest)).
    cbn [self issued] in D.
    destruct (_pool (self st) (issued st) _); [|discriminate D].
    injection D as <- _. now contradiction Herr.
  - unfold _execUpdate, Exec.bind, Exec.this, Exec.ret, Exec.throw,
      Exec.query, Exec.modify in D.
    destruct (_updateData (self st)) as [data|]; [|discriminate D].
    destruct (bind_updates JSON_stringify data (Js.keys data)
                (_params (self st))).
    cbn [self issued] in D.
    destruct (_pool _ (issued st) _); [|discriminate D].
    injection D as <- _. now contradiction Herr.
  - unfold _execUpsert, Exec.bind, Exec.this, Exec.ret, Exec.throw,
      Exec.query in D.
    destruct (_insertData (self st)) as [[|row0 rest]|];
      try (injection D as <- _; reflexivity); try discriminate D.
    destruct (bind_rows JSON_stringify (Js.keys row0) (row0 :: rest)).
    destruct (_upsertConflict (self st)); [|discriminate D].
    cbn [self issued] in D.
    destruct (_pool (self st) (issued st) _); [|discriminate D].
    injection D as <- _. now contradiction Herr.
  - injection D as <- _. reflexivity.
Qed.

End Outcomes.


Lemma error_comes_without_data_witness :
  env_data
    (failure_envelope (JError "connection refused")) = JNull.
Proof.
  apply (error_comes_without_data Sample.stringify Sample.parse_int
           (Chain.start
              (Chain.run [CFrom "users"; CSelect None None]
                 (Chain.db (Sample.failing (JError "connection refused")))))
           (failure_envelope (JError "connection refused"))
           {| self :=
                Chain.run [CFrom "users"; CSelect None None]
                  (Chain.db (Sample.failing (JError "connection refused")));
              issued := [("SELECT * FROM " ++ quote "users", [])] |}).
  - reflexivity.
  - discriminate.
Defined.

Section RoundTrips.

Variable JSON_stringify : jsval -> string.
Variable parseInt : jsval -> jsval.

Local Abbreviation execute := (_execute JSON_stringify parseInt).

Lemma dispatch_trace (st : exec_state) :
  exists new,
    issued (snd (dispatch JSON_stringify parseInt st))
    = (issued st ++ new)%list
    /\ List.length new <= 2
    /\ (_operation (self st) = None -> new = [])
    /\ (_operation (self st) <> Some OpSelect -> List.length new <= 1)
    /\ (_countExact (self st) = false -> List.length new <= 1)
    /\ (_operation (self st) <> Some OpUpdate ->
        self (snd (dispatch JSON_stringify parseInt st)) = self st).
Proof.
  rewrite dispatch_operation.
  assert (Z : forall s : exec_state,
             issued s = (issued s ++ [])%list) by
    (intros; now rewrite List.app_nil_r).
  destruct (_operation (self st)) as [[]|] eqn:Hop.
  - pose proof (execSelect_run parseInt st) as S. cbv zeta in S.
    rewrite S. clear S. unfold after_query.
    destruct (_pool (self st) (issued st) _) as [rows|e].
    + destruct (_countExact (self st)).
      * exists [select_statement (self st); count_statement (self st)].
        destruct (_pool (self st) _ _) as [[|r l]|e]; cbn [snd issued self];
          rewrite <- List.app_assoc; cbn;
          repeat split; auto; try discriminate; congruence.
      * exists [select_statement (self st)]. cbn.
        repeat split; auto; try discriminate; congruence.
    + exists [select_statement (self st)]. cbn.
      repeat split; auto; try discriminate; congruence.
  - unfold _execInsert, Exec.bind, Exec.this, Exec.ret, Exec.throw,
      Exec.query.
    destruct (_insertData (self st)) as [[|row0 rest]|].
    + exists []. cbn. repeat split; auto.
    + destruct (bind_rows JSON_stringify (Js.keys row0) (row0 :: rest))
        as [values placeholders].
      eexists [_]. cbn [self issued].
      destruct (_pool (self st) (issued st) _); cbn;
        repeat split; auto; discriminate.
    + exists []. cbn. repeat split; auto.
  - unfold _execUpdate, Exec.bind, Exec.this, Exec.ret, Exec.throw,
      Exec.query, Exec.modify.
    destruct (_updateData (self st)) as [data|].
    + destruct (bind_updates JSON_stringify data (Js.keys data)
                  (_params (self st))) as [params setClauses].
      eexists [_]. cbn [self issued].
      destruct (_pool _ (issued st) _); cbn;
        repeat split; auto; try discriminate; congruence.
    + exists []. cbn. repeat split; auto.
  - unfold _execUpsert, Exec.bind, Exec.this, Exec.ret, Exec.throw,
      Exec.query.
    destruct (_insertData (self st)) as [[|row0 rest]|].
    + exists []. cbn. repeat split; auto.
    + destruct (bind_rows JSON_stringify (Js.keys row0) (row0 :: rest))
        as [values placeholders].
      destruct (_upsertConflict (self st)).
      * eexists [_]. cbn [self issued].
        destruct (_pool (self st) (issued st) _); cbn;
          repeat split; auto; discriminate.
      * exists []. cbn. repeat split; auto.
    + exists []. cbn. repeat split; auto.
  - exists []. cbn. repeat split; auto.
Qed.

Lemma execute_snd (st : exec_state) :
  snd (execute st) = snd (dispatch JSON_stringify parseInt st).
Proof.
  rewrite execute_dispatch.
  now destruct (dispatch JSON_stringify parseInt st) as [[env|e] st'].
Qed.

(** X7.  An execution only appends to what the connector has received,
    and appends at most two statements: none when no operation was
    chosen, at most one unless it is a select with an exact count. *)
Theorem at_most_two_statements (st : exec_state) :
  exists new,
    issued (snd (execute st)) = (issued st ++ new)%list
    /\ List.length new <= 2
    /\ (_operation (self st) = None -> new = [])
    /\ (_operation (self st) <> Some OpSelect -> List.length new <= 1)
    /\ (_countExact (self st) = false -> List.length new <= 1).
Proof.
  rewrite execute_snd.
  destruct (dispatch_trace st) as (new & H1 & H2 & H3 & H4 & H5 & _).
  exists new. auto.
Qed.

(** X8.  Executing a select, an insert or an upsert (or a chain without
    operation) leaves the builder as it was, so awaiting the same chain
    again compiles the same statements. *)
Theorem execution_keeps_builder (st : exec_state) :
  _operation (self st) <> Some OpUpdate ->
  self (snd (execute st)) = self st.
Proof.
  intros H. rewrite execute_snd.
  destruct (dispatch_trace st) as (new & _ & _ & _ & _ & _ & Hself).
  exact (Hself H).
Qed.

(** X9.  Executing an update is not repeatable: the coerced update values
    stay on the builder's parameter list, so awaiting the same chain a
    second time binds them once more, after the first copies, and hands
    the connector a parameter list longer by the number of keys. *)
Theorem update_execution_rebinds (st : exec_state) (updateData : jsobj) :
  _operation (self st) = Some OpUpdate ->
  _updateData (self st) = Some updateData ->
  let values :=
    map (fun k => Spec.coerced JSON_stringify (Js.get k updateData))
      (Js.keys updateData) in
  let st1 := snd (execute st) in
  let st2 := snd (execute st1) in
  _params (self st1) = (_params (self st) ++ values)%list
  /\ exists sql1 sql2,
       issued st2
       = (issued st
          ++ [(sql1, (_params (self st) ++ values)%list);
              (sql2, (_params (self st) ++ values ++ values)%list)])%list.
Proof.
  intros Hop Hd. cbv zeta.
  assert (Hv : map (fun k => _pgVal JSON_stringify (Js.get k updateData))
                 (Js.keys updateData)
               = map (fun k => Spec.coerced JSON_stringify
                                 (Js.get k updateData))
                   (Js.keys updateData)).
  { apply map_ext. intros k. apply pgVal_coerced. }
  assert (E1 : snd (execute st)
               = {| self := update_bound JSON_stringify (self st) updateData;
                    issued :=
                      (issued st
                       ++ [update_statement JSON_stringify (self st)
                             updateData])%list |}).
  { rewrite execute_snd, dispatch_operation, Hop.
    rewrite (execUpdate_data JSON_stringify st updateData Hd).
    reflexivity. }
  rewrite E1. cbn [self issued].
  assert (P1 : _params (update_bound JSON_stringify (self st) updateData)
               = (_params (self st)
                  ++ map (fun k => Spec.coerced JSON_stringify
                                     (Js.get k updateData))
                       (Js.keys updateData))%list).
  { unfold update_bound. cbn [Assign.params _params].
    rewrite bind_updates_closed. cbn [fst]. now rewrite Hv. }
  split; [exact P1|].
  rewrite (execute_update_issues JSON_stringify parseInt _ updateData);
    [|exact Hop | exact Hd].
  cbn [self issued].
  eexists _, _. rewrite <- List.app_assoc. cbn [app].
  unfold update_statement at 1 2.
  f_equal. f_equal; [now rewrite P1|].
  f_equal. f_equal.
  unfold update_bound at 1. cbn [Assign.params _params].
  rewrite bind_updates_closed. cbn [fst].
  now rewrite P1, Hv, <- List.app_assoc.
Qed.

End RoundTrips.

Lemma execution_keeps_builder_witness :
  let b :=
    Chain.run
      [CFrom "users"; CSelect None (Some "exact"); CEq "id" (JNum 1)]
      (Chain.db (Sample.answering [[("count", JNum 3)]])) in
  self (snd (_execute Sample.stringify Sample.parse_int (Chain.start b))) = b.
Proof.
  cbv zeta.
  apply (execution_keeps_builder Sample.stringify Sample.parse_int
           (Chain.start
              (Chain.run
                 [CFrom "users"; CSelect None (Some "exact");
                  CEq "id" (JNum 1)]
                 (Chain.db (Sample.answering [[("count", JNum 3)]]))))).
  discriminate.
Defined.

Lemma update_execution_rebinds_witness :
  let st :=
    Chain.start
      (Chain.run
         [CFrom "users"; CUpdate [("name", JStr "Jane")]; CEq "id" (JNum 1)]
         (Chain.db (Sample.answering []))) in
  _params
    (self (snd (_execute Sample.stringify Sample.parse_int st)))
  = [JNum 1; JStr "Jane"].
Proof.
  cbv zeta.
  exact (proj1
           (update_execution_rebinds Sample.stringify Sample.parse_int
              (Chain.start
                 (Chain.run
                    [CFrom "users"; CUpdate [("name", JStr "Jane")];
                     CEq "id" (JNum 1)]
                    (Chain.db (Sample.answering []))))
              [("name", JStr "Jane")] eq_refl eq_refl)).
Defined.

Section ExactCount.

Variable JSON_stringify : jsval -> string.
Variable parseInt : jsval -> jsval.

Local Abbreviation execute := (_execute JSON_stringify parseInt).

(** X10.  A select with an exact count: when the main statement fails, no
    count statement is sent; when it succeeds, the count statement goes
    second, with the parameters and WHERE fragments of the main one but
    without its ORDER BY and LIMIT, and [count] is [parseInt] of the
    [count] column of its first row.  When the count statement fails, or
    returns no row, the rows of the main statement are dropped: the
    envelope is the failure envelope. *)
Theorem exact_count_runs_second (st : exec_state) :
  _operation (self st) = Some OpSelect ->
  _countExact (self st) = true ->
  let sel := select_statement (self st) in
  let cnt := count_statement (self st) in
  snd cnt = snd sel
  /\ (forall col asc n,
        count_statement (QB.single (QB.limit n (QB.order col asc (self st))))
        = cnt)
  /\ (forall e,
        _pool (self st) (issued st) sel = Throw e ->
        execute st = (Resolved (failure_envelope e), after_query st sel))
  /\ (forall rows,
        _pool (self st) (issued st) sel = Ok rows ->
        (forall c rest,
           _pool (self st) (issued st ++ [sel])%list cnt = Ok (c :: rest) ->
           exists data error,
             execute st
             = (Resolved
                  [("data", data); ("error", error);
                   ("count", parseInt (Js.get "count" c))],
                after_query (after_query st sel) cnt))
        /\ (forall e,
              _pool (self st) (issued st ++ [sel])%list cnt = Throw e ->
              execute st
              = (Resolved (failure_envelope e),
                 after_query (after_query st sel) cnt))
        /\ (_pool (self st) (issued st ++ [sel])%list cnt = Ok [] ->
            execute st
            = (Resolved (failure_envelope TypeError),
               after_query (after_query st sel) cnt))).
Proof.
  intros Hop Hc. cbv zeta.
  pose proof (execute_dispatch JSON_stringify parseInt st) as E.
  rewrite dispatch_operation, Hop in E.
  pose proof (execSelect_run parseInt st) as S. cbv zeta in S.
  rewrite S, Hc in E. clear S.
  split; [reflexivity|]. split; [reflexivity|]. split.
  - intros e He. now rewrite He in E.
  - intros rows Hrows. rewrite Hrows in E. repeat split.
    + intros c rest Hq. rewrite Hq in E. eexists _, _. exact E.
    + intros e Hq. now rewrite Hq in E.
    + intros Hq. now rewrite Hq in E.
Qed.

End ExactCount.

Lemma exact_count_runs_second_witness :
  exists data error,
    _execute Sample.stringify Sample.parse_int
      (Chain.start
         (Chain.run
            [CFrom "users"; CSelect None (Some "exact"); CLimit (Some 1%Z)]
            (Chain.db (Sample.answering [[("count", JNum 3)]]))))
    = (Resolved [("data", data); ("error", error); ("count", JNum 3)],
       {| self :=
            Chain.run
              [CFrom "users"; CSelect None (Some "exact");
               CLimit (Some 1%Z)]
              (Chain.db (Sample.answering [[("count", JNum 3)]]));
          issued :=
            [("SELECT * FROM " ++ quote "users" ++ " LIMIT 1", []);
             ("SELECT COUNT(*) FROM " ++ quote "users", [])] |}).
Proof.
  destruct
    (exact_count_runs_second Sample.stringify Sample.parse_int
       (Chain.start
          (Chain.run
             [CFrom "users"; CSelect None (Some "exact"); CLimit (Some 1%Z)]
             (Chain.db (Sample.answering [[("count", JNum 3)]]))))
       eq_refl eq_refl) as (_ & _ & _ & H).
  destruct (H [[("count", JNum 3)]] eq_refl) as (Hok & _).
  destruct (Hok [("count", JNum 3)] [] eq_refl) as (data & error & E).
  exists data, error. exact E.
Defined.

Section Inserts.

Variable JSON_stringify : jsval -> string.
Variable parseInt : jsval -> jsval.

Local Abbreviation execute := (_execute JSON_stringify parseInt).

Lemma get_missing (k : string) (o : jsobj) :
  ~ In k (Js.keys o) -> Js.get k o = Js.inherited k.
Proof.
  induction o as [|[k' v] o IH]; intros H; [reflexivity|].
  cbn in *. destruct (String.eqb_spec k k') as [->|Hne].
  - exfalso. apply H. now left.
  - apply IH. intros Hin. apply H. now right.
Qed.

Lemma inherited_member (k : string) :
  In k Js.prototype_functions -> Js.inherited k = JBuiltin k.
Proof.
  intros H. unfold Js.inherited.
  assert (E : existsb (String.eqb k) Js.prototype_functions = true).
  { apply existsb_exists. exists k. split; [exact H | apply String.eqb_refl]. }
  rewrite E.
  destruct (String.eqb_spec k "__proto__") as [->|_]; [|reflexivity].
  exfalso. cbn in H. intuition discriminate.
Qed.

Lemma inherited_nothing (k : string) :
  k <> "__proto__" -> ~ In k Js.prototype_functions ->
  Js.inherited k = JUndefined.
Proof.
  intros Hp H. unfold Js.inherited.
  apply String.eqb_neq in Hp. rewrite Hp.
  destruct (existsb (String.eqb k) Js.prototype_functions) eqn:E;
    [|reflexivity].
  apply existsb_exists in E as (x & Hx & Hk).
  apply String.eqb_eq in Hk. subst x. contradiction.
Qed.

Lemma flat_map_length_const {A B : Type} (f : A -> list B) (n : nat)
    (l : list A) :
  (forall x, List.length (f x) = n) ->
  List.length (flat_map f l) = List.length l * n.
Proof.
  intros H. induction l as [|x l IH]; [reflexivity|].
  cbn [flat_map List.length]. rewrite List.length_app, H, IH. lia.
Qed.

(** X11.  The shape of an INSERT comes from the first row alone: the
    column list is its keys, every row gives one tuple of that many
    placeholders numbered on from the previous tuple, and the parameters
    sent are, row by row, what each row yields under each of these keys,
    coerced: rows times keys entries.  Under a key the first row has and
    a later row does not own, that row yields what it inherits from
    [Object.prototype]: [undefined] is bound when the key names no member
    of [Object.prototype], the built-in function when it names one (as
    [constructor] does).  A key only a later row has is dropped without
    notice. *)
Theorem insert_takes_shape_of_first_row (st : exec_state) (row0 : jsobj)
    (rest : list jsobj) :
  _operation (self st) = Some OpInsert ->
  _insertData (self st) = Some (row0 :: rest) ->
  let keys := Js.keys row0 in
  let sql :=
    "INSERT INTO " ++ quote (table_text (self st))
    ++ " (" ++ join ", " (map quote keys) ++ ") VALUES "
    ++ join ", " (row_tuples (List.length keys) 0 (S (List.length rest)))
    ++ (if _returnData (self st) then " RETURNING *" else "") in
  let params :=
    flat_map (fun row => map (fun k => _pgVal JSON_stringify (Js.get k row))
                           keys)
      (row0 :: rest) in
  (issued (snd (execute st)) = (issued st ++ [(sql, params)])%list
   /\ List.length params = S (List.length rest) * List.length keys)
  /\ (forall row k,
        In k keys -> ~ In k (Js.keys row) ->
        _pgVal JSON_stringify (Js.get k row)
        = _pgVal JSON_stringify (Js.inherited k)
        /\ (k <> "__proto__" -> ~ In k Js.prototype_functions ->
            _pgVal JSON_stringify (Js.get k row) = JUndefined)
        /\ (In k Js.prototype_functions ->
            _pgVal JSON_stringify (Js.get k row) = JBuiltin k))
  /\ (forall pre row post k v,
        rest = (pre ++ row :: post)%list ->
        ~ In k keys -> k <> "__proto__" ->
        insert_statement JSON_stringify (self st)
          (row0 :: pre ++ Js.set k v row :: post)
        = insert_statement JSON_stringify (self st) (row0 :: rest)).
Proof.
  intros Hop Hd. cbv zeta. split; [|split].
  - split.
    + rewrite (execute_insert_issues JSON_stringify parseInt st row0 rest
                 Hop Hd).
      unfold insert_statement, insert_sql.
      rewrite bind_rows_tuples, bind_rows_values.
      reflexivity.
    + rewrite (flat_map_length_const _ (List.length (Js.keys row0))).
      * reflexivity.
      * intros row. apply List.length_map.
  - intros row k _ Hk. rewrite (get_missing k row Hk).
    split; [reflexivity|]. split.
    + intros Hp Hm. now rewrite (inherited_nothing k Hp Hm).
    + intros Hm. now rewrite (inherited_member k Hm).
  - intros pre row post k v -> Hk Hp.
    unfold insert_statement. rewrite !bind_rows_tuples.
    f_equal.
    + cbn [List.length]. now rewrite !List.length_app.
    + rewrite !bind_rows_values. cbn [flat_map]. f_equal.
      rewrite !flat_map_app. cbn [flat_map]. f_equal. f_equal.
      apply map_ext_in. intros k' Hk'.
      rewrite ObjectFacts.get_set_other; [reflexivity | exact Hp |].
      intros ->. contradiction.
Qed.

(** X12.  What a successful insert or update returns: [data] is [null]
    unless [select()] asked for the rows, whatever the connector
    returned; with [select()] it is the returned rows, or in single-row
    mode the first of them, and [null] when there is none.  [error] is
    [null] in every case: a mutation never reports "Row not found". *)
Theorem mutation_data_only_on_request (st : exec_state)
    (rows : list jsobj) :
  (forall row0 rest,
     _operation (self st) = Some OpInsert ->
     _insertData (self st) = Some (row0 :: rest) ->
     _pool (self st) (issued st)
       (insert_statement JSON_stringify (self st) (row0 :: rest)) = Ok rows ->
     fst (execute st)
     = Resolved
         [("data",
           if _returnData (self st) then
             if _singleResult (self st) then
               match rows with [] => JNull | r :: _ => JObj r end
             else Js.array_of rows
           else JNull);
          ("error", JNull)])
  /\ (forall updateData,
        _operation (self st) = Some OpUpdate ->
        _updateData (self st) = Some updateData ->
        _pool (self st) (issued st)
          (update_statement JSON_stringify (self st) updateData) = Ok rows ->
        fst (execute st)
        = Resolved
            [("data",
              if _returnData (self st) then
                if _singleResult (self st) then
                  match rows with [] => JNull | r :: _ => JObj r end
                else Js.array_of rows
              else JNull);
             ("error", JNull)]).
Proof.
  assert (R : forall this,
             rows_data this rows
             = if _singleResult this then
                 match rows with [] => JNull | r :: _ => JObj r end
               else Js.array_of rows).
  { intros this. unfold rows_data. destruct (_singleResult this);
      [now destruct rows | reflexivity]. }
  split.
  - intros row0 rest Hop Hd Hq.
    rewrite execute_dispatch, dispatch_operation, Hop,
      (execInsert_rows JSON_stringify st row0 rest Hd), Hq.
    cbn [fst]. now rewrite R.
  - intros updateData Hop Hd Hq.
    rewrite execute_dispatch, dispatch_operation, Hop,
      (execUpdate_data JSON_stringify st updateData Hd), Hq.
    cbn [fst]. now rewrite R.
Qed.

End Inserts.

Lemma insert_takes_shape_of_first_row_witness :
  issued
    (snd (_execute Sample.stringify Sample.parse_int
            (Chain.start
               (Chain.run
                  [CFrom "users";
                   CInsert (ManyRows [[("name", JStr "A"); ("age", JNum 1)];
                                      [("name", JStr "B")]])]
                  (Chain.db (Sample.answering []))))))
  = [("INSERT INTO " ++ quote "users" ++ " (" ++ quote "name" ++ ", "
      ++ quote "age" ++ ") VALUES ($1, $2), ($3, $4)",
      [JStr "A"; JNum 1; JStr "B"; JUndefined])].
Proof.
  exact (proj1 (proj1
           (insert_takes_shape_of_first_row Sample.stringify Sample.parse_int
              (Chain.start
                 (Chain.run
                    [CFrom "users";
                     CInsert (ManyRows [[("name", JStr "A"); ("age", JNum 1)];
                                        [("name", JStr "B")]])]
                    (Chain.db (Sample.answering []))))
              [("name", JStr "A"); ("age", JNum 1)] [[("name", JStr "B")]]
              eq_refl eq_refl))).
Defined.

Lemma mutation_data_only_on_request_witness :
  fst (_execute Sample.stringify Sample.parse_int
         (Chain.start
            (Chain.run
               [CFrom "users"; CInsert (OneRow [("name", JStr "A")])]
               (Chain.db (Sample.answering [[("id", JNum 1)]])))))
  = Resolved [("data", JNull); ("error", JNull)].
Proof.
  exact (proj1
           (mutation_data_only_on_request Sample.stringify Sample.parse_int
              (Chain.start
                 (Chain.run
                    [CFrom "users"; CInsert (OneRow [("name", JStr "A")])]
                    (Chain.db (Sample.answering [[("id", JNum 1)]]))))
              [[("id", JNum 1)]])
           [("name", JStr "A")] [] eq_refl eq_refl eq_refl).
Defined.

(* ------------------------------------------------------------------ *)
(** *** Plain selects *)

Lemma span_rest_all (p q : ascii -> bool) (s : string) :
  all_chars q s = true -> all_chars q (snd (span p s)) = true.
Proof.
  induction s as [|c s IH]; intros H; [reflexivity|].
  cbn [span]. destruct (p c).
  - cbn in H. apply Bool.andb_true_iff in H as [_ H].
    specialize (IH H). now destruct (span p s).
  - exact H.
Qed.

Lemma match_tail_no_paren (s : string) :
  all_chars Shape.no_open_paren s = true -> JoinPattern.match_tail s = None.
Proof.
  intros H. unfold JoinPattern.match_tail.
  pose proof (span_rest_all is_space _ s H) as H1.
  pose proof (span_rest_all is_word _ _ H1) as H2.
  destruct (span is_word (snd (span is_space s))) as [w s2].
  cbn [snd] in H2.
  destruct (is_empty w); [reflexivity|].
  destruct s2 as [|c s3]; [reflexivity|].
  cbn in H2. apply Bool.andb_true_iff in H2 as [Hc _].
  unfold Shape.no_open_paren in Hc. apply Bool.negb_true_iff in Hc.
  now rewrite Hc.
Qed.

Lemma exec_no_paren (s : string) :
  all_chars Shape.no_open_paren s = true -> JoinPattern.exec s = None.
Proof.
  induction s as [|c s IH]; intros H.
  - reflexivity.
  - assert (Hs : all_chars Shape.no_open_paren s = true).
    { cbn in H. now apply Bool.andb_true_iff in H as [_ H]. }
    assert (M : JoinPattern.match_here (String c s) = None).
    { unfold JoinPattern.match_here.
      destruct (Ascii.eqb c ",").
      - now rewrite (match_tail_no_paren s Hs), (match_tail_no_paren _ H).
      - apply (match_tail_no_paren _ H). }
    now rewrite (exec_step c s M), (IH Hs).
Qed.

(** X13.  A select string without an opening parenthesis records no join
    and is kept verbatim; the statement then projects [*] as it is, and
    otherwise each comma-separated piece, trimmed and double-quoted. *)
Theorem plain_select_projects_columns (pool : Connector)
    (table columns : string) (count : option string) :
  all_chars Shape.no_open_paren columns = true ->
  let b :=
    Chain.run [CFrom table; CSelect (Some columns) count] (Chain.db pool) in
  _joins b = []
  /\ _selectCols b = columns
  /\ select_sql b
     = "SELECT "
       ++ (if String.eqb columns "*" then "*"
           else join ", " (map quote (map trim (split_comma columns))))
       ++ " FROM " ++ quote table.
Proof.
  intros H. cbv zeta.
  assert (E : Chain.run [CFrom table; CSelect (Some columns) count]
                (Chain.db pool)
              = Assign.selectCols columns
                  (Assign.countExact
                     (match count with
                      | Some c => String.eqb c "exact"
                      | None => false
                      end)
                     (Assign.operation (Some OpSelect)
                        (QB.from table (Chain.db pool))))).
  { unfold Chain.run. cbn [fold_left Chain.call]. unfold QB.select.
    cbn [QB.from Chain.db QB.constructor Assign.table _operation].
    now rewrite (exec_no_paren columns H). }
  rewrite E. split; [reflexivity|]. split; [reflexivity|].
  unfold select_sql, where_text, table_text.
  cbn [Assign.selectCols Assign.countExact Assign.operation QB.from
       Chain.db QB.constructor Assign.table _joins _selectCols _table
       _wheres _orderClauses _limitVal].
  rewrite map_map, StringFacts.app_nil_r. reflexivity.
Qed.

Lemma plain_select_projects_columns_witness :
  select_sql
    (Chain.run [CFrom "users"; CSelect (Some "id , name") None]
       (Chain.db (Sample.answering [])))
  = "SELECT " ++ quote "id" ++ ", " ++ quote "name" ++ " FROM "
    ++ quote "users".
Proof.
  exact (proj2 (proj2
           (plain_select_projects_columns (Sample.answering []) "users"
              "id , name" None eq_refl))).
Defined.

Lemma run_orders (orders : list (string * option bool)) :
  forall b,
    Chain.run (map Shape.order_call orders) b
    = Assign.orderClauses
        (_orderClauses b ++ map Shape.order_clause orders) b.
Proof.
  induction orders as [|o orders IH]; intros b.
  - cbn. rewrite List.app_nil_r. now destruct b.
  - cbn [map]. rewrite run_cons, IH.
    unfold Shape.order_call at 1. cbn [Chain.call]. unfold QB.order, Js.push.
    cbn [Assign.orderClauses _orderClauses].
    rewrite <- List.app_assoc. cbn [app].
    unfold Shape.order_clause at 2.
    destruct o as [col [[]|]]; reflexivity.
Qed.

Section SelectChains.

Variable JSON_stringify : jsval -> string.
Variable parseInt : jsval -> jsval.

Local Abbreviation execute := (_execute JSON_stringify parseInt).

Lemma execute_select_issues_one (st : exec_state) :
  _operation (self st) = Some OpSelect ->
  _countExact (self st) = false ->
  issued (snd (execute st))
  = (issued st ++ [select_statement (self st)])%list.
Proof.
  intros Hop Hc. rewrite execute_dispatch, dispatch_operation, Hop.
  pose proof (execSelect_run parseInt st) as S. cbv zeta in S.
  rewrite S, Hc.
  now destruct (_pool (self st) (issued st) _).
Qed.

(** X14.  Filters, ordering and limit compose into one SELECT: the WHERE
    fragments in call order with placeholders [$1] .. [$N], joined by
    [AND]; then the ORDER BY terms in call order, ascending unless
    [ascending: false]; then the LIMIT, its number a safe integer printed
    in decimal digits; the parameters are the filter values.  Calling
    [order] and [limit] before the filters builds the same builder. *)
Theorem select_chain_compiles (pool : Connector) (table : string)
    (filters : list Call) (orders : list (string * option bool)) (n : Z) :
  forallb Chain.binds filters = true ->
  is_safe_integer n = true ->
  let b :=
    Chain.run
      (CFrom table :: CSelect None None
       :: filters ++ map Shape.order_call orders ++ [CLimit (Some n)])
      (Chain.db pool) in
  let wheres :=
    map Spec.where_clause (combine (seq 1 (List.length filters)) filters) in
  let sql :=
    "SELECT * FROM " ++ quote table
    ++ match filters with
       | [] => ""
       | _ :: _ => " WHERE " ++ join " AND " wheres
       end
    ++ match orders with
       | [] => ""
       | _ :: _ => " ORDER BY " ++ join ", " (map Shape.order_clause orders)
       end
    ++ " LIMIT " ++ of_Z n in
  issued (snd (execute (Chain.start b)))
  = [(sql, map Chain.value_of filters)]
  /\ Chain.run
       (CFrom table :: CSelect None None
        :: map Shape.order_call orders ++ [CLimit (Some n)] ++ filters)
       (Chain.db pool)
     = b.
Proof.
  intros H _. cbv zeta.
  set (b0 := Chain.call (Chain.call (Chain.db pool) (CFrom table))
               (CSelect None None)).
  assert (E : Chain.run
                (CFrom table :: CSelect None None
                 :: filters ++ map Shape.order_call orders
                    ++ [CLimit (Some n)])
                (Chain.db pool)
              = QB.limit (Some n)
                  (Assign.orderClauses (map Shape.order_clause orders)
                     (Assign.wheres
                        (map Spec.where_clause
                           (combine (seq 1 (List.length filters)) filters))
                        (Assign.params (map Chain.value_of filters) b0)))).
  { rewrite !run_cons, !run_app. fold b0.
    rewrite (run_binding filters b0 H), run_orders. reflexivity. }
  split.
  - rewrite E.
    match goal with
    | |- context [Chain.start ?b] =>
        rewrite (execute_select_issues_one (Chain.start b) eq_refl eq_refl)
    end.
    cbn [Chain.start issued self app]. unfold select_statement. f_equal.
    f_equal.
    unfold select_sql, where_text, table_text.
    cbn [QB.limit Assign.limitVal Assign.orderClauses Assign.wheres
         Assign.params _joins _selectCols _table _wheres _orderClauses
         _limitVal b0 Chain.call QB.select QB.from Chain.db QB.constructor
         Assign.table Assign.operation Assign.countExact Assign.selectCols
         _operation JoinPattern.exec].
    change (JoinPattern.exec "*") with (@None JoinPattern.groups).
    cbn [Assign.selectCols _joins _selectCols _table _wheres _orderClauses
         _limitVal String.eqb Ascii.eqb Bool.eqb].
    destruct filters as [|f filters], orders as [|o orders];
      cbn [map combine seq List.length];
      rewrite ?StringFacts.app_nil_r, ?StringFacts.app_assoc; reflexivity.
  - rewrite E, !run_cons, !run_app. fold b0.
    rewrite run_orders. cbn [Chain.run fold_left Chain.call].
    change (fold_left Chain.call filters ?x) with (Chain.run filters x).
    rewrite (run_binding filters _ H). reflexivity.
Qed.

End SelectChains.

Lemma select_chain_compiles_witness :
  issued
    (snd (_execute Sample.stringify Sample.parse_int
            (Chain.start
               (Chain.run
                  [CFrom "users"; CSelect None None;
                   CEq "active" (JBool true); COrder "name" None;
                   COrder "age" (Some false); CLimit (Some 10%Z)]
                  (Chain.db (Sample.answering []))))))
  = [("SELECT * FROM " ++ quote "users" ++ " WHERE " ++ quote "active"
      ++ " = $1 ORDER BY " ++ quote "name" ++ " ASC, " ++ quote "age"
      ++ " DESC LIMIT 10",
      [JBool true])].
Proof.
  exact (proj1
           (select_chain_compiles Sample.stringify Sample.parse_int
              (Sample.answering []) "users" [CEq "active" (JBool true)]
              [("name", None); ("age", Some false)] 10%Z eq_refl eq_refl)).
Defined.

(* ------------------------------------------------------------------ *)
(** *** What a mutation ignores *)

Lemma call_shapes_rows_keeps (c : Call) (b : QueryBuilder) :
  Shape.shapes_rows c = true ->
  _table (Chain.call b c) = _table b
  /\ _operation (Chain.call b c) = _operation b
  /\ _insertData (Chain.call b c) = _insertData b
  /\ _updateData (Chain.call b c) = _updateData b
  /\ _upsertConflict (Chain.call b c) = _upsertConflict b
  /\ _returnData (Chain.call b c) = _returnData b.
Proof.
  intros H. destruct c; try discriminate H; unfold_call;
    repeat match goal with
      | |- context [if ?x then _ else _] => destruct x
      end;
    cbn; auto 10.
Qed.

Lemma run_shapes_rows_keeps (calls : list Call) :
  forall b,
    forallb Shape.shapes_rows calls = true ->
    _table (Chain.run calls b) = _table b
    /\ _operation (Chain.run calls b) = _operation b
    /\ _insertData (Chain.run calls b) = _insertData b
    /\ _updateData (Chain.run calls b) = _updateData b
    /\ _upsertConflict (Chain.run calls b) = _upsertConflict b
    /\ _returnData (Chain.run calls b) = _returnData b.
Proof.
  induction calls as [|c calls IH]; intros b H; [now repeat split|].
  cbn in H. apply Bool.andb_true_iff in H as [Hc H].
  rewrite run_cons.
  destruct (IH (Chain.call b c) H) as (-> & -> & -> & -> & -> & ->).
  now apply call_shapes_rows_keeps.
Qed.

Lemma call_paging_keeps (c : Call) (b : QueryBuilder) :
  Paging.orders_or_limits c = true ->
  _wheres (Chain.call b c) = _wheres b
  /\ _params (Chain.call b c) = _params b.
Proof. intros H. destruct c; try discriminate H; now split. Qed.

Lemma run_paging_keeps (calls : list Call) :
  forall b,
    forallb Paging.orders_or_limits calls = true ->
    forallb Shape.shapes_rows calls = true
    /\ _wheres (Chain.run calls b) = _wheres b
    /\ _params (Chain.run calls b) = _params b.
Proof.
  induction calls as [|c calls IH]; intros b H; [now repeat split|].
  cbn in H. apply Bool.andb_true_iff in H as [Hc H].
  rewrite run_cons.
  destruct (IH (Chain.call b c) H) as (Hs & -> & ->).
  destruct (call_paging_keeps c b Hc) as [-> ->].
  repeat split. cbn. rewrite Hs.
  destruct c; try discriminate Hc; reflexivity.
Qed.

Section Ignored.

Variable JSON_stringify : jsval -> string.
Variable parseInt : jsval -> jsval.

Local Abbreviation execute := (_execute JSON_stringify parseInt).

(** X15.  Filters, [order], [limit] and [single] chained on an insert or
    an upsert do not reach the statement: the chain hands the connector
    exactly the statement it would without them (an INSERT has no WHERE).
    [order], [limit] and [single] chained on an update are ignored in the
    same way. *)
Theorem mutations_ignore_row_shaping (calls : list Call)
    (b : QueryBuilder) :
  (forallb Shape.shapes_rows calls = true ->
   forall row0 rest,
     _insertData b = Some (row0 :: rest) ->
     (_operation b = Some OpInsert ->
      issued (snd (execute (Chain.start (Chain.run calls b))))
      = issued (snd (execute (Chain.start b))))
     /\ (forall conflict,
           _operation b = Some OpUpsert ->
           _upsertConflict b = Some conflict ->
           issued (snd (execute (Chain.start (Chain.run calls b))))
           = issued (snd (execute (Chain.start b)))))
  /\ (forallb Paging.orders_or_limits calls = true ->
      forall updateData,
        _operation b = Some OpUpdate ->
        _updateData b = Some updateData ->
        issued (snd (execute (Chain.start (Chain.run calls b))))
        = issued (snd (execute (Chain.start b)))).
Proof.
  split.
  - intros H row0 rest Hd.
    destruct (run_shapes_rows_keeps calls b H)
      as (Ht & Ho & Hi & Hu & Hc & Hr).
    split.
    + intros Hop.
      rewrite (execute_insert_issues JSON_stringify parseInt
                 (Chain.start (Chain.run calls b)) row0 rest);
        [|cbn; congruence | cbn; congruence].
      rewrite (execute_insert_issues JSON_stringify parseInt
                 (Chain.start b) row0 rest Hop Hd).
      cbn [Chain.start self issued].
      unfold insert_statement, insert_sql, table_text. now rewrite Ht, Hr.
    + intros conflict Hop Hcf.
      rewrite (execute_upsert_issues JSON_stringify parseInt
                 (Chain.start (Chain.run calls b)) row0 rest conflict);
        [|cbn; congruence | cbn; congruence | cbn; congruence].
      rewrite (execute_upsert_issues JSON_stringify parseInt
                 (Chain.start b) row0 rest conflict Hop Hd Hcf).
      cbn [Chain.start self issued].
      unfold upsert_statement, upsert_sql, table_text. now rewrite Ht.
  - intros H updateData Hop Hd.
    destruct (run_paging_keeps calls b H) as (Hs & Hw & Hp).
    destruct (run_shapes_rows_keeps calls b Hs)
      as (Ht & Ho & Hi & Hu & Hc & Hr).
    rewrite (execute_update_issues JSON_stringify parseInt
               (Chain.start (Chain.run calls b)) updateData);
      [|cbn; congruence | cbn; congruence].
    rewrite (execute_update_issues JSON_stringify parseInt
               (Chain.start b) updateData Hop Hd).
    cbn [Chain.start self issued].
    unfold update_statement, update_bound, update_sql, table_text,
      where_text.
    cbn [Assign.params _params _wheres _table _returnData].
    now rewrite Ht, Hr, Hw, Hp.
Qed.

End Ignored.

Lemma mutations_ignore_row_shaping_witness :
  issued
    (snd (_execute Sample.stringify Sample.parse_int
            (Chain.start
               (Chain.run [CEq "id" (JNum 1); CLimit (Some 1%Z)]
                  (Chain.run
                     [CFrom "users"; CInsert (OneRow [("name", JStr "A")])]
                     (Chain.db (Sample.answering [])))))))
  = [("INSERT INTO " ++ quote "users" ++ " (" ++ quote "name"
      ++ ") VALUES ($1)", [JStr "A"])].
Proof.
  exact (proj1
           (proj1
              (mutations_ignore_row_shaping Sample.stringify
                 Sample.parse_int [CEq "id" (JNum 1); CLimit (Some 1%Z)]
                 (Chain.run
                    [CFrom "users"; CInsert (OneRow [("name", JStr "A")])]
                    (Chain.db (Sample.answering []))))
              eq_refl [("name", JStr "A")] [] eq_refl)
           eq_refl).
Defined.

(* ------------------------------------------------------------------ *)
(** *** Coercion, conflict targets, unsupported negations *)


Lemma filter_none {A : Type} (f : A -> bool) (l : list A) :
  (forall x, In x l -> f x = false) -> filter f l = [].
Proof.
  induction l as [|x l IH]; intros H; [reflexivity|].
  cbn. rewrite (H x (or_introl eq_refl)). apply IH.
  intros y Hy. apply H. now right.
Qed.

Section ConflictOnly.

Variable JSON_stringify : jsval -> string.
Variable parseInt : jsval -> jsval.

Local Abbreviation execute := (_execute JSON_stringify parseInt).

(** X17.  When every key of the first row is a conflict target, as for
    [upsert({id: 1})] with the default target, nothing is left to
    assign: the statement handed to the connector ends with an empty
    assignment list, [DO UPDATE SET  RETURNING *]. *)
Theorem upsert_of_targets_only_has_empty_set (st : exec_state)
    (upsertConflict : string) (row0 : jsobj) (rest : list jsobj) :
  _operation (self st) = Some OpUpsert ->
  _insertData (self st) = Some (row0 :: rest) ->
  _upsertConflict (self st) = Some upsertConflict ->
  (forall k, In k (Js.keys row0) ->
             In k (conflict_targets upsertConflict)) ->
  exists sql params,
    issued (snd (execute st)) = (issued st ++ [(sql, params)])%list
    /\ ends_with " DO UPDATE SET  RETURNING *" sql.
Proof.
  intros Hop Hd Hc Hall.
  rewrite (execute_upsert_issues JSON_stringify parseInt st row0 rest
             upsertConflict Hop Hd Hc).
  unfold upsert_statement. eexists _, _. split; [reflexivity|].
  unfold upsert_sql, update_clauses.
  rewrite filter_none.
  - cbn [map join String.concat].
    do 8 apply ends_with_app.
    exists ")". reflexivity.
  - intros k Hk. apply Bool.negb_false_iff, includes_In, Hall, Hk.
Qed.

End ConflictOnly.

Lemma upsert_of_targets_only_has_empty_set_witness :
  exists sql params,
    issued
      (snd (_execute Sample.stringify Sample.parse_int
              (Chain.start
                 (Chain.run
                    [CFrom "users"; CUpsert (OneRow [("id", JNum 1)]) None]
                    (Chain.db (Sample.answering []))))))
    = [(sql, params)]
    /\ ends_with " DO UPDATE SET  RETURNING *" sql.
Proof.
  apply (upsert_of_targets_only_has_empty_set Sample.stringify
           Sample.parse_int
           (Chain.start
              (Chain.run
                 [CFrom "users"; CUpsert (OneRow [("id", JNum 1)]) None]
                 (Chain.db (Sample.answering []))))
           "id" [("id", JNum 1)] [] eq_refl eq_refl eq_refl).
  intros k [<-|[]]. now left.
Defined.

(** X18.  A [not] with an operand the method does not implement filters
    nothing: [not(col, 'gt', v)], and [not(col, 'is', v)] for a [v] other
    than [null], leave the builder as it was, so the chain is the chain
    without that call. *)
Theorem unsupported_not_filters_nothing (pre post : list Call)
    (b : QueryBuilder) (column operator : string) (value : jsval) :
  Shape.unsupported_not operator value = true ->
  Chain.run (pre ++ CNot column operator value :: post) b
  = Chain.run (pre ++ post) b.
Proof.
  intros H. unfold Shape.unsupported_not in H.
  apply Bool.andb_true_iff in H as [H1 H2].
  apply Bool.negb_true_iff in H1, H2.
  rewrite !run_app, run_cons. f_equal.
  cbn [Chain.call]. unfold QB.not. now rewrite H1, H2.
Qed.

Lemma unsupported_not_filters_nothing_witness :
  Chain.run
    ([CFrom "users"; CSelect None None]
     ++ CNot "active" "is" (JBool true) :: [CEq "id" (JNum 1)])
    (Chain.db (Sample.answering []))
  = Chain.run [CFrom "users"; CSelect None None; CEq "id" (JNum 1)]
      (Chain.db (Sample.answering [])).
Proof.
  exact (unsupported_not_filters_nothing
           [CFrom "users"; CSelect None None] [CEq "id" (JNum 1)]
           (Chain.db (Sample.answering [])) "active" "is" (JBool true)
           eq_refl).
Defined.

(* ------------------------------------------------------------------ *)
(** *** The table *)

Lemma call_table (c : Call) (b : QueryBuilder) :
  ChainShape.is_from c = false -> _table (Chain.call b c) = _table b.
Proof.
  intros H. destruct c; try discriminate H; unfold_call;
    repeat match goal with
      | |- context [match _operation b with _ => _ end] =>
          destruct (_operation b) as [[]|]
      | |- context [match JoinPattern.exec ?s with _ => _ end] =>
          destruct (JoinPattern.exec s)
      | |- context [if ?x then _ else _] => destruct x
      end;
    reflexivity.
Qed.

(** X19.  Only [from] names the table: every other method keeps it, so a
    chain built on the exported builder without [from] still has no table
    when it runs, and its statement names the table [null]. *)
Theorem only_from_sets_table (calls : list Call) (b : QueryBuilder) :
  Shape.no_from calls = true ->
  _table (Chain.run calls b) = _table b
  /\ (forall pool,
        b = Chain.db pool -> table_text (Chain.run calls b) = "null").
Proof.
  intros H.
  assert (E : _table (Chain.run calls b) = _table b).
  { revert b. induction calls as [|c calls IH]; intros b; [reflexivity|].
    cbn in H. apply Bool.andb_true_iff in H as [Hc H].
    apply Bool.negb_true_iff in Hc.
    now rewrite run_cons, (IH H), call_table. }
  split; [exact E|].
  intros pool ->. unfold table_text. now rewrite E.
Qed.

Lemma only_from_sets_table_witness :
  table_text
    (Chain.run [CSelect None None; CEq "id" (JNum 1)]
       (Chain.db (Sample.answering [])))
  = "null".
Proof.
  exact (proj2
           (only_from_sets_table [CSelect None None; CEq "id" (JNum 1)]
              (Chain.db (Sample.answering [])) eq_refl)
           (Sample.answering []) eq_refl).
Defined.

(* ------------------------------------------------------------------ *)
(** *** Reshaping rows of any join *)

(** X20.  Reshaping a row for any join descriptor whose table and columns
    are not named [__proto__] (an assignment under that name creates no
    property): the row gets, under the joined table's name, an object with
    exactly the requested columns, each holding what the row yields under
    its alias (what the row inherits from [Object.prototype] under that
    name, that is [undefined] for an alias that names no member of it,
    when the row has no such column); the aliases are gone from the row;
    whatever the row had under the table's name is replaced; every other
    column keeps its value. *)
Theorem reshaped_row_nests_joined_columns (jn : JoinSpec) (row : jsobj) :
  join_table jn <> "__proto__" ->
  ~ In "__proto__" (join_columns jn) ->
  Js.get (join_table jn) (reshape_row jn row) = JObj (nested_object jn row)
  /\ (forall k,
        In k (Js.keys (nested_object jn row)) <-> In k (join_columns jn))
  /\ (forall c,
        In c (join_columns jn) ->
        Js.get c (nested_object jn row) = Js.get (join_alias jn c) row
        /\ ~ In (join_alias jn c) (Js.keys (reshape_row jn row))
        /\ (~ In (join_alias jn c) (Js.keys row) ->
            Js.get c (nested_object jn row) = Js.inherited (join_alias jn c))
        /\ (~ In (join_alias jn c) (Js.keys row) ->
            join_alias jn c <> "__proto__" ->
            ~ In (join_alias jn c) Js.prototype_functions ->
            Js.get c (nested_object jn row) = JUndefined))
  /\ (forall k,
        k <> join_table jn ->
        (forall c, In c (join_columns jn) -> k <> join_alias jn c) ->
        Js.get k (reshape_row jn row) = Js.get k row).
Proof.
  intros Ht Hcols.
  split; [now apply reshape_row_nested|].
  split; [intros k; now apply nested_keys|]. split.
  - intros c Hc. split; [now apply nested_object_get|].
    split; [now apply reshape_row_drops_alias|]. split.
    + intros Hmiss. rewrite (nested_object_get jn row c Hcols Hc).
      now apply get_missing.
    + intros Hmiss Hp Hm. rewrite (nested_object_get jn row c Hcols Hc).
      rewrite (get_missing _ _ Hmiss). now apply inherited_nothing.
  - intros k Hk Hall. now apply reshape_row_keeps.
Qed.

Lemma reshaped_row_nests_joined_columns_witness :
  let jn := {| join_table := "products"; join_columns := ["title"; "price"];
               join_fk := "product_id" |} in
  let row := [("id", JNum 1); ("products", JStr "shadowed");
              ("products_title", JStr "Mug")] in
  Js.get "title" (nested_object jn row) = JStr "Mug"
  /\ Js.get "price" (nested_object jn row) = JUndefined
  /\ ~ In "products_title" (Js.keys (reshape_row jn row)).
Proof.
  cbv zeta.
  pose proof
    (reshaped_row_nests_joined_columns
       {| join_table := "products"; join_columns := ["title"; "price"];
          join_fk := "product_id" |}
       [("id", JNum 1); ("products", JStr "shadowed");
        ("products_title", JStr "Mug")]
       ltac:(discriminate)
       ltac:(cbn; intros [E|[E|[]]]; discriminate E)) as (_ & _ & H & _).
  destruct (H "title" (or_introl eq_refl)) as (Ht & Hk & _).
  destruct (H "price" (or_intror (or_introl eq_refl))) as (_ & _ & _ & Hp).
  split; [exact Ht|]. split; [|exact Hk].
  apply Hp.
  - cbn. intros [E|[E|[E|[]]]]; discriminate E.
  - discriminate.
  - cbn. intuition discriminate.
Defined.

Lemma at_most_two_statements_witness :
  exists new,
    issued
      (snd (_execute Sample.stringify Sample.parse_int
              (Chain.start
                 (Chain.run [CFrom "users"; CEq "id" (JNum 1)]
                    (Chain.db (Sample.answering []))))))
    = new
    /\ new = [].
Proof.
  destruct
    (at_most_two_statements Sample.stringify Sample.parse_int
       (Chain.start
          (Chain.run [CFrom "users"; CEq "id" (JNum 1)]
             (Chain.db (Sample.answering [])))))
    as (new & E & _ & Hnone & _).
  exists new. split; [exact E | exact (Hnone eq_refl)].
Defined.

